(** * agentreflect: the session-log parser ([agentreflect/parser.py])

    A shallow embedding of the parsing core: role normalisation, format
    detection, the four grammar parsers, session assembly and the views of
    a session, together with the parts of Python's [str], [json] and [re]
    that the parser calls.

    Conventions of the embedding.
    - A Python [str] is a [string]; its characters are read as the code
      points U+0000 to U+00FF.  [str.isspace], [str.lower] and the regular
      expression classes are the restrictions of Python's to that range.
    - A raised exception is the left injection of a sum ([result]); the
      exceptions the parser can raise are [ParseError], and [AttributeError]
      and [TypeError] coming from operations on decoded values.
    - A Python [dict] is an association list with unique keys in insertion
      order.
    - [json.loads] is Python's on the documents of [in_range]: those whose
      [\u] escapes stay within the character range above and that keep
      within the limits of the interpreter.  Where a statement tells a
      result from what the decoder answers, [in_range] of the content is a
      hypothesis. *)

From Stdlib Require Import String Ascii List Bool Arith ZArith Lia.
Import ListNotations.
Open Scope list_scope.
Open Scope string_scope.

Set Implicit Arguments.
Set Warnings "-register-all".

(** ** Python's [str] methods *)

Module Py.

(** [str.isspace] on one character (code points below 256): TAB, LF, VT,
    FF, CR, the separators FS, GS, RS, US, space, NEL and NBSP. *)
Definition isspace (c : ascii) : bool :=
  let n := nat_of_ascii c in
  (((9 <=? n) && (n <=? 13)) || ((28 <=? n) && (n <=? 32))
   || (n =? 133) || (n =? 160))%nat.

(** [str.lower] on one character: the ASCII capitals and the Latin-1
    capitals U+00C0 to U+00DE except the multiplication sign U+00D7. *)
Definition lower_char (c : ascii) : ascii :=
  let n := nat_of_ascii c in
  if (((65 <=? n) && (n <=? 90))
      || ((192 <=? n) && (n <=? 222) && negb (n =? 215)))%nat
  then ascii_of_nat (n + 32) else c.

Fixpoint lower (s : string) : string :=
  match s with
  | EmptyString => EmptyString
  | String c r => String (lower_char c) (lower r)
  end.

Fixpoint lstrip (s : string) : string :=
  match s with
  | String c r => if isspace c then lstrip r else s
  | EmptyString => EmptyString
  end.

Fixpoint rstrip (s : string) : string :=
  match s with
  | EmptyString => EmptyString
  | String c r =>
      match rstrip r with
      | EmptyString => if isspace c then EmptyString else String c EmptyString
      | r' => String c r'
      end
  end.

(** [s.strip()] *)
Definition strip (s : string) : string := lstrip (rstrip s).

(** [s.startswith(p)] *)
Fixpoint startswith (s p : string) {struct p} : bool :=
  match p, s with
  | EmptyString, _ => true
  | String a p', String b s' => Ascii.eqb a b && startswith s' p'
  | String _ _, EmptyString => false
  end.

(** [p in s] *)
Fixpoint contains (s p : string) : bool :=
  startswith s p ||
  match s with
  | EmptyString => false
  | String _ r => contains r p
  end.

Definition NL : ascii := ascii_of_nat 10.
Definition newline : string := String NL EmptyString.

(** [s.split("\n")] *)
Fixpoint split_lines (s : string) : list string :=
  match s with
  | EmptyString => [EmptyString]
  | String c r =>
      if Ascii.eqb c NL then EmptyString :: split_lines r
      else match split_lines r with
           | l :: ls => String c l :: ls
           | [] => [String c EmptyString]
           end
  end.

(** [s.split("\n", maxsplit)] *)
Fixpoint split_lines_max (maxsplit : nat) (s : string) : list string :=
  match maxsplit with
  | O => [s]
  | S m =>
      match s with
      | EmptyString => [EmptyString]
      | String c r =>
          if Ascii.eqb c NL then EmptyString :: split_lines_max m r
          else match split_lines_max maxsplit r with
               | l :: ls => String c l :: ls
               | [] => [String c EmptyString]
               end
      end
  end.

(** [s[n:]] *)
Fixpoint drop (n : nat) (s : string) : string :=
  match n, s with
  | S m, String _ r => drop m r
  | _, _ => s
  end.

(** [sep.join(parts)] *)
Fixpoint join (sep : string) (parts : list string) : string :=
  match parts with
  | [] => EmptyString
  | [p] => p
  | p :: ps => p ++ sep ++ join sep ps
  end.

(** Truthiness of a [str]: [if s:] *)
Definition nonempty (s : string) : bool :=
  match s with EmptyString => false | _ => true end.

(** [str(n)] for a non-negative integer. *)
Fixpoint digits (fuel n : nat) (acc : string) : string :=
  match fuel with
  | O => acc
  | S f =>
      let acc' := String (ascii_of_nat (48 + n mod 10)) acc in
      if (n / 10 =? 0)%nat then acc' else digits f (n / 10) acc'
  end.

Definition str_nat (n : nat) : string := digits (S n) n EmptyString.

End Py.

(** ** Messages, sessions and errors *)

Inductive JSON : Type :=
| JNull
| JBool (b : bool)
| JInt (z : Z)
| JFloat (literal : string)
| JStr (s : string)
| JArr (items : list JSON)
| JObj (fields : list (string * JSON)).

(** A [dict] with [str] keys. *)
Definition dict (V : Type) : Type := list (string * V).

Fixpoint dict_get {V} (d : dict V) (k : string) : option V :=
  match d with
  | [] => None
  | (k', v) :: d' => if String.eqb k' k then Some v else dict_get d' k
  end.

(** [k in d] *)
Definition dict_mem {V} (d : dict V) (k : string) : bool :=
  match dict_get d k with Some _ => true | None => false end.

(** [d[k] = v]: a present key keeps its place. *)
Fixpoint dict_set {V} (d : dict V) (k : string) (v : V) : dict V :=
  match d with
  | [] => [(k, v)]
  | (k', v') :: d' =>
      if String.eqb k' k then (k', v) :: d' else (k', v') :: dict_set d' k v
  end.

Record Message : Type := mkMessage {
  role : string;
  content : string;
  metadata : dict JSON
}.

Inductive Format : Type := Fjson | Fjsonl | Fnanobot | Ftext.

(** The tag [detect_format] returns for each format. *)
Definition format_tag (f : Format) : string :=
  match f with
  | Fjson => "json"
  | Fjsonl => "jsonl"
  | Fnanobot => "nanobot"
  | Ftext => "text"
  end.

Record Session : Type := mkSession {
  messages : list Message;
  source : string;
  format_detected : Format
}.

Inductive exn : Type :=
| ParseError (msg : string)
| AttributeError
| TypeError.

Definition result (A : Type) : Type := (exn + A)%type.

Definition raise {A} (e : exn) : result A := inl e.
Definition ret {A} (a : A) : result A := inr a.
Definition bind {A B} (m : result A) (f : A -> result B) : result B :=
  match m with
  | inl e => inl e
  | inr a => f a
  end.

Notation "x <- m ;; k" := (bind m (fun x => k))
  (at level 61, m at next level, right associativity).

(** ** Role normalization *)

Definition _ROLE_MAP : dict string :=
  [ ("user", "user");
    ("human", "user");
    ("customer", "user");
    ("assistant", "assistant");
    ("ai", "assistant");
    ("bot", "assistant");
    ("agent", "assistant");
    ("system", "system");
    ("tool", "tool");
    ("function", "tool") ].

Definition _normalize_role (raw : string) : string :=
  match dict_get _ROLE_MAP (Py.strip (Py.lower raw)) with
  | Some r => r
  | None => Py.strip (Py.lower raw)
  end.

(** ** Python's [json.loads]

    The decoder of the [json] module with its default settings: the JSON
    grammar, the constants [NaN], [Infinity] and [-Infinity] that Python
    accepts besides, strict strings (no raw control character), and
    [dict] semantics for repeated keys.  A float is carried as its literal.
    [None] stands for a raised [JSONDecodeError].

    The decoder stands for Python's on a part of the documents only, the
    part that [in_range] below describes.  A [\u] escape that names a code
    point above U+00FF has no image in the character range of the
    embedding: Python decodes it, and [scanstring] answers [None] for want
    of a character to return.  The limits of the interpreter are not
    modelled either: Python raises [ValueError] on an integer literal of
    more than 4300 digits and [RecursionError] on a nesting that is too
    deep, where the decoder below goes on (its fuel is enough for every
    document, see [loads_fuel]). *)

Module json.

(** The quotation mark, U+0022. *)
Definition DQ : ascii := ascii_of_nat 34.

Definition is_ws (c : ascii) : bool :=
  let n := nat_of_ascii c in
  ((n =? 32) || (n =? 9) || (n =? 10) || (n =? 13))%nat.

Fixpoint skip_ws (s : string) : string :=
  match s with
  | String c r => if is_ws c then skip_ws r else s
  | EmptyString => EmptyString
  end.

Definition is_digit (c : ascii) : bool :=
  let n := nat_of_ascii c in ((48 <=? n) && (n <=? 57))%nat.

(** The longest run of decimal digits at the head of [s], and the rest. *)
Fixpoint take_digits (s : string) : string * string :=
  match s with
  | String c r =>
      if is_digit c
      then let (ds, r') := take_digits r in (String c ds, r')
      else (EmptyString, s)
  | EmptyString => (EmptyString, EmptyString)
  end.

Fixpoint int_of_digits (acc : Z) (ds : string) : Z :=
  match ds with
  | String c r => int_of_digits (10 * acc + Z.of_nat (nat_of_ascii c - 48)) r
  | EmptyString => acc
  end.

(** [int(text)] for the text the integer group matched. *)
Definition parse_int (text : string) : Z :=
  match text with
  | String c ds =>
      if Ascii.eqb c "-" then Z.opp (int_of_digits 0 ds)
      else int_of_digits 0 text
  | EmptyString => 0%Z
  end.

(** An optional sign out of [signs] at the head of [s]. *)
Definition take_sign (signs : list ascii) (s : string) : string * string :=
  match s with
  | String c r =>
      if existsb (Ascii.eqb c) signs then (String c EmptyString, r)
      else (EmptyString, s)
  | EmptyString => (EmptyString, EmptyString)
  end.

(** The three groups of [NUMBER_RE]: the integer (an optional minus, then
    a lone zero or a digit run that does not start with zero), the
    optional fraction (a point and at least one digit) and the optional
    exponent (e or E, an optional sign, at least one digit). *)
Definition match_integer (s : string) : option (string * string) :=
  let (sign, s1) := take_sign ["-"%char] s in
  match s1 with
  | String c r =>
      if Ascii.eqb c "0" then Some (sign ++ "0", r)
      else if is_digit c
           then let (ds, r') := take_digits r in Some (sign ++ String c ds, r')
           else None
  | EmptyString => None
  end.

Definition match_frac (s : string) : option (string * string) :=
  match s with
  | String c r =>
      if Ascii.eqb c "." then
        match take_digits r with
        | (EmptyString, _) => None
        | (ds, r') => Some (String c ds, r')
        end
      else None
  | EmptyString => None
  end.

Definition match_exp (s : string) : option (string * string) :=
  match s with
  | String c r =>
      if Ascii.eqb c "e" || Ascii.eqb c "E" then
        let (sign, r1) := take_sign ["+"%char; "-"%char] r in
        match take_digits r1 with
        | (EmptyString, _) => None
        | (ds, r2) => Some (String c (sign ++ ds), r2)
        end
      else None
  | EmptyString => None
  end.

Definition match_number (s : string) : option (JSON * string) :=
  match match_integer s with
  | None => None
  | Some (i, r) =>
      match match_frac r with
      | None =>
          match match_exp r with
          | None => Some (JInt (parse_int i), r)
          | Some (e, r2) => Some (JFloat (i ++ e), r2)
          end
      | Some (f, r1) =>
          match match_exp r1 with
          | None => Some (JFloat (i ++ f), r1)
          | Some (e, r2) => Some (JFloat (i ++ f ++ e), r2)
          end
      end
  end.

Definition hex_digit (c : ascii) : option nat :=
  let n := nat_of_ascii c in
  if ((48 <=? n) && (n <=? 57))%nat then Some (n - 48)
  else if ((97 <=? n) && (n <=? 102))%nat then Some (n - 87)
  else if ((65 <=? n) && (n <=? 70))%nat then Some (n - 55)
  else None.

Definition hex4 (a b c d : ascii) : option nat :=
  match hex_digit a, hex_digit b, hex_digit c, hex_digit d with
  | Some x, Some y, Some z, Some w => Some (((x * 16 + y) * 16 + z) * 16 + w)
  | _, _, _, _ => None
  end.

(** The simple escapes, [BACKSLASH] in the decoder. *)
Definition backslash (e : ascii) : option ascii :=
  if Ascii.eqb e DQ then Some DQ
  else if Ascii.eqb e "\" then Some "\"%char
  else if Ascii.eqb e "/" then Some "/"%char
  else if Ascii.eqb e "b" then Some (ascii_of_nat 8)
  else if Ascii.eqb e "f" then Some (ascii_of_nat 12)
  else if Ascii.eqb e "n" then Some (ascii_of_nat 10)
  else if Ascii.eqb e "r" then Some (ascii_of_nat 13)
  else if Ascii.eqb e "t" then Some (ascii_of_nat 9)
  else None.

Definition cons_char (c : ascii) (x : option (string * string))
  : option (string * string) :=
  match x with
  | Some (t, r) => Some (String c t, r)
  | None => None
  end.

(** [scanstring], entered after the opening quote: the decoded text and
    what follows the closing quote. *)
Fixpoint scanstring (s : string) : option (string * string) :=
  match s with
  | EmptyString => None
  | String c r =>
      if Ascii.eqb c DQ then Some (EmptyString, r)
      else if Ascii.eqb c "\" then
        match r with
        | String e r1 =>
            if Ascii.eqb e "u" then
              match r1 with
              | String h1 (String h2 (String h3 (String h4 r2))) =>
                  match hex4 h1 h2 h3 h4 with
                  | Some cp =>
                      if (cp <? 256)%nat
                      then cons_char (ascii_of_nat cp) (scanstring r2)
                      else None
                  | None => None
                  end
              | _ => None
              end
            else
              match backslash e with
              | Some ch => cons_char ch (scanstring r1)
              | None => None
              end
        | EmptyString => None
        end
      else if (nat_of_ascii c <? 32)%nat then None
      else cons_char c (scanstring r)
  end.

(** [dict(pairs)] *)
Definition dict_of_pairs (pairs : list (string * JSON)) : dict JSON :=
  fold_left (fun d kv => dict_set d (fst kv) (snd kv)) pairs [].

(** The constants: [null], [true], [false] before the number, [NaN],
    [Infinity] and [-Infinity] after it. *)
Definition match_keyword (s : string) : option (JSON * string) :=
  if Py.startswith s "null" then Some (JNull, Py.drop 4 s)
  else if Py.startswith s "true" then Some (JBool true, Py.drop 4 s)
  else if Py.startswith s "false" then Some (JBool false, Py.drop 5 s)
  else None.

Definition match_constant (s : string) : option (JSON * string) :=
  if Py.startswith s "NaN" then Some (JFloat "NaN", Py.drop 3 s)
  else if Py.startswith s "Infinity" then Some (JFloat "Infinity", Py.drop 8 s)
  else if Py.startswith s "-Infinity" then Some (JFloat "-Infinity", Py.drop 9 s)
  else None.

Definition scan_atom (s : string) : option (JSON * string) :=
  match match_keyword s with
  | Some x => Some x
  | None =>
      match match_number s with
      | Some x => Some x
      | None => match_constant s
      end
  end.

(** [scan_once]: one value at the head of [s].  [array_items] runs after
    the opening bracket of a non-empty array, [object_pairs] after the
    opening quote of a key. *)
Fixpoint scan_once (fuel : nat) (s : string) {struct fuel}
  : option (JSON * string) :=
  match fuel with
  | O => None
  | S f =>
      match s with
      | EmptyString => None
      | String c r =>
          if Ascii.eqb c DQ then
            match scanstring r with
            | Some (t, r') => Some (JStr t, r')
            | None => None
            end
          else if Ascii.eqb c "{" then
            match skip_ws r with
            | String d r' =>
                if Ascii.eqb d "}" then Some (JObj [], r')
                else if Ascii.eqb d DQ then
                  match object_pairs f r' with
                  | Some (ps, r'') => Some (JObj (dict_of_pairs ps), r'')
                  | None => None
                  end
                else None
            | EmptyString => None
            end
          else if Ascii.eqb c "[" then
            if Py.startswith (skip_ws r) "]"
            then Some (JArr [], Py.drop 1 (skip_ws r))
            else
              match array_items f (skip_ws r) with
              | Some (vs, r'') => Some (JArr vs, r'')
              | None => None
              end
          else scan_atom s
      end
  end
with array_items (fuel : nat) (s : string) {struct fuel}
  : option (list JSON * string) :=
  match fuel with
  | O => None
  | S f =>
      match scan_once f s with
      | None => None
      | Some (v, r) =>
          match skip_ws r with
          | String d r' =>
              if Ascii.eqb d "]" then Some ([v], r')
              else if Ascii.eqb d "," then
                match array_items f (skip_ws r') with
                | Some (vs, r'') => Some (v :: vs, r'')
                | None => None
                end
              else None
          | EmptyString => None
          end
      end
  end
with object_pairs (fuel : nat) (s : string) {struct fuel}
  : option (list (string * JSON) * string) :=
  match fuel with
  | O => None
  | S f =>
      match scanstring s with
      | None => None
      | Some (key, r) =>
          match skip_ws r with
          | String d r1 =>
              if Ascii.eqb d ":" then
                match scan_once f (skip_ws r1) with
                | None => None
                | Some (v, r2) =>
                    match skip_ws r2 with
                    | String e r3 =>
                        if Ascii.eqb e "}" then Some ([(key, v)], r3)
                        else if Ascii.eqb e "," then
                          match skip_ws r3 with
                          | String q r4 =>
                              if Ascii.eqb q DQ then
                                match object_pairs f r4 with
                                | Some (ps, r5) => Some ((key, v) :: ps, r5)
                                | None => None
                                end
                              else None
                          | EmptyString => None
                          end
                        else None
                    | EmptyString => None
                    end
                end
              else None
          | EmptyString => None
          end
      end
  end.

(** [json.loads(s)]: one value between optional whitespace, and nothing
    else. *)
Definition loads (s : string) : option JSON :=
  match scan_once (2 * String.length s + 2) (skip_ws s) with
  | Some (v, r) =>
      match skip_ws r with
      | EmptyString => Some v
      | _ => None
      end
  | None => None
  end.

End json.

(** Sample documents are written with apostrophes where the document has
    quotation marks, and [\n] where it has a line feed; [doc] puts the
    characters in. *)
Fixpoint doc (s : string) : string :=
  match s with
  | String c r =>
      if Ascii.eqb c "'" then String json.DQ (doc r)
      else if Ascii.eqb c "\" then
        match r with
        | String d r' =>
            if Ascii.eqb d "n" then String Py.NL (doc r')
            else String c (doc r)
        | EmptyString => String c EmptyString
        end
      else String c (doc r)
  | EmptyString => EmptyString
  end.

(** ** Python's [re]

    A backtracking matcher for the operators the parser's patterns use, with
    the priorities of Python's engine: alternatives left to right, optional
    parts and repetitions greedy.  A position in the subject is the
    character before it (none at the start) and the text from it on.  The
    patterns have at most one capturing group. *)

Module re.

Inductive regex : Type :=
| Eps
| Chr (p : ascii -> bool)    (* one character of a class *)
| Seq (a b : regex)
| Alt (a b : regex)
| Opt (a : regex)            (* a? *)
| Star (p : ascii -> bool)   (* c* for a one-character class c *)
| Bol                        (* ^ under MULTILINE *)
| Eol                        (* $ under MULTILINE *)
| EolEnd                     (* $ without MULTILINE *)
| Group (a : regex).         (* ( a ) *)

(** A literal character, and one under IGNORECASE. *)
Definition lit (c : ascii) : regex := Chr (Ascii.eqb c).
Definition liti (c : ascii) : regex :=
  Chr (fun x => Ascii.eqb (Py.lower_char x) (Py.lower_char c)).

Fixpoint str (s : string) : regex :=
  match s with
  | EmptyString => Eps
  | String c r => Seq (lit c) (str r)
  end.

Fixpoint stri (s : string) : regex :=
  match s with
  | EmptyString => Eps
  | String c r => Seq (liti c) (stri r)
  end.

Fixpoint seq (l : list regex) : regex :=
  match l with
  | [] => Eps
  | [a] => a
  | a :: l' => Seq a (seq l')
  end.

Fixpoint alt (a : regex) (l : list regex) : regex :=
  match l with
  | [] => a
  | b :: l' => Alt a (alt b l')
  end.

(** The classes [\s] and [.]. *)
Definition space : ascii -> bool := Py.isspace.
Definition dot (c : ascii) : bool := negb (Ascii.eqb c Py.NL).

Definition at_bol (prev : option ascii) : bool :=
  match prev with
  | None => true
  | Some c => Ascii.eqb c Py.NL
  end.

Definition at_eol (s : string) : bool :=
  match s with
  | EmptyString => true
  | String c _ => Ascii.eqb c Py.NL
  end.

Definition at_eol_end (s : string) : bool :=
  match s with
  | EmptyString => true
  | String c EmptyString => Ascii.eqb c Py.NL
  | _ => false
  end.

(** The first [n] characters of [s]. *)
Fixpoint take (n : nat) (s : string) : string :=
  match n, s with
  | S m, String c r => String c (take m r)
  | _, _ => EmptyString
  end.

(** The text between a position and a later one of the same subject. *)
Definition consumed (s s' : string) : string :=
  take (String.length s - String.length s') s.

Section Matcher.
Variable R : Type.

(** A continuation receives the position reached and the group. *)
Definition cont : Type := option ascii -> string -> option string -> option R.

Fixpoint star (p : ascii -> bool) (prev : option ascii) (s : string)
         (k : option ascii -> string -> option R) : option R :=
  match s with
  | String c r =>
      if p c then
        match star p (Some c) r k with
        | Some x => Some x
        | None => k prev s
        end
      else k prev s
  | EmptyString => k prev s
  end.

Fixpoint run (r : regex) (prev : option ascii) (s : string)
         (g : option string) (k : cont) : option R :=
  match r with
  | Eps => k prev s g
  | Chr p =>
      match s with
      | String c s' => if p c then k (Some c) s' g else None
      | EmptyString => None
      end
  | Seq a b => run a prev s g (fun prev' s' g' => run b prev' s' g' k)
  | Alt a b =>
      match run a prev s g k with
      | Some x => Some x
      | None => run b prev s g k
      end
  | Opt a =>
      match run a prev s g k with
      | Some x => Some x
      | None => k prev s g
      end
  | Star p => star p prev s (fun prev' s' => k prev' s' g)
  | Bol => if at_bol prev then k prev s g else None
  | Eol => if at_eol s then k prev s g else None
  | EolEnd => if at_eol_end s then k prev s g else None
  | Group a =>
      run a prev s g (fun prev' s' _ => k prev' s' (Some (consumed s s')))
  end.
End Matcher.

(** A match: the matched text, the group, and the position after it. *)
Record Match : Type := mkMatch {
  text : string;
  group : option string;
  prev_after : option ascii;
  rest_after : string
}.

(** The pattern at one position.  With [must_advance] an empty match is
    refused, as the engine does right after an empty match. *)
Definition match_at (r : regex) (prev : option ascii) (s : string)
           (must_advance : bool) : option Match :=
  run r prev s None
    (fun prev' s' g =>
       if must_advance && (String.length s' =? String.length s)%nat
       then None
       else Some (mkMatch (consumed s s') g prev' s')).

(** The leftmost match from a position on, with the text skipped to
    reach it. *)
Fixpoint search_from (r : regex) (prev : option ascii) (s : string)
         (must_advance : bool) : option (string * Match) :=
  match match_at r prev s must_advance with
  | Some m => Some (EmptyString, m)
  | None =>
      match s with
      | String c s' =>
          match search_from r (Some c) s' false with
          | Some (skipped, m) => Some (String c skipped, m)
          | None => None
          end
      | EmptyString => None
      end
  end.

(** The successive matches, each with the text between it and the one
    before, and the text after the last. *)
Fixpoint scan (fuel : nat) (r : regex) (prev : option ascii) (s : string)
         (must_advance : bool) : list (string * Match) * string :=
  match fuel with
  | O => ([], s)
  | S f =>
      match search_from r prev s must_advance with
      | None => ([], s)
      | Some (skipped, m) =>
          let (ms, tail) :=
            scan f r (prev_after m) (rest_after m)
                 (negb (Py.nonempty (text m))) in
          ((skipped, m) :: ms, tail)
      end
  end.

Definition matches (r : regex) (s : string) : list (string * Match) * string :=
  scan (2 * String.length s + 2) r None s false.

(** [re.search(r, s)] as a truth value. *)
Definition search (r : regex) (s : string) : bool :=
  match search_from r None s false with
  | Some _ => true
  | None => false
  end.

(** [m.end()] for the matches of [re.finditer(r, s)]. *)
Fixpoint ends_from (offset : nat) (ms : list (string * Match)) : list nat :=
  match ms with
  | [] => []
  | (skipped, m) :: ms' =>
      let e := offset + String.length skipped + String.length (text m) in
      e :: ends_from e ms'
  end.

Definition finditer_ends (r : regex) (s : string) : list nat :=
  ends_from 0 (fst (matches r s)).

Definition group1 (m : Match) : string :=
  match group m with
  | Some g => g
  | None => EmptyString
  end.

(** [r.split(s)] for a pattern with one group. *)
Definition split (r : regex) (s : string) : list string :=
  let (ms, tail) := matches r s in
  flat_map (fun sm => [fst sm; group1 (snd sm)]) ms ++ [tail].

(** [re.sub(r, "", s)] *)
Definition sub_empty (r : regex) (s : string) : string :=
  let (ms, tail) := matches r s in
  String.concat EmptyString (map fst ms) ++ tail.

End re.

(** ** Built-ins whose text is Python's own

    [py_str v] is [str(v)] for a decoded value that is not a string;
    [exc_str d] is [str(exc)] for the [JSONDecodeError] that [json.loads]
    raises on the document [d].  The parser only splices these texts into
    its messages. *)

Class Builtins : Type := {
  py_str : JSON -> string;
  exc_str : string -> string
}.

(** ** Format detection *)

Definition metadata_keys : re.regex :=
  re.Group (re.alt (re.str "session_id")
                   [re.str "agent"; re.str "model"; re.str "timestamp"]).

(** [^(session_id|agent|model|timestamp)\s*[:=]] under MULTILINE. *)
Definition metadata_line : re.regex :=
  re.seq [re.Bol; metadata_keys; re.Star re.space;
          re.Chr (fun c => Ascii.eqb c ":" || Ascii.eqb c "=")].

Definition _is_nanobot_format (content : string) : bool :=
  let markers := ["## Human"; "## Assistant"; "---"] in
  let score := List.length (filter (Py.contains content) markers) in
  let score := if re.search metadata_line content then score + 2 else score in
  (3 <=? score)%nat.

(** The structured-array test of [detect_format]. *)
Definition is_json_array (stripped : string) : bool :=
  Py.startswith stripped "[" &&
  match json.loads stripped with
  | Some (JArr (JObj first :: _)) =>
      dict_mem first "role" || dict_mem first "content"
  | _ => false
  end.

(** The loop over [lines[:5]]: the count at the end or at the [break]. *)
Fixpoint count_jsonl (lines : list string) (jsonl_count : nat) : nat :=
  match lines with
  | [] => jsonl_count
  | line :: lines' =>
      let line := Py.strip line in
      if negb (Py.nonempty line) then count_jsonl lines' jsonl_count
      else
        match json.loads line with
        | Some (JObj _) => count_jsonl lines' (jsonl_count + 1)
        | Some _ => count_jsonl lines' jsonl_count
        | None => jsonl_count
        end
  end.

Definition detect_format (content : string) : Format :=
  let stripped := Py.strip content in
  if is_json_array stripped then Fjson
  else
    let lines := Py.split_lines_max 5 stripped in
    let jsonl_count := count_jsonl (firstn 5 lines) 0 in
    if (2 <=? jsonl_count)%nat then Fjsonl
    else if _is_nanobot_format stripped then Fnanobot
    else Ftext.

(** ** Parsers *)

(** [_normalize_role(item.get("role", "unknown"))]: a role that is not a
    string has no [lower]. *)
Definition get_role (item : dict JSON) : result string :=
  match dict_get item "role" with
  | None => ret (_normalize_role "unknown")
  | Some (JStr raw) => ret (_normalize_role raw)
  | Some _ => raise AttributeError
  end.

(** [{k: v for k, v in item.items() if k not in ("role", "content")}] *)
Definition get_metadata (item : dict JSON) : dict JSON :=
  filter (fun kv => negb (String.eqb (fst kv) "role" || String.eqb (fst kv) "content"))
         item.

(** The parts of a multi-part content that are kept, in order. *)
Fixpoint text_parts (parts : list JSON) : list JSON :=
  match parts with
  | [] => []
  | JObj part :: parts' =>
      match dict_get part "type" with
      | Some (JStr "text") =>
          match dict_get part "text" with
          | Some t => t :: text_parts parts'
          | None => JStr EmptyString :: text_parts parts'
          end
      | _ => text_parts parts'
      end
  | JStr part :: parts' => JStr part :: text_parts parts'
  | _ :: parts' => text_parts parts'
  end.

(** [sep.join(items)]: every item has to be a string. *)
Fixpoint str_items (items : list JSON) : result (list string) :=
  match items with
  | [] => ret []
  | JStr t :: items' => ts <- str_items items' ;; ret (t :: ts)
  | _ :: _ => raise TypeError
  end.

Section Parsers.
Context {builtins : Builtins}.

(** The content of an item of a structured array. *)
Definition get_content_json (item : dict JSON) : result string :=
  match dict_get item "content" with
  | None => ret EmptyString
  | Some (JArr parts) =>
      ts <- str_items (text_parts parts) ;; ret (Py.join Py.newline ts)
  | Some (JStr t) => ret t
  | Some v => ret (py_str v)
  end.

Fixpoint parse_json_items (i : nat) (data : list JSON)
         (messages : list Message) : result (list Message) :=
  match data with
  | [] => ret messages
  | JObj item :: data' =>
      role <- get_role item ;;
      content_str <- get_content_json item ;;
      parse_json_items (S i) data'
        (messages ++ [mkMessage role content_str (get_metadata item)])
  | _ :: _ =>
      raise (ParseError ("Item " ++ Py.str_nat i ++ " is not a JSON object"))
  end.

Definition parse_json (content : string) : result (list Message) :=
  match json.loads (Py.strip content) with
  | None => raise (ParseError ("Invalid JSON: " ++ exc_str (Py.strip content)))
  | Some (JArr data) => parse_json_items 0 data []
  | Some _ => raise (ParseError "JSON content is not an array")
  end.

(** The content of a line of a line-delimited log. *)
Definition get_content_jsonl (obj : dict JSON) : string :=
  match dict_get obj "content" with
  | None => EmptyString
  | Some (JStr t) => t
  | Some v => py_str v
  end.

Fixpoint parse_jsonl_lines (lineno : nat) (lines : list string)
         (messages : list Message) : result (list Message) :=
  match lines with
  | [] => ret messages
  | line :: lines' =>
      let line := Py.strip line in
      if negb (Py.nonempty line) then parse_jsonl_lines (S lineno) lines' messages
      else
        match json.loads line with
        | None =>
            raise (ParseError ("Invalid JSON on line " ++ Py.str_nat lineno
                               ++ ": " ++ exc_str line))
        | Some (JObj obj) =>
            role <- get_role obj ;;
            parse_jsonl_lines (S lineno) lines'
              (messages ++ [mkMessage role (get_content_jsonl obj)
                                      (get_metadata obj)])
        | Some _ => parse_jsonl_lines (S lineno) lines' messages
        end
  end.

Definition parse_jsonl (content : string) : result (list Message) :=
  parse_jsonl_lines 1 (Py.split_lines (Py.strip content)) [].

End Parsers.

Definition role_labels : re.regex :=
  re.Group (re.alt (re.stri "User")
                   [re.stri "Human"; re.stri "Customer"; re.stri "Assistant";
                    re.stri "AI"; re.stri "Bot"; re.stri "Agent";
                    re.stri "System"; re.stri "Tool"]).

(** The role marker of [parse_text], under IGNORECASE and MULTILINE: line
    start, an optional [**] or [##] with whitespace, a label, an optional
    [**], a run of colons and whitespace, an optional line feed. *)
Definition role_pattern : re.regex :=
  re.seq [re.Bol;
          re.Opt (re.Alt (re.str "**") (re.Seq (re.str "##") (re.Star re.space)));
          role_labels;
          re.Opt (re.str "**");
          re.Star (fun c => Ascii.eqb c ":" || re.space c);
          re.Opt (re.lit Py.NL)].

(** The walk over the (role, body) pairs that follow the preamble. *)
Fixpoint text_messages (parts : list string) (messages : list Message)
  : list Message :=
  match parts with
  | raw_role :: body :: parts' =>
      let raw_role := Py.strip raw_role in
      let body := Py.strip body in
      let role := _normalize_role raw_role in
      text_messages parts'
        (if Py.nonempty body then messages ++ [mkMessage role body []]
         else messages)
  | _ => messages
  end.

Definition parse_text (content : string) : list Message :=
  let parts := re.split role_pattern content in
  if (List.length parts <? 3)%nat then
    let cleaned := Py.strip content in
    if Py.nonempty cleaned then [mkMessage "unknown" cleaned []] else []
  else text_messages (tl parts) [].

(** [^(session_id|agent|model|timestamp)\s*[:=].*$] under MULTILINE. *)
Definition header_line : re.regex :=
  re.seq [metadata_line; re.Star re.dot; re.Eol].

(** [^##\s*(Human|Assistant|User|AI|System|Tool)\s*$] under IGNORECASE and
    MULTILINE. *)
Definition section_pattern : re.regex :=
  re.seq [re.Bol; re.str "##"; re.Star re.space;
          re.Group (re.alt (re.stri "Human")
                           [re.stri "Assistant"; re.stri "User"; re.stri "AI";
                            re.stri "System"; re.stri "Tool"]);
          re.Star re.space; re.Eol].

(** [\n---\s*$] *)
Definition separator_tail : re.regex :=
  re.seq [re.lit Py.NL; re.str "---"; re.Star re.space; re.EolEnd].

Fixpoint nanobot_messages (parts : list string) (messages : list Message)
  : list Message :=
  match parts with
  | raw_role :: msg_content :: parts' =>
      let raw_role := Py.strip raw_role in
      let msg_content := Py.strip msg_content in
      let msg_content := Py.strip (re.sub_empty separator_tail msg_content) in
      let role := _normalize_role raw_role in
      nanobot_messages parts'
        (if Py.nonempty msg_content
         then messages ++ [mkMessage role msg_content []]
         else messages)
  | _ => messages
  end.

(** The text [parse_nanobot] splits: the content after its metadata header. *)
Definition nanobot_body (content : string) : string :=
  let header_end := fold_left Nat.max (re.finditer_ends header_line content) 0 in
  Py.strip (Py.drop header_end content).

Definition parse_nanobot (content : string) : list Message :=
  let body := nanobot_body content in
  let parts := re.split section_pattern body in
  let messages := nanobot_messages (tl parts) [] in
  match messages with
  | [] => parse_text content
  | _ => messages
  end.

(** ** Public API *)

Section Assembly.
Context {builtins : Builtins}.

Definition parser_map (fmt : Format) : string -> result (list Message) :=
  match fmt with
  | Fjson => parse_json
  | Fjsonl => parse_jsonl
  | Fnanobot => fun content => ret (parse_nanobot content)
  | Ftext => fun content => ret (parse_text content)
  end.

Definition parse_session (content : string) (source : string) : result Session :=
  if negb (Py.nonempty content) || negb (Py.nonempty (Py.strip content))
  then raise (ParseError "Empty session log")
  else
    let fmt := detect_format content in
    messages <- parser_map fmt content ;;
    match messages with
    | [] =>
        raise (ParseError ("No messages found in session log (detected format: "
                           ++ format_tag fmt ++ ")"))
    | _ => ret (mkSession messages source fmt)
    end.

End Assembly.

(** ** Views of a session

    The properties and methods of [Session] and [Message.__str__].
    [str.upper] leaves the character range of the embedding at three code
    points (U+00B5, U+00DF, U+00FF), so the texts that call it take it as a
    parameter. *)

(** [len(self.messages)] *)
Definition message_count (s : Session) : nat := List.length (messages s).

(** [[m for m in self.messages if m.role == "user"]] *)
Definition user_messages (s : Session) : list Message :=
  filter (fun m => String.eqb (role m) "user") (messages s).

Definition assistant_messages (s : Session) : list Message :=
  filter (fun m => String.eqb (role m) "assistant") (messages s).

(** [sum(len(m.content) for m in self.messages)] *)
Definition total_chars (s : Session) : nat :=
  list_sum (map (fun m => String.length (content m)) (messages s)).

(** [Session.stats]: a [dict] with five keys. *)
Definition stats (s : Session) : dict nat :=
  [ ("total_messages", message_count s);
    ("user_messages", List.length (user_messages s));
    ("assistant_messages", List.length (assistant_messages s));
    ("total_chars", total_chars s);
    ("estimated_tokens", total_chars s / 4) ].

Section Text.

(** [str.upper] *)
Variable upper : string -> string.

(** [Message.__str__] *)
Definition __str__ (m : Message) : string :=
  "[" ++ upper (role m) ++ "]" ++ Py.newline ++ content m.

(** [Session.to_text] *)
Definition to_text (s : Session) : string :=
  Py.join (Py.newline ++ Py.newline) (map __str__ (messages s)).

End Text.

(** * Vocabulary of the properties

    The notions the statements below use, the sample logs they are run on,
    and the claims that fail as worded, each worded as a proposition. *)

(** ** Roles, content, lines *)

Definition canonical_roles : list string := ["user"; "assistant"; "system"; "tool"].

(** The key [_normalize_role] looks up: the label lower-cased and trimmed. *)
Definition role_key (raw : string) : string := Py.strip (Py.lower raw).

Definition no_messages_error (fmt : Format) : string :=
  "No messages found in session log (detected format: " ++ format_tag fmt ++ ")".

Definition has_content (m : Message) : Prop := Py.nonempty (content m) = true.

(** The messages [parse_nanobot] builds from its own sections. *)
Definition nanobot_sections (input : string) : list Message :=
  nanobot_messages (tl (re.split section_pattern (nanobot_body input))) [].


Definition is_blank (line : string) : bool :=
  negb (Py.nonempty (Py.strip line)).

Definition decodes (line : string) : bool :=
  match json.loads (Py.strip line) with
  | Some _ => true
  | None => false
  end.

Definition is_mapping (line : string) : bool :=
  match json.loads (Py.strip line) with
  | Some (JObj _) => true
  | _ => false
  end.

(** The lines read before the test stops: those before the first line that
    is not blank and does not decode. *)
Fixpoint read_lines (lines : list string) : list string :=
  match lines with
  | [] => []
  | l :: ls => if is_blank l || decodes l then l :: read_lines ls else []
  end.

(** The line feeds among the leading whitespace of [s]: the number of lines
    that [strip] removes at the head. *)
Fixpoint leading_newlines (s : string) : nat :=
  match s with
  | String c r =>
      if Py.isspace c
      then (if Ascii.eqb c Py.NL then 1 else 0) + leading_newlines r
      else 0
  | EmptyString => 0
  end.


Section Vocabulary.
Context {builtins : Builtins}.

Definition invalid_line_error (lineno : nat) (line : string) : string :=
  "Invalid JSON on line " ++ Py.str_nat lineno ++ ": " ++ exc_str line.

(** A line the loop of [parse_jsonl] passes without raising: blank, or
    decoded to something that is no mapping, or to a mapping whose role can
    be normalized. *)
Definition line_passes (line : string) : Prop :=
  Py.strip line = EmptyString \/
  (exists v, json.loads (Py.strip line) = Some v /\
             forall obj, v = JObj obj -> exists r, get_role obj = inr r).

(** The messages of the lines: one for each line that decodes to a mapping. *)
Fixpoint line_messages (lines : list string) : list (result Message) :=
  match lines with
  | [] => []
  | line :: lines' =>
      match json.loads (Py.strip line) with
      | Some (JObj obj) =>
          (role <- get_role obj ;;
           ret (mkMessage role (get_content_jsonl obj) (get_metadata obj)))
            :: line_messages lines'
      | _ => line_messages lines'
      end
  end.

(** The message of one element of a structured array. *)
Definition json_message (item : dict JSON) : result Message :=
  role <- get_role item ;;
  content_str <- get_content_json item ;;
  ret (mkMessage role content_str (get_metadata item)).

Definition message_of (item : JSON) (m : Message) : Prop :=
  exists d, item = JObj d /\ json_message d = inr m.

End Vocabulary.

(** ** A declarative reading of the patterns *)

(** The character before the position reached by reading [t]. *)
Fixpoint last_of (prev : option ascii) (t : string) : option ascii :=
  match t with
  | EmptyString => prev
  | String c r => last_of (Some c) r
  end.

Fixpoint all_chars (p : ascii -> bool) (t : string) : bool :=
  match t with
  | EmptyString => true
  | String c r => p c && all_chars p r
  end.

(** [sem r prev t after g g']: the pattern [r] accepts the text [t] at a
    position that follows the character [prev] and precedes the text
    [after], and turns the group [g] into [g']. *)
Fixpoint sem (r : re.regex) (prev : option ascii) (t after : string)
         (g g' : option string) : Prop :=
  match r with
  | re.Eps => t = EmptyString /\ g' = g
  | re.Chr p => exists c, t = String c EmptyString /\ p c = true /\ g' = g
  | re.Seq a b =>
      exists t1 t2 g1,
        t = t1 ++ t2 /\ sem a prev t1 (t2 ++ after) g g1 /\
        sem b (last_of prev t1) t2 after g1 g'
  | re.Alt a b => sem a prev t after g g' \/ sem b prev t after g g'
  | re.Opt a => sem a prev t after g g' \/ (t = EmptyString /\ g' = g)
  | re.Star p => all_chars p t = true /\ g' = g
  | re.Bol => t = EmptyString /\ g' = g /\ re.at_bol prev = true
  | re.Eol => t = EmptyString /\ g' = g /\ re.at_eol after = true
  | re.EolEnd => t = EmptyString /\ g' = g /\ re.at_eol_end after = true
  | re.Group a => (exists g1, sem a prev t after g g1) /\ g' = Some t
  end.

(** The subject put together again from its matches and the text between. *)
Fixpoint rebuild (ms : list (string * re.Match)) (tail : string) : string :=
  match ms with
  | [] => tail
  | (skipped, m) :: ms' => skipped ++ re.text m ++ rebuild ms' tail
  end.

(** Each match is a text the pattern accepts where it stands. *)
Fixpoint located (r : re.regex) (prev : option ascii)
         (ms : list (string * re.Match)) (tail : string) : Prop :=
  match ms with
  | [] => True
  | (skipped, m) :: ms' =>
      sem r (last_of prev skipped) (re.text m) (rebuild ms' tail) None (re.group m) /\
      located r (last_of (last_of prev skipped) (re.text m)) ms' tail
  end.

(** What a search leaves to scan is shorter, or as long after an empty
    match that the next search may not repeat. *)
Definition scan_measure (s : string) (adv : bool) : nat :=
  2 * String.length s + (if adv then 1 else 2).

(** The labels of [role_pattern], and the shape of a role marker: a
    decoration, a label, a closing, a separator. *)
Definition label_names : list string :=
  ["user"; "human"; "customer"; "assistant"; "ai"; "bot"; "agent"; "system"; "tool"].

Definition is_label (label : string) : Prop := In (Py.lower label) label_names.

Definition is_decoration (d : string) : Prop :=
  d = EmptyString \/ d = "**" \/
  exists ws, d = "##" ++ ws /\ all_chars Py.isspace ws = true.

Definition is_closing (c : string) : Prop := c = EmptyString \/ c = "**".

(** A run, possibly empty, of colons and whitespace, and possibly one more
    line feed. *)
Definition is_separator (sep : string) : Prop :=
  exists run nl,
    sep = run ++ nl /\
    all_chars (fun c => Ascii.eqb c ":" || Py.isspace c) run = true /\
    (nl = EmptyString \/ nl = Py.newline).

Definition role_marker (text label : string) : Prop :=
  exists d c sep,
    text = d ++ label ++ c ++ sep /\
    is_decoration d /\ is_label label /\ is_closing c /\ is_separator sep.

Definition label_spellings : list string :=
  ["Human"; "Customer"; "Assistant"; "AI"; "Bot"; "Agent"; "System"; "Tool"].

(** ** The text of a decoded value *)

(** A text whose last character is no whitespace, and one whose first
    character is none. *)
Definition ends_solid (t : string) : Prop :=
  exists body c, t = body ++ String c EmptyString /\ Py.isspace c = false.

Definition head_solid (t : string) : Prop :=
  exists c t', t = String c t' /\ Py.isspace c = false.

(** What may follow a number without being read as part of it. *)
Definition delim_char (c : ascii) : bool :=
  negb (json.is_digit c || Ascii.eqb c "." || Ascii.eqb c "e" || Ascii.eqb c "E").

Definition delim (r : string) : bool :=
  match r with
  | EmptyString => true
  | String c _ => delim_char c
  end.

Definition nodigit (r : string) : bool :=
  match r with
  | EmptyString => true
  | String c _ => negb (json.is_digit c)
  end.

(** The text of a number starts with a minus or a digit. *)
Definition head_num (i : string) : Prop :=
  exists c i', i = String c i' /\ (Ascii.eqb c "-" || json.is_digit c) = true.

(** With the fuel [f], a value, the items of an array and the pairs of an
    object are read from their own text: the same text before any other
    continuation reads the same, with any fuel of twice its length. *)
Definition value_local (f : nat) : Prop :=
  forall s v r,
    json.scan_once f s = Some (v, r) ->
    exists t,
      s = t ++ r /\ ends_solid t /\ head_solid t /\
      forall r2 f2,
        delim r2 = true -> 2 * String.length t <= f2 ->
        json.scan_once f2 (t ++ r2) = Some (v, r2).

Definition items_local (f : nat) : Prop :=
  forall s vs r,
    json.array_items f s = Some (vs, r) ->
    exists t,
      s = t ++ r /\ ends_solid t /\ head_solid t /\
      forall r2 f2,
        2 * String.length t <= f2 ->
        json.array_items f2 (t ++ r2) = Some (vs, r2).

Definition pairs_local (f : nat) : Prop :=
  forall s ps r,
    json.object_pairs f s = Some (ps, r) ->
    exists t,
      s = t ++ r /\ ends_solid t /\
      forall r2 f2,
        2 * String.length t <= f2 ->
        json.object_pairs f2 (t ++ r2) = Some (ps, r2).

(** ** Failures of the structured parsers *)



(** A part of a multi-part content that the loop of [parse_json] keeps: a
    string, or a mapping of type text. *)
Definition is_text_part (part : JSON) : Prop :=
  (exists s, part = JStr s) \/
  (exists p, part = JObj p /\ dict_get p "type" = Some (JStr "text")).


(** The keys a message's metadata leaves out. *)
Definition is_message_key (k : string) : bool :=
  String.eqb k "role" || String.eqb k "content".

(** ** The walk of the narrative parsers *)

(** The (role, body) pairs that the loop over [parts] visits. *)
Fixpoint role_bodies (parts : list string) : list (string * string) :=
  match parts with
  | raw_role :: body :: parts' => (raw_role, body) :: role_bodies parts'
  | _ => []
  end.

(** The same pairs, read off the matches: each label with the text that
    follows its marker, up to the next marker or the end. *)
Fixpoint marker_bodies (label : string) (ms : list (string * re.Match))
         (tail : string) : list (string * string) :=
  match ms with
  | [] => [(label, tail)]
  | (skipped, m) :: ms' => (label, skipped) :: marker_bodies (re.group1 m) ms' tail
  end.

(** What one pass of the loop of [parse_text] appends. *)
Definition text_message (rb : string * string) : list Message :=
  let body := Py.strip (snd rb) in
  if Py.nonempty body
  then [mkMessage (_normalize_role (Py.strip (fst rb))) body []]
  else [].

(** What one pass of the loop of [parse_nanobot] appends. *)
Definition nanobot_message (rb : string * string) : list Message :=
  let msg_content :=
    Py.strip (re.sub_empty separator_tail (Py.strip (snd rb))) in
  if Py.nonempty msg_content
  then [mkMessage (_normalize_role (Py.strip (fst rb))) msg_content []]
  else [].

(** [t] stands in [s] as it is: a contiguous part of it. *)
Definition part_of (t s : string) : Prop := exists a b, s = a ++ t ++ b.

(** The texts [parts] stand in [s] one after the other, in this order. *)
Fixpoint in_order (parts : list string) (s : string) : Prop :=
  match parts with
  | [] => True
  | p :: ps => exists a b, s = a ++ p ++ b /\ in_order ps b
  end.

(** ** Lines that begin with a marker *)

(** A position at the start of a line: nothing before it, or a line feed. *)
Definition line_start (before : string) : Prop :=
  before = EmptyString \/ exists b, before = b ++ Py.newline.

(** Some line of the content begins with a label, decorated or not. *)
Definition has_marker (input : string) : Prop :=
  exists before d label after,
    input = before ++ d ++ label ++ after /\
    line_start before /\ is_decoration d /\ is_label label.

Definition metadata_names : list string :=
  ["session_id"; "agent"; "model"; "timestamp"].

(** Some line of the content begins with a metadata key, whitespace or
    none, and a colon or an equals sign. *)
Definition has_metadata_line (content : string) : Prop :=
  exists before key ws sep after,
    content = before ++ key ++ ws ++ String sep after /\
    line_start before /\ In key metadata_names /\
    all_chars Py.isspace ws = true /\ (sep = ":"%char \/ sep = "="%char).

(** The labels of [section_pattern] after the first, as the pattern spells
    them. *)
Definition section_spellings : list string :=
  ["Assistant"; "User"; "AI"; "System"; "Tool"].

(** The labels of a section heading, lower-cased. *)
Definition section_names : list string :=
  ["human"; "assistant"; "user"; "ai"; "system"; "tool"].

Definition is_section_label (label : string) : Prop :=
  In (Py.lower label) section_names.

(** A position at the end of a line: nothing after it, or a line feed. *)
Definition line_end (after : string) : Prop :=
  after = EmptyString \/ exists r, after = Py.newline ++ r.

(** Some line of [body] begins with [##] and holds, after it, nothing but a
    section label between whitespace. *)
Definition has_section (body : string) : Prop :=
  exists before ws label ws' after,
    body = before ++ "##" ++ ws ++ label ++ ws' ++ after /\
    line_start before /\ all_chars Py.isspace ws = true /\
    is_section_label label /\ all_chars Py.isspace ws' = true /\
    line_end after.

(** The closing separator of a section: a line feed and three hyphens. *)
Definition separator : string := Py.newline ++ "---".

(** ** Transcripts

    A transcript as the docstring of [parse_text] writes it: for each turn
    a label, a colon, a space, the body and a line feed. *)

Definition turn_text (t : string * string) : string :=
  fst t ++ ": " ++ snd t ++ Py.newline.

Fixpoint transcript (turns : list (string * string)) : string :=
  match turns with
  | [] => EmptyString
  | t :: ts => turn_text t ++ transcript ts
  end.

(** A text that begins with a marker: a label, decorated or not. *)
Definition marker_head (x : string) : Prop :=
  exists d label r, x = d ++ label ++ r /\ is_decoration d /\ is_label label.

(** No line of [body] after the first begins a marker, whatever follows
    the body. *)
Definition quiet (body : string) : Prop :=
  forall before after rest,
    body = before ++ Py.newline ++ after ->
    ~ marker_head (after ++ Py.newline ++ rest).

(** A body that a turn can carry: not empty, trimmed, not starting with a
    colon, and quiet. *)
Definition plain_body (body : string) : Prop :=
  body <> EmptyString /\ Py.strip body = body /\
  Py.startswith body ":" = false /\ quiet body.

Definition plain_turn (t : string * string) : Prop :=
  is_label (fst t) /\ plain_body (snd t).

(** The message of a turn. *)
Definition turn_message (t : string * string) : Message :=
  mkMessage (_normalize_role (fst t)) (snd t) [].

(** ** Documents in the range of the decoder

    [json.loads] of this file is Python's on the documents that keep within
    the character range of the embedding and within the limits of the
    interpreter as it is configured by default:
    - every [\u] of the text is followed by [00], so that no escape names a
      code point above U+00FF (Python decodes such an escape, and
      [json.scanstring] has no character to give for it);
    - no run of digits is longer than 4300, the digits that [int] converts
      ([sys.int_info.default_max_str_digits]; on a longer integer literal
      [json.loads] raises [ValueError]);
    - the brackets outside string literals are nested at most 100 deep, far
      from the depth at which [json.loads] raises [RecursionError].
    A statement that tells a result from what the decoder answers takes
    [in_range] of the content as a hypothesis: it is a statement about
    these documents, and says nothing of the others. *)

Fixpoint escapes_in_range (s : string) : bool :=
  match s with
  | EmptyString => true
  | String _ r =>
      (negb (Py.startswith s "\u") || Py.startswith s "\u00")
      && escapes_in_range r
  end.




(** ** Elements and lines, by what they hold *)







Section DataVocabulary.
Context {builtins : Builtins}.







End DataVocabulary.

(** ** Sample logs *)

(** A stand-in for the built-in texts, for running the parsers on samples. *)
Definition sample_builtins : Builtins :=
  {| py_str := fun v =>
       match v with
       | JNull => "None"
       | JBool true => "True"
       | JBool false => "False"
       | _ => "<value>"
       end;
     exc_str := fun _ => "Expecting value" |}.

(** A metadata line, a Human section, an Assistant section and a closing
    separator line. *)
Definition nanobot_log : string :=
  doc "session_id: 42\n## Human\nDo X\n\n## Assistant\nDone\n---\n".

(** Two mapping lines and a third line that does not decode. *)
Definition malformed_third_line : string :=
  doc "{'role':'user','content':'a'}\n{'role':'assistant','content':'b'}\n{oops".

(** A blank line, a mapping and a line that does not decode: the third line
    of the content is the second of the trimmed content. *)
Definition late_malformed_line : string :=
  doc "\n{'role':'user','content':'a'}\n{oops".

(** Two mapping lines, the first with a number for a role. *)
Definition numeric_role_log : string :=
  doc "{'role': 1, 'content': 'x'}\n{'role': 'user', 'content': 'y'}".



(** The session of [nanobot_log]. *)
Definition nanobot_session : Session :=
  mkSession [mkMessage "user" "Do X" []; mkMessage "assistant" "Done" []]
            "log" Fnanobot.

(** An array of one mapping with a field besides role and content. *)
Definition tagged_item : dict JSON :=
  [("role", JStr "user"); ("content", JStr "hi"); ("id", JInt 7)].

Definition tagged_log : string := doc "[{'role':'user','content':'hi','id':7}]".

(** A content of two strings with a part of another type between them, and
    the same content without that part. *)
Definition mixed_content : dict JSON :=
  [("content", JArr [JStr "a"; JObj [("type", JStr "image")]; JStr "b"])].

Definition text_content : dict JSON :=
  [("content", JArr [JStr "a"; JStr "b"])].

(** A note without any marker, and a section closed by a separator. *)
Definition plain_note : string := "call the bank tomorrow".

Definition closed_section : string := doc "Done\n---".




(** ** The claims that fail as worded *)

(** C1 as worded, at one input: the parse ends in [ParseError] exactly when
    the content is blank or the selected parser returns no message. *)
Definition C1_as_stated (B : Builtins) (input source : string) : Prop :=
  (exists msg, parse_session input source = inl (ParseError msg)) <->
  (Py.strip input = EmptyString \/
   parser_map (detect_format input) input = inr []).


(** C3 as worded, at one input: no parser emits an empty content. *)
Definition C3_as_stated (B : Builtins) (input : string) : Prop :=
  (forall ms, parse_json input = inr ms -> Forall has_content ms) /\
  (forall ms, parse_jsonl input = inr ms -> Forall has_content ms) /\
  Forall has_content (parse_text input) /\
  Forall has_content (parse_nanobot input).



(** C8 as worded, at one input: every marker the content is split at has a
    colon or a whitespace character after its label and closing. *)
Definition C8_as_stated (input : string) : Prop :=
  forall ms tail i skipped m,
    re.matches role_pattern input = (ms, tail) ->
    nth_error ms i = Some (skipped, m) ->
    exists d c sep rest,
      re.text m = d ++ re.group1 m ++ c ++ String sep rest /\
      (Ascii.eqb sep ":" || Py.isspace sep) = true.

(** ** Tactics *)

(** A fact about one character, by cases on its eight bits. *)
Ltac ascii_cases c :=
  destruct c as [[] [] [] [] [] [] [] []]; vm_compute; try reflexivity; try congruence.

Ltac role_table :=
  let H := fresh "Hkey" in
  intros ? H; simpl in H;
  repeat (destruct H as [<-|H]; [reflexivity|]); contradiction.

(** * Properties *)

(** ** Strings *)

Lemma isspace_lower_char (c : ascii) :
  Py.isspace (Py.lower_char c) = Py.isspace c.
Proof. ascii_cases c. Qed.

Lemma lower_char_idem (c : ascii) :
  Py.lower_char (Py.lower_char c) = Py.lower_char c.
Proof. ascii_cases c. Qed.

Lemma lower_idem (s : string) : Py.lower (Py.lower s) = Py.lower s.
Proof.
  induction s as [|c r IH]; simpl; [reflexivity|].
  now rewrite lower_char_idem, IH.
Qed.

Lemma lower_lstrip (s : string) : Py.lower (Py.lstrip s) = Py.lstrip (Py.lower s).
Proof.
  induction s as [|c r IH]; simpl; [reflexivity|].
  rewrite isspace_lower_char.
  destruct (Py.isspace c); [exact IH | reflexivity].
Qed.

Lemma lower_rstrip (s : string) : Py.lower (Py.rstrip s) = Py.rstrip (Py.lower s).
Proof.
  induction s as [|c r IH]; simpl; [reflexivity|].
  rewrite <- IH, isspace_lower_char.
  destruct (Py.rstrip r); simpl; [|reflexivity].
  destruct (Py.isspace c); reflexivity.
Qed.

Lemma lower_strip (s : string) : Py.lower (Py.strip s) = Py.strip (Py.lower s).
Proof. unfold Py.strip. now rewrite lower_lstrip, lower_rstrip. Qed.

Lemma lstrip_idem (s : string) : Py.lstrip (Py.lstrip s) = Py.lstrip s.
Proof.
  induction s as [|c r IH]; simpl; [reflexivity|].
  destruct (Py.isspace c) eqn:E; [exact IH|].
  simpl. now rewrite E.
Qed.

(** A text without trailing whitespace is one [rstrip] leaves alone. *)
Lemma rstrip_fixed_tail (c : ascii) (r : string) :
  Py.rstrip (String c r) = String c r -> Py.rstrip r = r.
Proof.
  simpl. destruct (Py.rstrip r) as [|d r'] eqn:E.
  - destruct (Py.isspace c); [discriminate|].
    intros H. now injection H as <-.
  - intros H. now injection H as <-.
Qed.

Lemma rstrip_idem (s : string) : Py.rstrip (Py.rstrip s) = Py.rstrip s.
Proof.
  induction s as [|c r IH]; simpl; [reflexivity|].
  destruct (Py.rstrip r) as [|d r'] eqn:E.
  - destruct (Py.isspace c) eqn:Ec; simpl; [reflexivity|].
    now rewrite Ec.
  - change (Py.rstrip (String c (String d r')) = String c (String d r')).
    simpl in IH |- *. destruct (Py.rstrip r') as [|e r''] eqn:E'.
    + destruct (Py.isspace d); [discriminate|]. now rewrite IH.
    + now rewrite IH.
Qed.

Lemma rstrip_lstrip_fixed (s : string) :
  Py.rstrip s = s -> Py.rstrip (Py.lstrip s) = Py.lstrip s.
Proof.
  induction s as [|c r IH]; intros H; [reflexivity|].
  simpl Py.lstrip. destruct (Py.isspace c); [|exact H].
  apply IH. exact (rstrip_fixed_tail H).
Qed.

Lemma strip_idem (s : string) : Py.strip (Py.strip s) = Py.strip s.
Proof.
  unfold Py.strip.
  rewrite (rstrip_lstrip_fixed (rstrip_idem s)).
  apply lstrip_idem.
Qed.

Lemma nonempty_true (s : string) : Py.nonempty s = true <-> s <> EmptyString.
Proof. destruct s; simpl; split; congruence. Qed.

Lemma nonempty_false (s : string) : Py.nonempty s = false <-> s = EmptyString.
Proof. destruct s; simpl; split; congruence. Qed.

(** [not content or not content.strip()] is [content.strip()] being empty. *)
Lemma blank_test (content : string) :
  negb (Py.nonempty content) || negb (Py.nonempty (Py.strip content))
  = negb (Py.nonempty (Py.strip content)).
Proof. destruct content; reflexivity. Qed.

Lemma append_nil_r (s : string) : s ++ EmptyString = s.
Proof. induction s as [|c r IH]; simpl; [reflexivity|now rewrite IH]. Qed.

Lemma append_assoc (a b c : string) : (a ++ b) ++ c = a ++ (b ++ c).
Proof. induction a as [|x a IH]; simpl; [reflexivity|now rewrite IH]. Qed.

Lemma length_append (a b : string) :
  String.length (a ++ b) = String.length a + String.length b.
Proof. induction a as [|x a IH]; simpl; [reflexivity|now rewrite IH]. Qed.

Lemma last_of_append (prev : option ascii) (a b : string) :
  last_of prev (a ++ b) = last_of (last_of prev a) b.
Proof. revert prev. induction a as [|x a IH]; intros prev; simpl; auto. Qed.

Lemma isspace_NL (c : ascii) : Ascii.eqb c Py.NL = true -> Py.isspace c = true.
Proof. intros H. apply Ascii.eqb_eq in H. subst c. reflexivity. Qed.

Lemma strip_cons_space (c : ascii) (l : string) :
  Py.isspace c = true -> Py.strip (String c l) = Py.strip l.
Proof.
  intros Hc. unfold Py.strip. simpl Py.rstrip.
  destruct (Py.rstrip l) as [|d r'] eqn:E; rewrite ?Hc; simpl; now rewrite ?Hc.
Qed.

Lemma rstrip_cons (c : ascii) (l l' : string) :
  Py.rstrip l = Py.rstrip l' -> Py.rstrip (String c l) = Py.rstrip (String c l').
Proof. intros H. simpl. now rewrite H. Qed.

Lemma rstrip_strip (a b : string) :
  Py.rstrip a = Py.rstrip b -> Py.strip a = Py.strip b.
Proof. unfold Py.strip. now intros ->. Qed.

Lemma rstrip_String (c : ascii) (r : string) :
  Py.rstrip (String c r) =
  match Py.rstrip r with
  | EmptyString => if Py.isspace c then EmptyString else String c EmptyString
  | r' => String c r'
  end.
Proof. reflexivity. Qed.

Lemma lstrip_head (s : string) (c : ascii) (r : string) :
  Py.lstrip s = String c r -> Py.isspace c = false.
Proof.
  induction s as [|d s' IH]; simpl; [discriminate|].
  destruct (Py.isspace d) eqn:E; [exact IH|].
  intros H. injection H as <- _. exact E.
Qed.

Lemma rstrip_spaces (w : string) :
  all_chars Py.isspace w = true -> Py.rstrip w = EmptyString.
Proof.
  induction w as [|c w IH]; simpl; [reflexivity|].
  intros H. apply andb_prop in H. destruct H as [Hc Hw].
  now rewrite (IH Hw), Hc.
Qed.


Lemma startswith_split (p : string) :
  forall s, Py.startswith s p = true -> s = p ++ Py.drop (String.length p) s.
Proof.
  induction p as [|a p IH]; intros [|b s] H; simpl in *; try reflexivity;
    try discriminate.
  apply andb_prop in H. destruct H as [Ha Hp].
  apply Ascii.eqb_eq in Ha. subst b. now rewrite <- IH.
Qed.

Lemma startswith_app (p r : string) : Py.startswith (p ++ r) p = true.
Proof.
  induction p as [|a p IH]; simpl; [now destruct r|].
  now rewrite Ascii.eqb_refl, IH.
Qed.

Lemma drop_app (p r : string) : Py.drop (String.length p) (p ++ r) = r.
Proof. induction p as [|a p IH]; simpl; [now destruct r|exact IH]. Qed.

Lemma startswith_char (c d : ascii) (x : string) :
  Py.startswith (String c x) (String d EmptyString) = Ascii.eqb d c.
Proof. simpl. now rewrite andb_true_r. Qed.

Ltac lens H :=
  repeat (rewrite !length_append in H; cbn [String.length] in H).

Ltac norm_app :=
  repeat first [rewrite !append_assoc | progress cbn [append]].

Lemma split_lines_String (c : ascii) (r : string) :
  Py.split_lines (String c r) =
  if Ascii.eqb c Py.NL then EmptyString :: Py.split_lines r
  else match Py.split_lines r with
       | l :: ls => String c l :: ls
       | [] => [String c EmptyString]
       end.
Proof. reflexivity. Qed.

Lemma split_lines_cons (s : string) :
  exists l ls, Py.split_lines s = l :: ls.
Proof.
  induction s as [|c r [l [ls IH]]]; simpl; [now eexists; eexists|].
  destruct (Ascii.eqb c Py.NL); [now eexists; eexists|].
  rewrite IH. now eexists; eexists.
Qed.

Lemma split_lines_max_cons (n : nat) (s : string) :
  exists l ls, Py.split_lines_max n s = l :: ls.
Proof.
  revert n. induction s as [|c r IH]; intros [|m]; simpl;
    try (now eexists; eexists).
  destruct (Ascii.eqb c Py.NL); [now eexists; eexists|].
  destruct (IH (S m)) as [l [ls E]]. rewrite E. now eexists; eexists.
Qed.

(** Splitting at most [n] times and splitting everywhere agree on the first
    [n] lines. *)
Lemma firstn_split_lines_max (s : string) :
  forall n, firstn n (Py.split_lines_max n s) = firstn n (Py.split_lines s).
Proof.
  induction s as [|c r IH]; intros [|m]; try reflexivity.
  simpl Py.split_lines_max. simpl Py.split_lines.
  destruct (Ascii.eqb c Py.NL).
  - simpl. now rewrite IH.
  - specialize (IH (S m)).
    destruct (split_lines_max_cons (S m) r) as [l [ls E]].
    destruct (split_lines_cons r) as [l' [ls' E']].
    rewrite E, E' in *. simpl in IH |- *.
    injection IH as -> ->. reflexivity.
Qed.

Lemma digits_S (f n : nat) (acc : string) :
  Py.digits (S f) n acc =
  if (n / 10 =? 0)%nat
  then String (ascii_of_nat (48 + n mod 10)) acc
  else Py.digits f (n / 10) (String (ascii_of_nat (48 + n mod 10)) acc).
Proof. reflexivity. Qed.

Lemma div10_lt (n : nat) : n / 10 <> 0 -> n / 10 < n.
Proof.
  intros E. apply Nat.div_lt; [|lia].
  destruct n; [|lia]. now contradiction E.
Qed.

(** The fuel of [str_nat] is enough. *)
Lemma digits_fuel (n : nat) :
  forall f1 f2 acc,
    n < f1 -> n < f2 -> Py.digits f1 n acc = Py.digits f2 n acc.
Proof.
  induction n as [n IH] using (well_founded_induction lt_wf).
  intros [|f1] [|f2] acc H1 H2; try lia. rewrite !digits_S.
  destruct (Nat.eqb_spec (n / 10) 0) as [E|E]; [reflexivity|].
  pose proof (div10_lt _ E). apply IH; lia.
Qed.

Lemma digits_acc (f : nat) :
  forall m acc,
    m < f -> Py.digits f m acc = Py.digits f m EmptyString ++ acc.
Proof.
  induction f as [|f IHf]; intros m acc Hm; [lia|]. rewrite !digits_S.
  destruct (Nat.eqb_spec (m / 10) 0) as [E|E]; [reflexivity|].
  pose proof (div10_lt _ E).
  rewrite IHf by lia.
  rewrite (IHf _ (String _ EmptyString)) by lia.
  now rewrite append_assoc.
Qed.

(** The text of a number of two digits or more is the text of its tens
    followed by its last digit. *)
Lemma str_nat_step (n : nat) :
  10 <= n ->
  Py.str_nat n =
  Py.str_nat (n / 10) ++ String (ascii_of_nat (48 + n mod 10)) EmptyString.
Proof.
  intros H. unfold Py.str_nat. rewrite digits_S.
  destruct (Nat.eqb_spec (n / 10) 0) as [E|E].
  - apply Nat.div_small_iff in E; lia.
  - pose proof (div10_lt _ E).
    rewrite digits_acc by lia.
    now rewrite (@digits_fuel (n / 10) n (S (n / 10))) by lia.
Qed.

Lemma str_nat_digit (n : nat) :
  n < 10 -> Py.str_nat n = String (ascii_of_nat (48 + n)) EmptyString.
Proof.
  intros H. unfold Py.str_nat. rewrite digits_S.
  rewrite (Nat.div_small n 10 H), (Nat.mod_small n 10 H). reflexivity.
Qed.

Lemma Forall_snoc {A} (P : A -> Prop) (l : list A) (x : A) :
  Forall P l -> P x -> Forall P (l ++ [x])%list.
Proof.
  intros Hl Hx. apply Forall_app. split; [exact Hl|]. now constructor.
Qed.

(** ** Role normalizer *)

Lemma role_key_idem (raw : string) : role_key (role_key raw) = role_key raw.
Proof.
  unfold role_key. now rewrite lower_strip, lower_idem, strip_idem.
Qed.

Lemma role_map_values (k r : string) :
  dict_get _ROLE_MAP k = Some r -> In r canonical_roles.
Proof.
  cbv [_ROLE_MAP dict_get].
  repeat (destruct (String.eqb _ k);
          [intros H; injection H as <-; simpl; tauto|]).
  discriminate.
Qed.

Lemma normalize_canonical (r : string) :
  In r canonical_roles -> _normalize_role r = r.
Proof.
  simpl. intros [<-|[<-|[<-|[<-|[]]]]]; reflexivity.
Qed.

Lemma normalize_role_idem (raw : string) :
  _normalize_role (_normalize_role raw) = _normalize_role raw.
Proof.
  unfold _normalize_role at 2 3. fold (role_key raw).
  destruct (dict_get _ROLE_MAP (role_key raw)) as [r|] eqn:E.
  - apply normalize_canonical. exact (role_map_values _ E).
  - unfold _normalize_role. fold (role_key (role_key raw)).
    now rewrite role_key_idem, E.
Qed.

Lemma role_map_key (r : string) (keys : list string) :
  (forall k', In k' keys -> dict_get _ROLE_MAP k' = Some r) ->
  forall raw, In (role_key raw) keys -> _normalize_role raw = r.
Proof.
  intros Hk raw Hin. unfold _normalize_role. fold (role_key raw).
  now rewrite (Hk _ Hin).
Qed.

(** C9.  [_normalize_role] lower-cases and trims its argument and looks the
    result up in the table: user, human and customer give user; assistant,
    ai, bot and agent give assistant; system gives system; tool and function
    give tool, whatever the case and surrounding whitespace of the label.  A
    label outside the table comes back lower-cased and trimmed.  Normalizing
    twice is normalizing once, a canonical role is returned as it is, and
    USER, User and user all give user. *)
Theorem C9_normalize_role :
  (forall raw,
      (In (role_key raw) ["user"; "human"; "customer"] ->
       _normalize_role raw = "user") /\
      (In (role_key raw) ["assistant"; "ai"; "bot"; "agent"] ->
       _normalize_role raw = "assistant") /\
      (role_key raw = "system" -> _normalize_role raw = "system") /\
      (In (role_key raw) ["tool"; "function"] -> _normalize_role raw = "tool") /\
      (dict_get _ROLE_MAP (role_key raw) = None ->
       _normalize_role raw = Py.strip (Py.lower raw))) /\
  (forall raw, _normalize_role (_normalize_role raw) = _normalize_role raw) /\
  (forall r, In r canonical_roles -> _normalize_role r = r) /\
  _normalize_role "USER" = "user" /\
  _normalize_role "User" = "user" /\
  _normalize_role "user" = "user".
Proof.
  split; [intros raw; repeat apply conj|repeat apply conj; try reflexivity].
  - apply role_map_key. role_table.
  - apply role_map_key. role_table.
  - intros H. apply (@role_map_key "system" ["system"]); [role_table|].
    rewrite H. now left.
  - apply role_map_key. role_table.
  - intros H. unfold _normalize_role. fold (role_key raw). now rewrite H.
  - apply normalize_role_idem.
  - apply normalize_canonical.
Qed.

(** ** The decoder reads a value from its own text *)

Lemma ends_solid_char (c : ascii) :
  Py.isspace c = false -> ends_solid (String c EmptyString).
Proof. intros H. now exists EmptyString, c. Qed.

Lemma ends_solid_app (a b : string) : ends_solid b -> ends_solid (a ++ b).
Proof.
  intros [body [c [-> H]]]. exists (a ++ body), c.
  split; [now rewrite append_assoc|exact H].
Qed.

Lemma ends_solid_cons (c : ascii) (b : string) :
  ends_solid b -> ends_solid (String c b).
Proof. apply (ends_solid_app (String c EmptyString)). Qed.

Lemma ends_solid_length (t : string) : ends_solid t -> 1 <= String.length t.
Proof. intros [body [c [-> _]]]. rewrite length_append. simpl. lia. Qed.

Ltac solid :=
  first [apply ends_solid_char; reflexivity | apply ends_solid_cons; solid].


Lemma is_ws_isspace (c : ascii) : json.is_ws c = true -> Py.isspace c = true.
Proof. ascii_cases c. Qed.

Lemma is_ws_solid (c : ascii) : Py.isspace c = false -> json.is_ws c = false.
Proof.
  intros H. destruct (json.is_ws c) eqn:E; [|reflexivity].
  apply is_ws_isspace in E. congruence.
Qed.


Lemma skip_ws_spec (s : string) :
  exists w, s = w ++ json.skip_ws s /\ all_chars json.is_ws w = true.
Proof.
  induction s as [|c s [w [E Hw]]]; simpl.
  - now exists EmptyString.
  - destruct (json.is_ws c) eqn:Ec.
    + exists (String c w). simpl. rewrite Ec. split; [now rewrite <- E|exact Hw].
    + now exists EmptyString.
Qed.

Lemma skip_ws_app (w s : string) :
  all_chars json.is_ws w = true -> json.skip_ws (w ++ s) = json.skip_ws s.
Proof.
  induction w as [|c w IH]; simpl; [reflexivity|].
  intros H. apply andb_prop in H. destruct H as [Hc Hw]. now rewrite Hc, IH.
Qed.

Lemma skip_ws_head (s : string) (c : ascii) (r : string) :
  json.skip_ws s = String c r -> json.is_ws c = false.
Proof.
  induction s as [|d s IH]; simpl; [discriminate|].
  destruct (json.is_ws d) eqn:E; [exact IH|].
  intros H. injection H as <- _. exact E.
Qed.

Lemma skip_ws_solid (c : ascii) (r : string) :
  json.is_ws c = false -> json.skip_ws (String c r) = String c r.
Proof. intros H. simpl. now rewrite H. Qed.

Lemma skip_ws_empty (r : string) :
  json.skip_ws r = EmptyString -> all_chars json.is_ws r = true.
Proof.
  intros H. destruct (skip_ws_spec r) as [w [E Hw]].
  rewrite H, append_nil_r in E. now subst w.
Qed.

Lemma skip_ws_cases (s : string) (c : ascii) (r : string) :
  json.skip_ws s = String c r ->
  exists w,
    s = w ++ String c r /\ all_chars json.is_ws w = true /\ json.is_ws c = false /\
    forall x, json.skip_ws (w ++ String c x) = String c x.
Proof.
  intros H. destruct (skip_ws_spec s) as [w [E Hw]]. rewrite H in E.
  pose proof (skip_ws_head _ H) as Hc.
  exists w. repeat split; try assumption.
  intros x. rewrite skip_ws_app by exact Hw. now apply skip_ws_solid.
Qed.


Lemma delim_ws (c : ascii) : json.is_ws c = true -> delim_char c = true.
Proof. ascii_cases c. Qed.

Lemma delim_spaces (w r : string) :
  all_chars json.is_ws w = true -> delim r = true -> delim (w ++ r) = true.
Proof.
  destruct w as [|c w]; simpl; [tauto|].
  intros H _. apply andb_prop in H. now apply delim_ws.
Qed.

Lemma delim_inv (r : string) :
  delim r = true ->
  nodigit r = true /\
  forall c r', r = String c r' ->
    Ascii.eqb c "." = false /\ Ascii.eqb c "e" = false /\ Ascii.eqb c "E" = false.
Proof.
  destruct r as [|c r]; simpl.
  - intros _. split; [reflexivity|]. discriminate.
  - unfold delim_char. intros H. apply negb_true_iff in H.
    apply orb_false_iff in H. destruct H as [H HE].
    apply orb_false_iff in H. destruct H as [H He].
    apply orb_false_iff in H. destruct H as [Hd Hp].
    split; [now rewrite Hd|]. intros c' r' E. injection E as <- <-. now repeat split.
Qed.

(** *** Numbers, keywords and constants *)

Lemma take_digits_spec (s : string) :
  forall ds r,
    json.take_digits s = (ds, r) ->
    s = ds ++ r /\ all_chars json.is_digit ds = true.
Proof.
  induction s as [|c s IH]; intros ds r H; simpl in H.
  - injection H as <- <-. now split.
  - destruct (json.is_digit c) eqn:Ec.
    + destruct (json.take_digits s) as [ds' r'] eqn:E.
      injection H as <- <-. destruct (IH _ _ eq_refl) as [-> Hd].
      simpl. now rewrite Ec.
    + injection H as <- <-. now split.
Qed.

Lemma take_digits_app (ds r2 : string) :
  all_chars json.is_digit ds = true -> nodigit r2 = true ->
  json.take_digits (ds ++ r2) = (ds, r2).
Proof.
  induction ds as [|c ds IH]; simpl; intros Hd Hr.
  - destruct r2 as [|c r2]; [reflexivity|]. simpl in Hr |- *.
    now destruct (json.is_digit c).
  - apply andb_prop in Hd. destruct Hd as [Hc Hd]. now rewrite Hc, IH.
Qed.

Lemma digit_solid (c : ascii) : json.is_digit c = true -> Py.isspace c = false.
Proof. ascii_cases c. Qed.

Lemma digits_solid (c : ascii) (ds : string) :
  json.is_digit c = true -> all_chars json.is_digit ds = true ->
  ends_solid (String c ds).
Proof.
  revert c. induction ds as [|d ds IH]; intros c Hc Hd.
  - apply ends_solid_char. now apply digit_solid.
  - simpl in Hd. apply andb_prop in Hd. destruct Hd as [Hd Hds].
    apply ends_solid_cons. now apply IH.
Qed.

Lemma nodigit_head (c : ascii) (r : string) :
  json.is_digit c = false -> nodigit (String c r) = true.
Proof. intros H. simpl. now rewrite H. Qed.

Lemma exp_head_facts (c : ascii) :
  (Ascii.eqb c "e" || Ascii.eqb c "E") = true ->
  json.is_digit c = false /\ Ascii.eqb c "." = false.
Proof. ascii_cases c. all: split; reflexivity. Qed.

Lemma match_integer_local (s i r : string) :
  json.match_integer s = Some (i, r) ->
  s = i ++ r /\ ends_solid i /\ head_num i /\
  forall r2, nodigit r2 = true -> json.match_integer (i ++ r2) = Some (i, r2).
Proof.
  destruct s as [|c r0]; [discriminate|].
  unfold json.match_integer, json.take_sign at 1. simpl existsb. rewrite orb_false_r.
  assert (Hsolid0 : ends_solid "0") by (apply ends_solid_char; reflexivity).
  destruct (Ascii.eqb_spec c "-") as [->|Hneq].
  - destruct r0 as [|d r1]; [discriminate|].
    destruct (Ascii.eqb_spec d "0") as [->|Hd0].
    + intros H. injection H as <- <-. repeat split.
      * now apply ends_solid_cons.
      * now exists "-"%char, "0".
    + destruct (json.is_digit d) eqn:Ed; [|discriminate].
      destruct (json.take_digits r1) as [ds r'] eqn:Et.
      intros H. injection H as <- <-.
      destruct (take_digits_spec _ Et) as [-> Hds]. repeat split.
      * apply ends_solid_cons. now apply digits_solid.
      * now exists "-"%char, (String d ds).
      * intros r2 Hr2. simpl.
        destruct (Ascii.eqb_spec d "0") as [->|_]; [contradiction|].
        now rewrite Ed, (take_digits_app _ _ Hds Hr2).
  - destruct (Ascii.eqb_spec c "0") as [->|Hc0].
    + intros H. injection H as <- <-. repeat split.
      * exact Hsolid0.
      * now exists "0"%char, EmptyString.
    + destruct (json.is_digit c) eqn:Ec; [|discriminate].
      destruct (json.take_digits r0) as [ds r'] eqn:Et.
      intros H. injection H as <- <-.
      destruct (take_digits_spec _ Et) as [-> Hds]. repeat split.
      * now apply digits_solid.
      * exists c, ds. split; [reflexivity|]. now rewrite Ec, orb_true_r.
      * intros r2 Hr2. simpl. unfold json.match_integer, json.take_sign.
        simpl existsb. rewrite orb_false_r.
        destruct (Ascii.eqb_spec c "-") as [->|_]; [contradiction|].
        destruct (Ascii.eqb_spec c "0") as [->|_]; [contradiction|].
        now rewrite Ec, (take_digits_app _ _ Hds Hr2).
Qed.

Lemma match_frac_local (s f r : string) :
  json.match_frac s = Some (f, r) ->
  s = f ++ r /\ ends_solid f /\ (exists f', f = String "." f') /\
  forall r2, nodigit r2 = true -> json.match_frac (f ++ r2) = Some (f, r2).
Proof.
  destruct s as [|c r0]; [discriminate|]. unfold json.match_frac.
  destruct (Ascii.eqb_spec c ".") as [->|_]; [|discriminate].
  destruct (json.take_digits r0) as [[|d ds] r'] eqn:Et; [discriminate|].
  intros H. injection H as <- <-.
  destruct (take_digits_spec _ Et) as [-> Hds].
  simpl in Hds. apply andb_prop in Hds. destruct Hds as [Hd Hds].
  repeat split.
  - apply ends_solid_cons. now apply digits_solid.
  - now eexists.
  - intros r2 Hr2.
    change (json.match_frac (String "." (String d ds ++ r2))
            = Some (String "." (String d ds), r2)).
    unfold json.match_frac. rewrite Ascii.eqb_refl.
    rewrite (take_digits_app (String d ds) r2); [reflexivity| |exact Hr2].
    simpl. now rewrite Hd.
Qed.

Lemma match_frac_none (r2 : string) :
  (forall c r', r2 = String c r' -> Ascii.eqb c "." = false) ->
  json.match_frac r2 = None.
Proof.
  destruct r2 as [|c r]; [reflexivity|]. intros H. unfold json.match_frac.
  now rewrite (H c r eq_refl).
Qed.

Lemma match_exp_local (s e r : string) :
  json.match_exp s = Some (e, r) ->
  s = e ++ r /\ ends_solid e /\
  (exists c e', e = String c e' /\ (Ascii.eqb c "e" || Ascii.eqb c "E") = true) /\
  forall r2, nodigit r2 = true -> json.match_exp (e ++ r2) = Some (e, r2).
Proof.
  destruct s as [|c r0]; [discriminate|]. unfold json.match_exp.
  destruct (Ascii.eqb c "e" || Ascii.eqb c "E") eqn:Ec; [|discriminate].
  destruct (json.take_sign ["+"%char; "-"%char] r0) as [sign r1] eqn:Es.
  destruct (json.take_digits r1) as [[|d ds] r'] eqn:Et; [discriminate|].
  intros H. injection H as <- <-.
  destruct (take_digits_spec _ Et) as [-> Hds].
  assert (Hds' := Hds). simpl in Hds'. apply andb_prop in Hds'.
  destruct Hds' as [Hd Hds'].
  assert (Hr0 : r0 = sign ++ String d ds ++ r' /\
                forall r2, json.take_sign ["+"%char; "-"%char]
                             (sign ++ String d ds ++ r2)
                           = (sign, String d ds ++ r2)).
  { unfold json.take_sign in Es. destruct r0 as [|x r0].
    - injection Es as <- E. discriminate.
    - destruct (existsb (Ascii.eqb x) ["+"%char; "-"%char]) eqn:Ex.
      + injection Es as <- ->. split; [reflexivity|]. intros r2. simpl append.
        unfold json.take_sign. now rewrite Ex.
      + injection Es as <- -> ->. split; [reflexivity|].
        intros r2. simpl append. unfold json.take_sign. now rewrite Ex. }
  destruct Hr0 as [-> Hsign]. repeat split.
  - simpl. now rewrite append_assoc.
  - apply ends_solid_cons, ends_solid_app. now apply digits_solid.
  - now exists c, (sign ++ String d ds).
  - intros r2 Hr2.
    change (json.match_exp (String c ((sign ++ String d ds) ++ r2))
            = Some (String c (sign ++ String d ds), r2)).
    unfold json.match_exp. rewrite Ec, append_assoc, Hsign.
    now rewrite (take_digits_app (String d ds) r2 Hds Hr2).
Qed.

Lemma match_exp_none (r2 : string) :
  (forall c r', r2 = String c r' ->
                Ascii.eqb c "e" = false /\ Ascii.eqb c "E" = false) ->
  json.match_exp r2 = None.
Proof.
  destruct r2 as [|c r]; [reflexivity|]. intros H. unfold json.match_exp.
  destruct (H c r eq_refl) as [-> ->]. reflexivity.
Qed.

Lemma match_number_local (s : string) (v : JSON) (r : string) :
  json.match_number s = Some (v, r) ->
  exists t,
    s = t ++ r /\ ends_solid t /\ head_num t /\
    forall r2, delim r2 = true -> json.match_number (t ++ r2) = Some (v, r2).
Proof.
  unfold json.match_number.
  destruct (json.match_integer s) as [[i r0]|] eqn:Ei; [|discriminate].
  destruct (match_integer_local _ Ei) as [-> [Hsi [Hhi Hli]]].
  assert (Hhead : forall x, head_num (i ++ x)).
  { intros x. destruct Hhi as [c [i' [-> Hc]]]. now exists c, (i' ++ x). }
  destruct (json.match_frac r0) as [[f r1]|] eqn:Ef.
  - destruct (match_frac_local _ Ef) as [-> [Hsf [[f' ->] Hlf]]].
    destruct (json.match_exp r1) as [[e r2]|] eqn:Ee; intros H; injection H as <- <-.
    + destruct (match_exp_local _ Ee) as [-> [Hse [[c [e' [-> Hc]]] Hle]]].
      destruct (exp_head_facts _ Hc) as [Hcd Hcp].
      exists (i ++ String "." f' ++ String c e'). repeat split.
      * now rewrite !append_assoc.
      * now apply ends_solid_app, ends_solid_app.
      * apply Hhead.
      * intros x Hx. destruct (delim_inv _ Hx) as [Hnd _].
        rewrite !append_assoc, Hli by reflexivity.
        rewrite Hlf by (now apply nodigit_head).
        now rewrite Hle.
    + exists (i ++ String "." f'). repeat split.
      * now rewrite !append_assoc.
      * now apply ends_solid_app.
      * apply Hhead.
      * intros x Hx. destruct (delim_inv _ Hx) as [Hnd Hch].
        rewrite !append_assoc, Hli by reflexivity.
        rewrite Hlf by exact Hnd.
        rewrite match_exp_none; [reflexivity|].
        intros c r' E. now destruct (Hch c r' E) as [_ [? ?]].
  - destruct (json.match_exp r0) as [[e r2]|] eqn:Ee; intros H; injection H as <- <-.
    + destruct (match_exp_local _ Ee) as [-> [Hse [[c [e' [-> Hc]]] Hle]]].
      destruct (exp_head_facts _ Hc) as [Hcd Hcp].
      exists (i ++ String c e'). repeat split.
      * now rewrite !append_assoc.
      * now apply ends_solid_app.
      * apply Hhead.
      * intros x Hx. destruct (delim_inv _ Hx) as [Hnd _].
        rewrite !append_assoc, Hli by (now apply nodigit_head).
        rewrite match_frac_none.
        -- now rewrite Hle.
        -- intros c' r' E. simpl in E. injection E as <- _. exact Hcp.
    + exists i. repeat split; try assumption.
      intros x Hx. destruct (delim_inv _ Hx) as [Hnd Hch].
      rewrite Hli by exact Hnd.
      rewrite match_frac_none, match_exp_none; [reflexivity| |].
      * intros c r' E. now destruct (Hch c r' E) as [_ [? ?]].
      * intros c r' E. now destruct (Hch c r' E) as [? _].
Qed.

Lemma head_num_keyword (t x : string) :
  head_num t -> json.match_keyword (t ++ x) = None.
Proof.
  intros [c [i' [-> Hc]]]. simpl append. unfold json.match_keyword.
  destruct c as [[] [] [] [] [] [] [] []]; try discriminate Hc; reflexivity.
Qed.

Lemma head_num_solid (t : string) :
  head_num t ->
  exists c t', t = String c t' /\ Py.isspace c = false /\
               Ascii.eqb c json.DQ = false /\ Ascii.eqb c "{" = false /\
               Ascii.eqb c "[" = false.
Proof.
  intros [c [i' [-> Hc]]]. exists c, i'. split; [reflexivity|].
  destruct c as [[] [] [] [] [] [] [] []]; try discriminate Hc;
    repeat split; reflexivity.
Qed.

(** A keyword or constant is read from its own letters. *)
Lemma literal_atom (p : string) (v : JSON) (s : string) :
  ends_solid p -> head_solid p ->
  (forall r2, json.scan_atom (p ++ r2) = Some (v, r2)) ->
  Py.startswith s p = true ->
  exists t,
    s = t ++ Py.drop (String.length p) s /\ ends_solid t /\ head_solid t /\
    forall r2, delim r2 = true -> json.scan_atom (t ++ r2) = Some (v, r2).
Proof.
  intros He Hh Hl Hs. exists p. repeat split; try assumption.
  - now apply startswith_split.
  - intros r2 _. apply Hl.
Qed.

Ltac literal lit val :=
  apply literal_atom with (p := lit) (v := val);
  [solid
  |eexists; eexists; split; reflexivity
  |intros ?; reflexivity
  |assumption].

Lemma scan_atom_local (s : string) (v : JSON) (r : string) :
  json.scan_atom s = Some (v, r) ->
  exists t,
    s = t ++ r /\ ends_solid t /\ head_solid t /\
    forall r2, delim r2 = true -> json.scan_atom (t ++ r2) = Some (v, r2).
Proof.
  unfold json.scan_atom.
  destruct (json.match_keyword s) as [x|] eqn:Ek.
  - intros H. injection H as ->. unfold json.match_keyword in Ek.
    destruct (Py.startswith s "null") eqn:E1;
      [injection Ek as <- <-; literal "null" JNull|].
    destruct (Py.startswith s "true") eqn:E2;
      [injection Ek as <- <-; literal "true" (JBool true)|].
    destruct (Py.startswith s "false") eqn:E3; [|discriminate].
    injection Ek as <- <-. literal "false" (JBool false).
  - destruct (json.match_number s) as [x|] eqn:En.
    + intros H. injection H as ->.
      destruct (match_number_local _ En) as [t [-> [Hs [Hh Hl]]]].
      exists t. repeat split; [exact Hs| |].
      * destruct (head_num_solid Hh) as [c [t' [-> [Hc _]]]]. now exists c, t'.
      * intros r2 Hr2. now rewrite (head_num_keyword _ Hh), (Hl _ Hr2).
    + unfold json.match_constant.
      destruct (Py.startswith s "NaN") eqn:E1;
        [intros H; injection H as <- <-; literal "NaN" (JFloat "NaN")|].
      destruct (Py.startswith s "Infinity") eqn:E2;
        [intros H; injection H as <- <-; literal "Infinity" (JFloat "Infinity")|].
      destruct (Py.startswith s "-Infinity") eqn:E3; [|discriminate].
      intros H. injection H as <- <-. literal "-Infinity" (JFloat "-Infinity").
Qed.

(** *** Strings *)

Lemma cons_char_inv (c : ascii) (x : option (string * string)) (tx r : string) :
  json.cons_char c x = Some (tx, r) ->
  exists tx', x = Some (tx', r) /\ tx = String c tx'.
Proof.
  destruct x as [[t' r']|]; simpl; [|discriminate].
  intros H. injection H as <- <-. now exists t'.
Qed.

Lemma scanstring_local_bounded (n : nat) :
  forall s tx r,
    String.length s <= n ->
    json.scanstring s = Some (tx, r) ->
    exists q,
      s = q ++ r /\ ends_solid q /\
      forall r2, json.scanstring (q ++ r2) = Some (tx, r2).
Proof.
  induction n as [|n IH]; intros s tx r Hn H.
  - destruct s; [discriminate|simpl in Hn; lia].
  - destruct s as [|c r0]; [discriminate|]. simpl in Hn, H.
    destruct (Ascii.eqb c json.DQ) eqn:Eq.
    { injection H as <- <-. apply Ascii.eqb_eq in Eq. subst c.
      exists (String json.DQ EmptyString). repeat split.
      - now apply ends_solid_char. }
    destruct (Ascii.eqb c "\") eqn:Eb.
    { destruct r0 as [|e r1]; [discriminate|].
      destruct (Ascii.eqb e "u") eqn:Eu.
      - destruct r1 as [|h1 [|h2 [|h3 [|h4 r2]]]]; try discriminate.
        destruct (json.hex4 h1 h2 h3 h4) as [cp|] eqn:Eh; [|discriminate].
        destruct (cp <? 256)%nat eqn:Ec; [|discriminate].
        apply cons_char_inv in H. destruct H as [tx' [H ->]].
        destruct (IH r2 tx' r ltac:(simpl in Hn; lia) H) as [q [-> [Hq Hl]]].
        exists (String c (String e (String h1 (String h2 (String h3 (String h4 q)))))).
        repeat split.
        + now repeat apply ends_solid_cons.
        + intros x. simpl. now rewrite Eq, Eb, Eu, Eh, Ec, Hl.
      - destruct (json.backslash e) as [ch|] eqn:Ee; [|discriminate].
        apply cons_char_inv in H. destruct H as [tx' [H ->]].
        destruct (IH r1 tx' r ltac:(simpl in Hn; lia) H) as [q [-> [Hq Hl]]].
        exists (String c (String e q)). repeat split.
        + now repeat apply ends_solid_cons.
        + intros x. simpl. now rewrite Eq, Eb, Eu, Ee, Hl. }
    destruct (nat_of_ascii c <? 32)%nat eqn:Ec; [discriminate|].
    apply cons_char_inv in H. destruct H as [tx' [H ->]].
    destruct (IH r0 tx' r ltac:(lia) H) as [q [-> [Hq Hl]]].
    exists (String c q). repeat split.
    + now apply ends_solid_cons.
    + intros x. simpl. now rewrite Eq, Eb, Ec, Hl.
Qed.

Lemma scanstring_local (s tx r : string) :
  json.scanstring s = Some (tx, r) ->
  exists q,
    s = q ++ r /\ ends_solid q /\
    forall r2, json.scanstring (q ++ r2) = Some (tx, r2).
Proof. now apply (scanstring_local_bounded (n := String.length s)). Qed.

(** *** Values *)

Lemma scan_once_S (f : nat) (c : ascii) (r : string) :
  json.scan_once (S f) (String c r) =
  if Ascii.eqb c json.DQ then
    match json.scanstring r with
    | Some (t, r') => Some (JStr t, r')
    | None => None
    end
  else if Ascii.eqb c "{" then
    match json.skip_ws r with
    | String d r' =>
        if Ascii.eqb d "}" then Some (JObj [], r')
        else if Ascii.eqb d json.DQ then
          match json.object_pairs f r' with
          | Some (ps, r'') => Some (JObj (json.dict_of_pairs ps), r'')
          | None => None
          end
        else None
    | EmptyString => None
    end
  else if Ascii.eqb c "[" then
    if Py.startswith (json.skip_ws r) "]"
    then Some (JArr [], Py.drop 1 (json.skip_ws r))
    else
      match json.array_items f (json.skip_ws r) with
      | Some (vs, r'') => Some (JArr vs, r'')
      | None => None
      end
  else json.scan_atom (String c r).
Proof. reflexivity. Qed.

Lemma array_items_S (f : nat) (s : string) :
  json.array_items (S f) s =
  match json.scan_once f s with
  | None => None
  | Some (v, r) =>
      match json.skip_ws r with
      | String d r' =>
          if Ascii.eqb d "]" then Some ([v], r')
          else if Ascii.eqb d "," then
            match json.array_items f (json.skip_ws r') with
            | Some (vs, r'') => Some (v :: vs, r'')
            | None => None
            end
          else None
      | EmptyString => None
      end
  end.
Proof. reflexivity. Qed.

Lemma object_pairs_S (f : nat) (s : string) :
  json.object_pairs (S f) s =
  match json.scanstring s with
  | None => None
  | Some (key, r) =>
      match json.skip_ws r with
      | String d r1 =>
          if Ascii.eqb d ":" then
            match json.scan_once f (json.skip_ws r1) with
            | None => None
            | Some (v, r2) =>
                match json.skip_ws r2 with
                | String e r3 =>
                    if Ascii.eqb e "}" then Some ([(key, v)], r3)
                    else if Ascii.eqb e "," then
                      match json.skip_ws r3 with
                      | String q r4 =>
                          if Ascii.eqb q json.DQ then
                            match json.object_pairs f r4 with
                            | Some (ps, r5) => Some ((key, v) :: ps, r5)
                            | None => None
                            end
                          else None
                      | EmptyString => None
                      end
                    else None
                | EmptyString => None
                end
            end
          else None
      | EmptyString => None
      end
  end.
Proof. reflexivity. Qed.

Lemma value_step (f : nat) :
  value_local f -> items_local f -> pairs_local f -> value_local (S f).
Proof.
  intros Hv Hi Hp s v r H.
  destruct s as [|c r0]; [discriminate|]. rewrite scan_once_S in H.
  destruct (Ascii.eqb c json.DQ) eqn:Eq.
  { (* a string *)
    destruct (json.scanstring r0) as [[tx r']|] eqn:Es; [|discriminate].
    injection H as <- <-. apply Ascii.eqb_eq in Eq. subst c.
    destruct (scanstring_local _ Es) as [q [-> [Hq Hl]]].
    exists (String json.DQ q). repeat split.
    - now apply ends_solid_cons.
    - now exists json.DQ, q.
    - intros r2 [|f2] _ Hf; [simpl in Hf; lia|].
      simpl append. rewrite scan_once_S, Ascii.eqb_refl. now rewrite Hl. }
  destruct (Ascii.eqb c "{") eqn:Eo.
  { (* an object *)
    apply Ascii.eqb_eq in Eo. subst c.
    destruct (json.skip_ws r0) as [|d r'] eqn:Ew; [discriminate|].
    destruct (skip_ws_cases _ Ew) as [w [-> [Hw [Hd Hskip]]]].
    destruct (Ascii.eqb d "}") eqn:Ec.
    - injection H as <- <-. apply Ascii.eqb_eq in Ec. subst d.
      exists (String "{" (w ++ "}")). repeat split.
      + simpl. now rewrite append_assoc.
      + apply ends_solid_cons, ends_solid_app. now apply ends_solid_char.
      + now exists "{"%char, (w ++ "}").
      + intros r2 [|f2] _ Hf; [simpl in Hf; lia|].
        simpl append. rewrite scan_once_S, Eq, Ascii.eqb_refl.
        rewrite append_assoc. simpl append. now rewrite Hskip, Ascii.eqb_refl.
    - destruct (Ascii.eqb d json.DQ) eqn:Ed; [|discriminate].
      destruct (json.object_pairs f r') as [[ps r'']|] eqn:Eps; [|discriminate].
      injection H as <- <-. apply Ascii.eqb_eq in Ed. subst d.
      destruct (Hp _ _ _ Eps) as [tp [-> [Htp Hlp]]].
      exists (String "{" (w ++ String json.DQ tp)). repeat split.
      + simpl. now rewrite append_assoc.
      + now apply ends_solid_cons, ends_solid_app, ends_solid_cons.
      + now exists "{"%char, (w ++ String json.DQ tp).
      + intros r2 [|f2] _ Hf; [simpl in Hf; lia|].
        simpl append. rewrite scan_once_S, Eq, Ascii.eqb_refl.
        rewrite append_assoc. simpl append. rewrite Hskip, Ec, Ascii.eqb_refl.
        rewrite Hlp; [reflexivity|].
        simpl in Hf. rewrite length_append in Hf. simpl in Hf. lia. }
  destruct (Ascii.eqb c "[") eqn:Ea.
  { (* an array *)
    apply Ascii.eqb_eq in Ea. subst c.
    destruct (Py.startswith (json.skip_ws r0) "]") eqn:Ec.
    - injection H as <- <-.
      destruct (json.skip_ws r0) as [|d r'] eqn:Ew; [discriminate|].
      rewrite startswith_char in Ec.
      apply Ascii.eqb_eq in Ec. subst d.
      destruct (skip_ws_cases _ Ew) as [w [-> [Hw [Hd Hskip]]]].
      exists (String "[" (w ++ "]")). repeat split.
      + simpl. now rewrite append_assoc.
      + apply ends_solid_cons, ends_solid_app. now apply ends_solid_char.
      + now exists "["%char, (w ++ "]").
      + intros r2 [|f2] _ Hf; [simpl in Hf; lia|].
        simpl append. rewrite scan_once_S, Eq, Eo, Ascii.eqb_refl.
        rewrite append_assoc. simpl append. rewrite Hskip.
        now rewrite startswith_char, Ascii.eqb_refl.
    - destruct (json.array_items f (json.skip_ws r0)) as [[vs r'']|] eqn:Ei;
        [|discriminate].
      injection H as <- <-.
      destruct (Hi _ _ _ Ei) as [ti [E [Hti [[d [ti' [-> Hd]]] Hli]]]].
      simpl append in E. destruct (skip_ws_cases _ E) as [w [-> [Hw [Hdw Hskip]]]].
      rewrite E, startswith_char in Ec.
      exists (String "[" (w ++ String d ti')). repeat split.
      + simpl. now rewrite append_assoc.
      + now apply ends_solid_cons, ends_solid_app.
      + now exists "["%char, (w ++ String d ti').
      + intros r2 [|f2] _ Hf; [simpl in Hf; lia|].
        simpl append. rewrite scan_once_S, Eq, Eo, Ascii.eqb_refl.
        rewrite append_assoc. simpl append. rewrite Hskip.
        rewrite startswith_char, Ec.
        change (String d (ti' ++ r2)) with (String d ti' ++ r2).
        rewrite Hli; [reflexivity|].
        simpl in Hf. rewrite length_append in Hf. simpl in Hf |- *. lia. }
  (* an atom *)
  destruct (scan_atom_local _ H) as [t [E [Ht [[d [t' [-> Hd]]] Hl]]]].
  simpl append in E. injection E as <- E.
  exists (String c t'). repeat split.
  - now rewrite E.
  - exact Ht.
  - now exists c, t'.
  - intros r2 [|f2] Hr2 Hf; [simpl in Hf; lia|].
    simpl append. rewrite scan_once_S, Eq, Eo, Ea. exact (Hl _ Hr2).
Qed.

Lemma items_step (f : nat) :
  value_local f -> items_local f -> items_local (S f).
Proof.
  intros Hv Hi s vs r H. rewrite array_items_S in H.
  destruct (json.scan_once f s) as [[v r1]|] eqn:Ev; [|discriminate].
  destruct (Hv _ _ _ Ev) as [tv [-> [Htv [Hhv Hlv]]]].
  destruct (json.skip_ws r1) as [|d r'] eqn:Ew; [discriminate|].
  destruct (skip_ws_cases _ Ew) as [w [-> [Hw [Hd Hskip]]]].
  assert (Hhead : forall x, head_solid (tv ++ x)).
  { intros x. destruct Hhv as [c [t' [-> Hc]]]. now exists c, (t' ++ x). }
  destruct (Ascii.eqb d "]") eqn:Ec.
  - injection H as <- <-. apply Ascii.eqb_eq in Ec. subst d.
    exists (tv ++ w ++ "]"). repeat split.
    + now norm_app.
    + apply ends_solid_app, ends_solid_app. now apply ends_solid_char.
    + apply Hhead.
    + intros r2 [|f2] Hf; [lens Hf; lia|].
      norm_app. rewrite array_items_S.
      rewrite Hlv.
      * now rewrite Hskip, Ascii.eqb_refl.
      * now apply delim_spaces.
      * lens Hf. lia.
  - destruct (Ascii.eqb d ",") eqn:Ed; [|discriminate].
    apply Ascii.eqb_eq in Ed. subst d.
    destruct (json.array_items f (json.skip_ws r')) as [[vs' r'']|] eqn:Ei;
      [|discriminate].
    injection H as <- <-.
    destruct (Hi _ _ _ Ei) as [ti [E [Hti [[e [ti' [-> He]]] Hli]]]].
    simpl append in E.
    destruct (skip_ws_cases _ E) as [w' [-> [Hw' [Hew Hskip']]]].
    exists (tv ++ w ++ String "," (w' ++ String e ti')). repeat split.
    + now norm_app.
    + now apply ends_solid_app, ends_solid_app, ends_solid_cons, ends_solid_app.
    + apply Hhead.
    + intros r2 [|f2] Hf; [lens Hf; lia|].
      norm_app. rewrite array_items_S.
      lens Hf.
      rewrite Hlv; [|now apply delim_spaces|lia].
      rewrite Hskip, Ec, Ascii.eqb_refl, Hskip'.
      change (String e (ti' ++ r2)) with (String e ti' ++ r2).
      rewrite Hli; [reflexivity|]. simpl. lia.
Qed.

Lemma pairs_step (f : nat) :
  value_local f -> pairs_local f -> pairs_local (S f).
Proof.
  intros Hv Hp s ps r H. rewrite object_pairs_S in H.
  destruct (json.scanstring s) as [[key r1]|] eqn:Ek; [|discriminate].
  destruct (scanstring_local _ Ek) as [q [-> [Hq Hlq]]].
  destruct (json.skip_ws r1) as [|d r1'] eqn:Ew1; [discriminate|].
  destruct (skip_ws_cases _ Ew1) as [w1 [-> [Hw1 [Hd Hskip1]]]].
  destruct (Ascii.eqb d ":") eqn:Ec; [|discriminate].
  apply Ascii.eqb_eq in Ec. subst d.
  destruct (json.scan_once f (json.skip_ws r1')) as [[v r2']|] eqn:Ev;
    [|discriminate].
  destruct (Hv _ _ _ Ev) as [tv [E [Htv [[c [tv' [-> Hc]]] Hlv]]]].
  simpl append in E.
  destruct (skip_ws_cases _ E) as [w2 [-> [Hw2 [Hcw Hskip2]]]].
  destruct (json.skip_ws r2') as [|e r3] eqn:Ew3; [discriminate|].
  destruct (skip_ws_cases _ Ew3) as [w3 [-> [Hw3 [He Hskip3]]]].
  destruct (Ascii.eqb e "}") eqn:Ee.
  - injection H as <- <-. apply Ascii.eqb_eq in Ee. subst e.
    exists (q ++ w1 ++ String ":" (w2 ++ String c tv' ++ w3 ++ "}")).
    repeat split.
    + now norm_app.
    + apply ends_solid_app, ends_solid_app, ends_solid_cons, ends_solid_app.
      apply (ends_solid_app (String c tv')), ends_solid_app.
      now apply ends_solid_char.
    + intros r2 [|f2] Hf;
        [lens Hf; pose proof (ends_solid_length Hq); lia|].
      norm_app. rewrite object_pairs_S, Hlq, Hskip1, Ascii.eqb_refl, Hskip2.
      change (String c (tv' ++ w3 ++ String "}" r2))
        with (String c tv' ++ w3 ++ String "}" r2).
      lens Hf.
      rewrite Hlv; [|now apply delim_spaces|simpl; lia].
      now rewrite Hskip3, Ascii.eqb_refl.
  - destruct (Ascii.eqb e ",") eqn:Ed; [|discriminate].
    apply Ascii.eqb_eq in Ed. subst e.
    destruct (json.skip_ws r3) as [|k r4] eqn:Ew4; [discriminate|].
    destruct (skip_ws_cases _ Ew4) as [w4 [-> [Hw4 [Hk Hskip4]]]].
    destruct (Ascii.eqb k json.DQ) eqn:Eq; [|discriminate].
    apply Ascii.eqb_eq in Eq. subst k.
    destruct (json.object_pairs f r4) as [[ps' r5]|] eqn:Eps; [|discriminate].
    injection H as <- <-.
    destruct (Hp _ _ _ Eps) as [tp [-> [Htp Hlp]]].
    exists (q ++ w1 ++ String ":" (w2 ++ String c tv' ++ w3
                 ++ String "," (w4 ++ String json.DQ tp))).
    repeat split.
    + now norm_app.
    + apply ends_solid_app, ends_solid_app, ends_solid_cons, ends_solid_app.
      apply (ends_solid_app (String c tv')), ends_solid_app.
      now apply ends_solid_cons, ends_solid_app, ends_solid_cons.
    + intros r2 [|f2] Hf;
        [lens Hf; pose proof (ends_solid_length Hq); lia|].
      norm_app. rewrite object_pairs_S, Hlq, Hskip1, Ascii.eqb_refl, Hskip2.
      change (String c (tv' ++ w3 ++ String "," (w4 ++ String json.DQ (tp ++ r2))))
        with (String c tv' ++ w3 ++ String "," (w4 ++ String json.DQ (tp ++ r2))).
      lens Hf.
      rewrite Hlv; [|now apply delim_spaces|simpl; lia].
      rewrite Hskip3, Ee, Ascii.eqb_refl, Hskip4, Ascii.eqb_refl.
      rewrite Hlp; [reflexivity|lia].
Qed.

Lemma decoder_local (f : nat) : value_local f /\ items_local f /\ pairs_local f.
Proof.
  induction f as [|f [Hv [Hi Hp]]].
  - repeat split; intros s x r H; discriminate.
  - repeat split.
    + now apply value_step.
    + now apply items_step.
    + now apply pairs_step.
Qed.


Lemma loads_of_shape (w t r : string) (v : JSON) :
  all_chars json.is_ws w = true -> all_chars json.is_ws r = true ->
  head_solid t ->
  (forall r2 f2,
      delim r2 = true -> 2 * String.length t <= f2 ->
      json.scan_once f2 (t ++ r2) = Some (v, r2)) ->
  json.loads (w ++ t ++ r) = Some v.
Proof.
  intros Hw Hr [c [t' [-> Hc]]] Hl. unfold json.loads.
  rewrite skip_ws_app by exact Hw.
  change (String c t' ++ r) with (String c (t' ++ r)).
  rewrite skip_ws_solid by (now apply is_ws_solid).
  change (String c (t' ++ r)) with (String c t' ++ r).
  rewrite Hl.
  - rewrite <- (append_nil_r r) at 1. rewrite skip_ws_app by exact Hr. reflexivity.
  - destruct r as [|x r]; [reflexivity|]. simpl in Hr |- *.
    apply andb_prop in Hr. now apply delim_ws.
  - rewrite !length_append. lia.
Qed.


(** The fuel of [json.loads] is enough: a value that some fuel reads from
    the document, with only whitespace after, is the value [json.loads]
    returns. *)
Lemma loads_fuel (s : string) (fuel : nat) (v : JSON) (r : string) :
  json.scan_once fuel (json.skip_ws s) = Some (v, r) ->
  json.skip_ws r = EmptyString ->
  json.loads s = Some v.
Proof.
  intros E Er.
  destruct (decoder_local fuel) as [Hv _].
  destruct (Hv _ _ _ E) as [t [Et [Hs [Hh Hl]]]].
  destruct (skip_ws_spec s) as [w [Ew Hw]].
  rewrite Ew, Et. apply loads_of_shape; auto. now apply skip_ws_empty.
Qed.





(** ** The matcher against the declarative reading of the patterns *)

Lemma consumed_append (t s : string) : re.consumed (t ++ s) s = t.
Proof.
  unfold re.consumed. rewrite length_append.
  replace (String.length t + String.length s - String.length s)
    with (String.length t) by lia.
  induction t as [|c t IH]; simpl.
  - destruct s; reflexivity.
  - now rewrite IH.
Qed.

Section MatcherFacts.

Variable R : Type.

Lemma star_sound (p : ascii -> bool) (s : string) :
  forall prev (k : option ascii -> string -> option R) x,
    re.star p prev s k = Some x ->
    exists t s',
      s = t ++ s' /\ all_chars p t = true /\ k (last_of prev t) s' = Some x.
Proof.
  induction s as [|c r IH]; intros prev k x H; simpl in H.
  - exists EmptyString, EmptyString. now repeat split.
  - destruct (p c) eqn:Ep.
    + destruct (re.star p (Some c) r k) as [y|] eqn:E.
      * injection H as ->. destruct (IH _ _ _ E) as [t [s' [-> [Ha Hk]]]].
        exists (String c t), s'. simpl. rewrite Ep. now repeat split.
      * exists EmptyString, (String c r). now repeat split.
    + exists EmptyString, (String c r). now repeat split.
Qed.

Lemma star_complete (p : ascii -> bool) (t : string) :
  forall prev s' (k : option ascii -> string -> option R),
    all_chars p t = true ->
    k (last_of prev t) s' <> None ->
    re.star p prev (t ++ s') k <> None.
Proof.
  induction t as [|c t IH]; intros prev s' k Ha Hk; simpl in *.
  - destruct s' as [|c r]; simpl; [exact Hk|].
    destruct (p c); [|exact Hk].
    destruct (re.star p (Some c) r k); [discriminate|exact Hk].
  - apply andb_prop in Ha. destruct Ha as [Hc Ha]. rewrite Hc.
    specialize (IH (Some c) s' k Ha Hk).
    destruct (re.star p (Some c) (t ++ s') k); [discriminate|contradiction].
Qed.

(** Every result of the matcher comes from a text the pattern accepts. *)
Lemma run_sound (r : re.regex) :
  forall prev s g (k : re.cont R) x,
    re.run r prev s g k = Some x ->
    exists t s' g',
      s = t ++ s' /\ sem r prev t s' g g' /\ k (last_of prev t) s' g' = Some x.
Proof.
  induction r as [|p|a IHa b IHb|a IHa b IHb|a IHa|p| | | |a IHa];
    intros prev s g k x H; simpl in H.
  - exists EmptyString, s, g. now repeat split.
  - destruct s as [|c s']; [discriminate|].
    destruct (p c) eqn:Ep; [|discriminate].
    exists (String c EmptyString), s', g. repeat split; [|exact H].
    now exists c.
  - destruct (IHa _ _ _ _ _ H) as [t1 [s1 [g1 [-> [Ha H1]]]]].
    destruct (IHb _ _ _ _ _ H1) as [t2 [s2 [g2 [-> [Hb H2]]]]].
    exists (t1 ++ t2), s2, g2. repeat split.
    + now rewrite append_assoc.
    + simpl. now exists t1, t2, g1.
    + now rewrite last_of_append.
  - destruct (re.run a prev s g k) as [y|] eqn:E.
    + injection H as ->. destruct (IHa _ _ _ _ _ E) as [t [s' [g' [-> [Ha Hk]]]]].
      exists t, s', g'. repeat split; [now left|exact Hk].
    + destruct (IHb _ _ _ _ _ H) as [t [s' [g' [-> [Hb Hk]]]]].
      exists t, s', g'. repeat split; [now right|exact Hk].
  - destruct (re.run a prev s g k) as [y|] eqn:E.
    + injection H as ->. destruct (IHa _ _ _ _ _ E) as [t [s' [g' [-> [Ha Hk]]]]].
      exists t, s', g'. repeat split; [now left|exact Hk].
    + exists EmptyString, s, g. repeat split; [now right|exact H].
  - destruct (star_sound _ _ _ _ H) as [t [s' [-> [Ha Hk]]]].
    exists t, s', g. now repeat split.
  - destruct (re.at_bol prev) eqn:E; [|discriminate].
    exists EmptyString, s, g. now repeat split.
  - destruct (re.at_eol s) eqn:E; [|discriminate].
    exists EmptyString, s, g. now repeat split.
  - destruct (re.at_eol_end s) eqn:E; [|discriminate].
    exists EmptyString, s, g. now repeat split.
  - destruct (IHa _ _ _ _ _ H) as [t [s' [g' [-> [Ha Hk]]]]].
    exists t, s', (Some t). repeat split.
    + now exists g'.
    + now rewrite consumed_append in Hk.
Qed.

(** When the pattern accepts a text after which the continuation succeeds,
    the matcher succeeds, with that text or one of higher priority. *)
Lemma run_complete (r : re.regex) :
  forall prev t s' g g' (k : re.cont R),
    sem r prev t s' g g' ->
    k (last_of prev t) s' g' <> None ->
    re.run r prev (t ++ s') g k <> None.
Proof.
  induction r as [|p|a IHa b IHb|a IHa b IHb|a IHa|p| | | |a IHa];
    intros prev t s' g g' k Hs Hk; simpl in Hs |- *.
  - destruct Hs as [-> ->]. exact Hk.
  - destruct Hs as [c [-> [Hc ->]]]. simpl. now rewrite Hc.
  - destruct Hs as [t1 [t2 [g1 [-> [Ha Hb]]]]]. rewrite append_assoc.
    apply (IHa _ _ _ _ g1); [exact Ha|].
    apply (IHb _ _ _ _ g'); [exact Hb|]. now rewrite <- last_of_append.
  - destruct Hs as [Ha|Hb].
    + specialize (IHa _ _ _ _ _ k Ha Hk).
      destruct (re.run a prev (t ++ s') g k); [discriminate|contradiction].
    + destruct (re.run a prev (t ++ s') g k); [discriminate|].
      exact (IHb _ _ _ _ _ k Hb Hk).
  - destruct Hs as [Ha|[-> ->]].
    + specialize (IHa _ _ _ _ _ k Ha Hk).
      destruct (re.run a prev (t ++ s') g k); [discriminate|contradiction].
    + simpl. destruct (re.run a prev s' g k); [discriminate|exact Hk].
  - destruct Hs as [Ha ->]. now apply star_complete.
  - destruct Hs as [-> [-> Hb]]. simpl. now rewrite Hb.
  - destruct Hs as [-> [-> Hb]]. simpl. now rewrite Hb.
  - destruct Hs as [-> [-> Hb]]. simpl. now rewrite Hb.
  - destruct Hs as [[g1 Ha] ->].
    apply (IHa _ _ _ _ g1); [exact Ha|]. now rewrite consumed_append.
Qed.

End MatcherFacts.

Lemma match_at_sound (r : re.regex) (prev : option ascii) (s : string)
      (adv : bool) (m : re.Match) :
  re.match_at r prev s adv = Some m ->
  s = re.text m ++ re.rest_after m /\
  sem r prev (re.text m) (re.rest_after m) None (re.group m) /\
  re.prev_after m = last_of prev (re.text m).
Proof.
  unfold re.match_at. intros H.
  destruct (run_sound _ _ _ _ _ H) as [t [s' [g' [-> [Hs Hk]]]]].
  destruct (adv && _); [discriminate|].
  injection Hk as <-. simpl. rewrite consumed_append. now repeat split.
Qed.

Lemma match_at_complete (r : re.regex) (prev : option ascii) (t s' : string)
      (g' : option string) :
  sem r prev t s' None g' ->
  exists m, re.match_at r prev (t ++ s') false = Some m.
Proof.
  intros Hs. unfold re.match_at.
  destruct (re.run r prev (t ++ s') None _) as [m|] eqn:E; [now exists m|].
  exfalso. revert E. eapply run_complete; [exact Hs|discriminate].
Qed.

Lemma match_at_advance (r : re.regex) (prev : option ascii) (s : string)
      (m : re.Match) :
  re.match_at r prev s true = Some m -> re.text m <> EmptyString.
Proof.
  unfold re.match_at. intros H.
  destruct (run_sound _ _ _ _ _ H) as [t [s' [g' [-> [_ Hk]]]]].
  simpl in Hk. rewrite length_append in Hk.
  destruct (Nat.eqb_spec (String.length s') (String.length t + String.length s'))
    as [E|E]; [discriminate|].
  injection Hk as <-. simpl. rewrite consumed_append.
  intros ->. simpl in E. lia.
Qed.

Lemma search_from_eq (r : re.regex) (prev : option ascii) (s : string) (adv : bool) :
  re.search_from r prev s adv =
  match re.match_at r prev s adv with
  | Some m => Some (EmptyString, m)
  | None =>
      match s with
      | String c s' =>
          match re.search_from r (Some c) s' false with
          | Some (skipped, m) => Some (String c skipped, m)
          | None => None
          end
      | EmptyString => None
      end
  end.
Proof. destruct s; reflexivity. Qed.

Lemma search_from_sound (r : re.regex) (s : string) :
  forall prev adv skipped m,
    re.search_from r prev s adv = Some (skipped, m) ->
    s = skipped ++ re.text m ++ re.rest_after m /\
    sem r (last_of prev skipped) (re.text m) (re.rest_after m) None (re.group m) /\
    re.prev_after m = last_of (last_of prev skipped) (re.text m).
Proof.
  induction s as [|c s' IH]; intros prev adv skipped m H;
    rewrite search_from_eq in H;
    destruct (re.match_at r prev _ adv) as [m0|] eqn:E.
  - injection H as <- <-. now apply match_at_sound in E.
  - discriminate.
  - injection H as <- <-. now apply match_at_sound in E.
  - destruct (re.search_from r (Some c) s' false) as [[sk m1]|] eqn:E1;
      [|discriminate].
    injection H as <- <-. destruct (IH _ _ _ _ E1) as [-> [Hs Hp]].
    now repeat split.
Qed.

Lemma search_from_measure (r : re.regex) (s : string) :
  forall prev adv skipped m,
    re.search_from r prev s adv = Some (skipped, m) ->
    scan_measure (re.rest_after m) (negb (Py.nonempty (re.text m)))
    < scan_measure s adv.
Proof.
  induction s as [|c s' IH]; intros prev adv skipped m H;
    rewrite search_from_eq in H;
    destruct (re.match_at r prev _ adv) as [m0|] eqn:E.
  - injection H as <- <-.
    destruct (match_at_sound _ _ _ _ E) as [Es _].
    destruct adv.
    + apply match_at_advance in E.
      destruct (re.text m0); [contradiction|discriminate].
    + destruct (re.text m0), (re.rest_after m0); try discriminate.
      unfold scan_measure. simpl. lia.
  - discriminate.
  - injection H as <- <-.
    destruct (match_at_sound _ _ _ _ E) as [Es _].
    apply (f_equal String.length) in Es. rewrite length_append in Es.
    unfold scan_measure. destruct adv.
    + apply match_at_advance in E.
      destruct (re.text m0); [contradiction|]. simpl in Es |- *. lia.
    + destruct (re.text m0); simpl in Es |- *; lia.
  - destruct (re.search_from r (Some c) s' false) as [[sk m1]|] eqn:E1;
      [|discriminate].
    injection H as <- <-. specialize (IH _ _ _ _ E1).
    unfold scan_measure in *. simpl String.length. destruct adv; lia.
Qed.

Lemma scan_sound (fuel : nat) (r : re.regex) :
  forall prev s adv ms tail,
    re.scan fuel r prev s adv = (ms, tail) ->
    s = rebuild ms tail /\ located r prev ms tail.
Proof.
  induction fuel as [|f IH]; intros prev s adv ms tail H; simpl in H.
  - injection H as <- <-. now split.
  - destruct (re.search_from r prev s adv) as [[sk m]|] eqn:E.
    + destruct (re.scan f r (re.prev_after m) (re.rest_after m) _)
        as [ms' tail'] eqn:E'.
      injection H as <- <-.
      destruct (search_from_sound _ _ _ _ E) as [-> [Hs Hp]].
      destruct (IH _ _ _ _ _ E') as [Hr Hl]. simpl.
      rewrite <- Hr, <- Hp. now repeat split.
    + injection H as <- <-. now split.
Qed.

Lemma scan_fuel (r : re.regex) (n : nat) :
  forall s prev adv f1 f2,
    scan_measure s adv <= n ->
    scan_measure s adv <= f1 -> scan_measure s adv <= f2 ->
    re.scan f1 r prev s adv = re.scan f2 r prev s adv.
Proof.
  induction n as [|n IH]; intros s prev adv f1 f2 Hn H1 H2.
  - unfold scan_measure in Hn. destruct adv; lia.
  - destruct f1 as [|f1]; [unfold scan_measure in H1; destruct adv; lia|].
    destruct f2 as [|f2]; [unfold scan_measure in H2; destruct adv; lia|].
    simpl. destruct (re.search_from r prev s adv) as [[sk m]|] eqn:E;
      [|reflexivity].
    apply search_from_measure in E.
    rewrite (IH _ (re.prev_after m) _ f1 f2); [reflexivity|lia..].
Qed.

(** More fuel than [re.matches] takes changes nothing. *)
Lemma matches_fuel (r : re.regex) (s : string) (fuel : nat) :
  2 * String.length s + 2 <= fuel ->
  re.scan fuel r None s false = re.matches r s.
Proof.
  intros H. unfold re.matches.
  apply (scan_fuel r (n := scan_measure s false)); unfold scan_measure; lia.
Qed.

Lemma located_nth (r : re.regex) (ms : list (string * re.Match)) (tail : string) :
  forall prev i skipped m,
    located r prev ms tail ->
    nth_error ms i = Some (skipped, m) ->
    exists before after,
      rebuild ms tail = before ++ re.text m ++ after /\
      sem r (last_of prev before) (re.text m) after None (re.group m).
Proof.
  induction ms as [|[sk0 m0] ms IH]; intros prev i skipped m Hl Hn.
  - destruct i; discriminate.
  - destruct Hl as [Hs Hl]. destruct i as [|i]; simpl in Hn.
    + injection Hn as <- <-. exists sk0, (rebuild ms tail). now split.
    + destruct (IH _ _ _ _ Hl Hn) as [before [after [Hr Hsem]]].
      exists (sk0 ++ re.text m0 ++ before), after. split.
      * simpl. rewrite Hr. now rewrite !append_assoc.
      * now rewrite !last_of_append.
Qed.

(** Every match that [re.matches] reports stands in the subject, after some
    text and before some text, and the pattern accepts it there. *)
Lemma matches_sound (r : re.regex) (s : string) (ms : list (string * re.Match))
      (tail : string) (i : nat) (skipped : string) (m : re.Match) :
  re.matches r s = (ms, tail) ->
  nth_error ms i = Some (skipped, m) ->
  exists before after,
    s = before ++ re.text m ++ after /\
    sem r (last_of None before) (re.text m) after None (re.group m).
Proof.
  intros H Hn. apply scan_sound in H. destruct H as [-> Hl].
  eapply located_nth; eassumption.
Qed.

Lemma split_no_match (r : re.regex) (s : string) :
  re.search r s = false -> re.split r s = [s].
Proof.
  unfold re.search, re.split, re.matches. intros H.
  replace (2 * String.length s + 2) with (S (2 * String.length s + 1)) by lia.
  simpl. destruct (re.search_from r None s false); [discriminate|reflexivity].
Qed.

Lemma matches_at_start (r : re.regex) (t rest : string) (g : option string) :
  sem r None t rest None g ->
  exists m ms tail, re.matches r (t ++ rest) = ((EmptyString, m) :: ms, tail).
Proof.
  intros Hs. destruct (match_at_complete _ _ _ _ _ Hs) as [m Hm].
  unfold re.matches.
  replace (2 * String.length (t ++ rest) + 2)
    with (S (2 * String.length (t ++ rest) + 1)) by lia.
  simpl re.scan. rewrite search_from_eq, Hm.
  destruct (re.scan _ r (re.prev_after m) (re.rest_after m) _) as [ms tail].
  now exists m, ms, tail.
Qed.

Lemma sem_str (w : string) :
  forall prev t after g g',
    sem (re.str w) prev t after g g' -> t = w /\ g' = g.
Proof.
  induction w as [|c w IH]; intros prev t after g g'; simpl.
  - tauto.
  - intros [t1 [t2 [g1 [-> [[x [-> [Hx ->]]] H]]]]].
    apply Ascii.eqb_eq in Hx. subst x.
    destruct (IH _ _ _ _ _ H) as [-> ->]. now split.
Qed.

Lemma sem_str_complete (w : string) :
  forall prev after g, sem (re.str w) prev w after g g.
Proof.
  induction w as [|c w IH]; intros prev after g; simpl; [tauto|].
  exists (String c EmptyString), w, g. repeat split; [|apply IH].
  exists c. repeat split. apply Ascii.eqb_refl.
Qed.

Lemma sem_stri (w : string) :
  forall prev t after g g',
    sem (re.stri w) prev t after g g' -> Py.lower t = Py.lower w /\ g' = g.
Proof.
  induction w as [|c w IH]; intros prev t after g g'; simpl.
  - intros [-> ->]. now split.
  - intros [t1 [t2 [g1 [-> [[x [-> [Hx ->]]] H]]]]].
    apply Ascii.eqb_eq in Hx.
    destruct (IH _ _ _ _ _ H) as [E ->]. simpl. now rewrite Hx, E.
Qed.

Lemma sem_stri_complete (w : string) :
  forall prev t after g,
    Py.lower t = Py.lower w -> sem (re.stri w) prev t after g g.
Proof.
  induction w as [|c w IH]; intros prev t after g E; destruct t as [|x t];
    try discriminate; simpl in E |- *; [tauto|].
  injection E as Ex E.
  exists (String x EmptyString), t, g. repeat split; [|now apply IH].
  exists x. repeat split. now apply Ascii.eqb_eq.
Qed.

Lemma sem_alt_stri (ws : list string) :
  forall w prev t after g g',
    sem (re.alt (re.stri w) (map re.stri ws)) prev t after g g' ->
    (exists w', In w' (w :: ws) /\ Py.lower t = Py.lower w') /\ g' = g.
Proof.
  induction ws as [|w1 ws IH]; intros w prev t after g g' H; simpl in H.
  - apply sem_stri in H. destruct H as [E ->]. split; [|reflexivity].
    exists w. split; [now left|exact E].
  - destruct H as [H|H].
    + apply sem_stri in H. destruct H as [E ->]. split; [|reflexivity].
      exists w. split; [now left|exact E].
    + destruct (IH _ _ _ _ _ _ H) as [[w' [Hin E]] ->]. split; [|reflexivity].
      exists w'. split; [now right|exact E].
Qed.

Lemma sem_alt_stri_complete (ws : list string) :
  forall w w' prev t after g,
    In w' (w :: ws) -> Py.lower t = Py.lower w' ->
    sem (re.alt (re.stri w) (map re.stri ws)) prev t after g g.
Proof.
  induction ws as [|w1 ws IH]; intros w w' prev t after g Hin E; simpl.
  - destruct Hin as [->|[]]. now apply sem_stri_complete.
  - destruct Hin as [->|Hin]; [left; now apply sem_stri_complete|].
    right. now apply (IH w1 w').
Qed.

Lemma last_of_bol (before : string) :
  forall prev,
    re.at_bol (last_of prev before) = true ->
    (before = EmptyString /\ re.at_bol prev = true) \/
    exists b, before = b ++ Py.newline.
Proof.
  induction before as [|c r IH]; intros prev H; simpl in H; [now left|].
  right. destruct (IH _ H) as [[-> Hc]|[b ->]].
  - exists EmptyString. simpl in Hc. apply Ascii.eqb_eq in Hc. now subst c.
  - now exists (String c b).
Qed.

(** ** Session assembly *)

Section AssemblyFacts.

Context {builtins : Builtins}.

Lemma parse_session_blank (content source : string) :
  Py.strip content = EmptyString ->
  parse_session content source = inl (ParseError "Empty session log").
Proof.
  intros E. unfold parse_session. rewrite blank_test, E. reflexivity.
Qed.

Lemma parse_session_dispatch (content source : string) :
  Py.strip content <> EmptyString ->
  parse_session content source =
  match parser_map (detect_format content) content with
  | inl e => inl e
  | inr [] => inl (ParseError (no_messages_error (detect_format content)))
  | inr (m :: ms) => inr (mkSession (m :: ms) source (detect_format content))
  end.
Proof.
  intros E. unfold parse_session. rewrite blank_test.
  apply nonempty_true in E. rewrite E. simpl.
  destruct (parser_map (detect_format content) content) as [e|[|m ms]];
    reflexivity.
Qed.

(** C1, as amended.  [parse_session] never returns a session without
    messages: a returned session carries the messages of the parser
    selected for the detected format, at least one, with the source label
    and the format.  It raises [ParseError] exactly in three cases: the
    content is empty or only whitespace; the selected parser raises a
    [ParseError] of its own, which is passed on; the selected parser returns
    no message, and then the text of the error names the tag of the
    detected format. *)
Theorem C1_parse_session_outcomes (content source : string) :
  (forall s, parse_session content source = inr s ->
     messages s <> [] /\
     Py.strip content <> EmptyString /\
     parser_map (detect_format content) content = inr (messages s) /\
     s = mkSession (messages s) source (detect_format content)) /\
  (forall msg, parse_session content source = inl (ParseError msg) <->
     (Py.strip content = EmptyString /\ msg = "Empty session log") \/
     (Py.strip content <> EmptyString /\
      parser_map (detect_format content) content = inl (ParseError msg)) \/
     (Py.strip content <> EmptyString /\
      parser_map (detect_format content) content = inr [] /\
      msg = "No messages found in session log (detected format: "
            ++ format_tag (detect_format content) ++ ")")).
Proof.
  destruct (string_dec (Py.strip content) EmptyString) as [E|E].
  - rewrite (parse_session_blank content source E). split.
    + discriminate.
    + intros msg. split.
      * intros H. injection H as <-. now left.
      * intros [[_ ->]|[[N _]|[N _]]]; [reflexivity|contradiction..].
  - rewrite (parse_session_dispatch content source E).
    destruct (parser_map (detect_format content) content) as [e|[|m ms]].
    + split; [discriminate|]. intros msg. split.
      * intros H. injection H as ->. right. left. now split.
      * intros [[N _]|[[_ H]|[_ [H _]]]];
          [contradiction|injection H as ->; reflexivity|discriminate].
    + split; [discriminate|]. intros msg. split.
      * intros H. injection H as <-. right. right. repeat split; assumption.
      * intros [[N _]|[[_ H]|[_ [_ ->]]]];
          [contradiction|discriminate|reflexivity].
    + split.
      * intros s H. injection H as <-. simpl. repeat split; try assumption.
        discriminate.
      * intros msg. split; [discriminate|].
        intros [[N _]|[[_ H]|[_ [H _]]]]; [contradiction|discriminate..].
Qed.

End AssemblyFacts.

(** ** The narrative parsers keep no empty body *)

Lemma text_messages_content (parts : list string) :
  forall messages,
    Forall has_content messages ->
    Forall has_content (text_messages parts messages) /\
    forall raw_role, Forall has_content (text_messages (raw_role :: parts) messages).
Proof.
  induction parts as [|body parts IH]; intros messages Hm.
  - split; [exact Hm|]. intros raw_role. exact Hm.
  - split.
    + apply IH. exact Hm.
    + intros raw_role. simpl.
      destruct (Py.nonempty (Py.strip body)) eqn:E.
      * apply IH. apply Forall_snoc; [exact Hm|exact E].
      * apply IH. exact Hm.
Qed.

Lemma nanobot_messages_content (parts : list string) :
  forall messages,
    Forall has_content messages ->
    Forall has_content (nanobot_messages parts messages) /\
    forall raw_role,
      Forall has_content (nanobot_messages (raw_role :: parts) messages).
Proof.
  induction parts as [|body parts IH]; intros messages Hm.
  - split; [exact Hm|]. intros raw_role. exact Hm.
  - split.
    + apply IH. exact Hm.
    + intros raw_role. simpl.
      destruct (Py.nonempty
                  (Py.strip (re.sub_empty separator_tail (Py.strip body)))) eqn:E.
      * apply IH. apply Forall_snoc; [exact Hm|exact E].
      * apply IH. exact Hm.
Qed.

Lemma parse_text_content (content : string) :
  Forall has_content (parse_text content).
Proof.
  unfold parse_text.
  destruct (List.length (re.split role_pattern content) <? 3)%nat.
  - destruct (Py.nonempty (Py.strip content)) eqn:E; repeat constructor.
    exact E.
  - now apply text_messages_content.
Qed.

(** C3, as amended.  Every message that the two narrative parsers emit,
    [parse_text] and [parse_nanobot], has a non-empty content: a body that
    is empty once trimmed gives no message. *)
Theorem C3_narrative_content (input : string) :
  Forall (fun m => Py.nonempty (content m) = true) (parse_text input) /\
  Forall (fun m => Py.nonempty (content m) = true) (parse_nanobot input).
Proof.
  split; [apply parse_text_content|].
  unfold parse_nanobot.
  destruct (nanobot_messages
              (tl (re.split section_pattern (nanobot_body input))) []) eqn:E.
  - apply parse_text_content.
  - rewrite <- E. now apply nanobot_messages_content.
Qed.

(** ** The fallback of the marker-narrative parser *)

Section FallbackFacts.

Context {builtins : Builtins}.

(** C7.  When the sections of the marker-narrative grammar give no message,
    and so when the text after the metadata header has no section marker at
    all, [parse_nanobot] returns what [parse_text] returns on the whole
    content, header included.  Otherwise it returns its own messages.
    [parse_session] tries no second grammar: an exception of the selected
    parser is passed on, and an empty result is an error. *)
Theorem C7_nanobot_fallback (input : string) :
  (nanobot_sections input = [] -> parse_nanobot input = parse_text input) /\
  (re.search section_pattern (nanobot_body input) = false ->
   parse_nanobot input = parse_text input) /\
  (nanobot_sections input <> [] -> parse_nanobot input = nanobot_sections input) /\
  (forall source e,
      Py.strip input <> EmptyString ->
      parser_map (detect_format input) input = inl e ->
      parse_session input source = inl e) /\
  (forall source,
      Py.strip input <> EmptyString ->
      parser_map (detect_format input) input = inr [] ->
      parse_session input source =
      inl (ParseError (no_messages_error (detect_format input)))).
Proof.
  assert (Hempty : nanobot_sections input = [] ->
                   parse_nanobot input = parse_text input).
  { unfold parse_nanobot, nanobot_sections. now intros ->. }
  repeat apply conj.
  - exact Hempty.
  - intros H. apply Hempty. unfold nanobot_sections.
    now rewrite (split_no_match _ _ H).
  - unfold parse_nanobot, nanobot_sections.
    destruct (nanobot_messages _ []); [congruence|reflexivity].
  - intros source e N H. now rewrite (parse_session_dispatch _ source N), H.
  - intros source N H. now rewrite (parse_session_dispatch _ source N), H.
Qed.

End FallbackFacts.

(** ** The line-delimited test of the detector *)

Lemma count_jsonl_spec (lines : list string) :
  forall n,
    count_jsonl lines n = n + List.length (filter is_mapping (read_lines lines)).
Proof.
  induction lines as [|l ls IH]; intros n; simpl; [lia|].
  assert (Hb : is_blank l = negb (Py.nonempty (Py.strip l))) by reflexivity.
  assert (Hd : decodes l = match json.loads (Py.strip l) with
                           | Some _ => true | None => false end) by reflexivity.
  assert (Hm : is_mapping l = match json.loads (Py.strip l) with
                              | Some (JObj _) => true | _ => false end)
    by reflexivity.
  destruct (Py.nonempty (Py.strip l)) eqn:Eb; rewrite Hb; simpl negb; simpl orb.
  - rewrite Hd.
    destruct (json.loads (Py.strip l)) as [v|]; [|simpl; lia].
    simpl filter. rewrite Hm.
    destruct v; rewrite IH; simpl; lia.
  - simpl filter. rewrite Hm.
    apply nonempty_false in Eb. rewrite Eb.
    change (json.loads EmptyString) with (@None JSON). apply IH.
Qed.


(** ** Lines of the trimmed content and lines of the content *)

Lemma lines_lstrip (s : string) :
  forall j line,
    nth_error (Py.split_lines (Py.lstrip s)) j = Some line ->
    exists line',
      nth_error (Py.split_lines s) (leading_newlines s + j) = Some line' /\
      Py.strip line' = Py.strip line.
Proof.
  induction s as [|c r IH]; intros j line H.
  - now exists line.
  - simpl Py.lstrip in H. simpl leading_newlines.
    destruct (Py.isspace c) eqn:Ec; [|now exists line].
    destruct (IH j line H) as [l1 [H1 E1]].
    simpl Py.split_lines. destruct (Ascii.eqb c Py.NL).
    + exists l1. split; [exact H1|exact E1].
    + destruct (split_lines_cons r) as [l [ls E]]. rewrite E in *.
      simpl Nat.add.
      destruct (leading_newlines r + j) as [|n].
      * simpl in H1 |- *. injection H1 as <-.
        exists (String c l). split; [reflexivity|].
        now rewrite strip_cons_space.
      * exists l1. split; [exact H1|exact E1].
Qed.

Lemma lines_rstrip (s : string) :
  forall j line,
    nth_error (Py.split_lines (Py.rstrip s)) j = Some line ->
    exists line',
      nth_error (Py.split_lines s) j = Some line' /\
      Py.rstrip line' = Py.rstrip line.
Proof.
  induction s as [|c r IH]; intros j line H.
  - now exists line.
  - simpl Py.rstrip in H. simpl Py.split_lines.
    destruct (split_lines_cons r) as [l [ls E]]. rewrite E in *.
    destruct (Py.rstrip r) as [|d r'] eqn:Er.
    + destruct (IH 0 EmptyString eq_refl) as [l0 [H0 E0]].
      simpl in H0. injection H0 as <-.
      destruct (Py.isspace c) eqn:Ec.
      * destruct j as [|j]; [|destruct j; discriminate].
        simpl in H. injection H as <-.
        destruct (Ascii.eqb c Py.NL); [now exists EmptyString|].
        exists (String c l). split; [reflexivity|].
        simpl. simpl in E0. now rewrite E0, Ec.
      * destruct (Ascii.eqb c Py.NL) eqn:En;
          [apply isspace_NL in En; congruence|].
        simpl in H. rewrite En in H.
        destruct j as [|j]; [|destruct j; discriminate].
        simpl in H. injection H as <-.
        exists (String c l). split; [reflexivity|].
        now apply rstrip_cons.
    + rewrite split_lines_String in H.
      destruct (Ascii.eqb c Py.NL).
      * destruct j as [|j].
        -- simpl in H. injection H as <-. now exists EmptyString.
        -- simpl in H |- *. exact (IH j line H).
      * destruct (split_lines_cons (String d r')) as [l1 [ls1 E1]].
        rewrite E1 in *.
        destruct j as [|j].
        -- simpl in H. injection H as <-.
           destruct (IH 0 l1 eq_refl) as [l2 [H2 E2]].
           simpl in H2. injection H2 as <-.
           exists (String c l). split; [reflexivity|].
           now apply rstrip_cons.
        -- simpl in H |- *. exact (IH (S j) line H).
Qed.

Lemma leading_newlines_rstrip (s : string) :
  Py.rstrip s <> EmptyString ->
  leading_newlines (Py.rstrip s) = leading_newlines s.
Proof.
  induction s as [|c r IH]; intros N; [reflexivity|].
  simpl in N |- *.
  destruct (Py.rstrip r) as [|d r'] eqn:Er.
  - destruct (Py.isspace c) eqn:Ec; [contradiction|].
    simpl. now rewrite Ec.
  - simpl. destruct (Py.isspace c); [|reflexivity].
    f_equal. apply IH. discriminate.
Qed.

(** Line [j] of the trimmed content is line [leading_newlines + j] of the
    content, up to the whitespace around it. *)
Lemma lines_strip (s : string) (j : nat) (line : string) :
  Py.strip s <> EmptyString ->
  nth_error (Py.split_lines (Py.strip s)) j = Some line ->
  exists line',
    nth_error (Py.split_lines s) (leading_newlines s + j) = Some line' /\
    Py.strip line' = Py.strip line.
Proof.
  intros N H. unfold Py.strip in H.
  destruct (lines_lstrip _ _ H) as [l1 [H1 E1]].
  destruct (lines_rstrip _ _ H1) as [l2 [H2 E2]].
  exists l2. split.
  - rewrite <- leading_newlines_rstrip; [exact H2|].
    intros E. apply N. unfold Py.strip. now rewrite E.
  - rewrite <- E1. now apply rstrip_strip.
Qed.

(** ** The line-delimited parser *)

Lemma get_role_error (item : dict JSON) (e : exn) :
  get_role item = inl e -> e = AttributeError.
Proof.
  unfold get_role. destruct (dict_get item "role") as [[]|]; simpl;
    intros H; now inversion H.
Qed.

Section JsonlFacts.

Context {builtins : Builtins}.

(** The only [ParseError] of the loop is the one of a line that does not
    decode, and it cites the number the loop has reached. *)
Lemma parse_jsonl_lines_error (lines : list string) :
  forall lineno messages msg,
    parse_jsonl_lines lineno lines messages = inl (ParseError msg) ->
    exists i line,
      nth_error lines i = Some line /\
      Py.strip line <> EmptyString /\
      json.loads (Py.strip line) = None /\
      msg = invalid_line_error (lineno + i) (Py.strip line).
Proof.
  induction lines as [|l ls IH]; intros lineno messages msg H; [discriminate|].
  simpl in H.
  assert (Hrec : forall messages',
             parse_jsonl_lines (S lineno) ls messages' = inl (ParseError msg) ->
             exists i line,
               nth_error (l :: ls) i = Some line /\
               Py.strip line <> EmptyString /\
               json.loads (Py.strip line) = None /\
               msg = invalid_line_error (lineno + i) (Py.strip line)).
  { intros messages' H'. destruct (IH _ _ _ H') as [i [line [Hn [Hs [Hl Hm]]]]].
    exists (S i), line. repeat split; try assumption.
    rewrite Hm. f_equal; lia. }
  destruct (Py.nonempty (Py.strip l)) eqn:Eb; simpl in H.
  - destruct (json.loads (Py.strip l)) as [v|] eqn:El.
    + destruct v; try (now apply Hrec in H).
      destruct (get_role fields) as [e|r] eqn:Er; simpl in H.
      * apply get_role_error in Er. subst e. discriminate.
      * now apply Hrec in H.
    + injection H as <-. exists 0, l. repeat split; try assumption.
      * now apply nonempty_true.
      * unfold invalid_line_error. now rewrite Nat.add_0_r.
  - now apply Hrec in H.
Qed.

(** A line that does not decode, reached after lines that pass, raises the
    [ParseError] that cites its place among the lines. *)
Lemma parse_jsonl_lines_malformed (lines : list string) :
  forall lineno messages i line,
    nth_error lines i = Some line ->
    Py.strip line <> EmptyString ->
    json.loads (Py.strip line) = None ->
    Forall line_passes (firstn i lines) ->
    parse_jsonl_lines lineno lines messages =
    inl (ParseError (invalid_line_error (lineno + i) (Py.strip line))).
Proof.
  induction lines as [|l ls IH]; intros lineno messages i line Hn Hs Hl Hp.
  - destruct i; discriminate.
  - destruct i as [|i]; simpl in Hn.
    + injection Hn as ->. simpl.
      apply nonempty_true in Hs. rewrite Hs, Hl. simpl.
      now rewrite Nat.add_0_r.
    + simpl in Hp. inversion Hp as [|? ? [Hb|[v [Hv Hr]]] Hp']; subst; simpl.
      * rewrite Hb. simpl.
        rewrite (IH (S lineno) messages i line); auto. do 3 f_equal. lia.
      * destruct (Py.nonempty (Py.strip l)); simpl.
        -- rewrite Hv. destruct v;
             try (rewrite (IH (S lineno) messages i line); auto;
                  do 3 f_equal; lia).
           destruct (Hr _ eq_refl) as [r ->]. simpl.
           rewrite (IH (S lineno) _ i line); auto. do 3 f_equal. lia.
        -- rewrite (IH (S lineno) messages i line); auto. do 3 f_equal. lia.
Qed.


(** C10.  The number in the [ParseError] of [parse_jsonl] is the place, from
    one, of the line that does not decode among the lines of the trimmed
    content.  In the content itself the line stands further down by the
    number of line feeds in the leading whitespace that the trimming
    removed: the reported number is smaller than the line's place in the
    input by that count. *)
Theorem C10_line_number_base (input msg : string) :
  parse_jsonl input = inl (ParseError msg) ->
  exists i line,
    nth_error (Py.split_lines (Py.strip input)) i = Some line /\
    Py.strip line <> EmptyString /\
    json.loads (Py.strip line) = None /\
    msg = "Invalid JSON on line " ++ Py.str_nat (1 + i) ++ ": "
          ++ exc_str (Py.strip line) /\
    exists line',
      nth_error (Py.split_lines input) (leading_newlines input + i) = Some line' /\
      Py.strip line' = Py.strip line.
Proof.
  intros H. unfold parse_jsonl in H.
  destruct (parse_jsonl_lines_error _ _ _ H) as [i [line [Hn [Hs [Hl Hm]]]]].
  exists i, line. repeat split; try assumption.
  apply lines_strip; [|exact Hn].
  intros E. rewrite E in Hn. destruct i as [|[|i]]; simpl in Hn; try discriminate.
  injection Hn as <-. now apply Hs.
Qed.

(** C5, at the failing input.  A line that decodes to a mapping whose role
    is not a string yields no message: [_normalize_role] calls [lower] on
    the role, and the parser stops with [AttributeError].  In the sample
    both lines are mappings, the content is detected as line-delimited, and
    the parse ends in that exception. *)
Theorem C5_non_string_role (source : string) :
  forallb is_mapping (Py.split_lines (Py.strip numeric_role_log)) = true /\
  detect_format numeric_role_log = Fjsonl /\
  parse_jsonl numeric_role_log = inl AttributeError /\
  parse_session numeric_role_log source = inl AttributeError.
Proof.
  repeat apply conj; vm_compute; reflexivity.
Qed.

End JsonlFacts.

(** ** A marker-narrative log, end to end *)

Lemma nanobot_log_not_jsonl :
  is_json_array (Py.strip nanobot_log) = false /\
  count_jsonl (firstn 5 (Py.split_lines_max 5 (Py.strip nanobot_log))) 0 = 0.
Proof. split; vm_compute; reflexivity. Qed.

Lemma nanobot_log_score : _is_nanobot_format (Py.strip nanobot_log) = true.
Proof. vm_compute. reflexivity. Qed.

Lemma nanobot_log_body :
  nanobot_body nanobot_log = doc "## Human\nDo X\n\n## Assistant\nDone\n---".
Proof. vm_compute. reflexivity. Qed.

Lemma nanobot_log_parts :
  re.split section_pattern (nanobot_body nanobot_log) =
  [EmptyString; "Human"; doc "\nDo X\n\n"; "Assistant"; doc "\nDone\n---"].
Proof. vm_compute. reflexivity. Qed.

Lemma nanobot_log_separator :
  re.sub_empty separator_tail (doc "Done\n---") = "Done" /\
  re.sub_empty separator_tail "Do X" = "Do X".
Proof. split; vm_compute; reflexivity. Qed.

Section EndToEnd.

Context {builtins : Builtins}.

(** C6.  The log made of the line [session_id: 42], a Human section with the
    body [Do X], an Assistant section with the body [Done] and a closing
    separator line is detected as marker-narrative and parsed into two
    messages, user with content [Do X] and assistant with content [Done]:
    the header line, the separator and the surrounding whitespace are
    gone. *)
Theorem C6_nanobot_scenario (source : string) :
  detect_format nanobot_log = Fnanobot /\
  parse_nanobot nanobot_log =
    [mkMessage "user" "Do X" []; mkMessage "assistant" "Done" []] /\
  parse_session nanobot_log source =
    inr (mkSession [mkMessage "user" "Do X" []; mkMessage "assistant" "Done" []]
                   source Fnanobot).
Proof.
  assert (Hfmt : detect_format nanobot_log = Fnanobot).
  { unfold detect_format.
    destruct nanobot_log_not_jsonl as [-> ->].
    now rewrite nanobot_log_score. }
  assert (Hmsgs : parse_nanobot nanobot_log =
                  [mkMessage "user" "Do X" []; mkMessage "assistant" "Done" []]).
  { unfold parse_nanobot. rewrite nanobot_log_parts.
    cbn [tl nanobot_messages].
    change (Py.strip (doc "\nDo X\n\n")) with "Do X".
    change (Py.strip (doc "\nDone\n---")) with (doc "Done\n---").
    destruct nanobot_log_separator as [-> ->]. reflexivity. }
  repeat apply conj; [exact Hfmt|exact Hmsgs|].
  rewrite parse_session_dispatch by discriminate.
  rewrite Hfmt. simpl parser_map. unfold ret. now rewrite Hmsgs.
Qed.

End EndToEnd.

(** ** Documents in the range of the decoder *)

Lemma hex_digit_bound (c : ascii) (n : nat) : json.hex_digit c = Some n -> n < 16.
Proof.
  destruct c as [[] [] [] [] [] [] [] []]; vm_compute; intros H;
    try discriminate H; injection H as <-; lia.
Qed.

(** In a text whose escapes are in range, every [\u] escape that the
    decoder can read names a code point that has its character: the branch
    of [json.scanstring] that gives up on a code point above U+00FF is
    never taken. *)
Lemma escapes_in_range_code_point (a r : string) (h1 h2 h3 h4 : ascii)
      (cp : nat) :
  escapes_in_range
    (a ++ "\u" ++ String h1 (String h2 (String h3 (String h4 r)))) = true ->
  json.hex4 h1 h2 h3 h4 = Some cp ->
  cp < 256.
Proof.
  induction a as [|c a IH]; intros H Hx.
  - cbn [append escapes_in_range] in H.
    apply andb_true_iff in H. destruct H as [H _].
    cbn [Py.startswith] in H. rewrite !Ascii.eqb_refl in H.
    cbn [andb negb orb] in H. rewrite !andb_true_r in H.
    apply andb_true_iff in H. destruct H as [E1 E2].
    apply Ascii.eqb_eq in E1, E2. subst h1 h2.
    unfold json.hex4 in Hx. change (json.hex_digit "0") with (Some 0) in Hx.
    destruct (json.hex_digit h3) as [z|] eqn:Ez; [|discriminate].
    destruct (json.hex_digit h4) as [w|] eqn:Ew; [|discriminate].
    injection Hx as <-.
    apply hex_digit_bound in Ez, Ew. lia.
  - apply IH; [|exact Hx].
    change (String c a ++ ?x) with (String c (a ++ x)) in H.
    cbn [escapes_in_range] in H. apply andb_true_iff in H. now destruct H.
Qed.

(** ** Elements and lines, by what they hold *)

Lemma text_literal (A : Type) (s : string) (a b : A) :
  match s with
  | "text" => a
  | _ => b
  end = if String.eqb s "text" then a else b.
Proof.
  destruct s as [|[[] [] [] [] [] [] [] []] s]; try reflexivity.
  destruct s as [|[[] [] [] [] [] [] [] []] s]; try reflexivity.
  destruct s as [|[[] [] [] [] [] [] [] []] s]; try reflexivity.
  destruct s as [|[[] [] [] [] [] [] [] []] s]; try reflexivity.
  destruct s; reflexivity.
Qed.


Lemma text_parts_obj (p : dict JSON) (parts : list JSON) :
  text_parts (JObj p :: parts) =
  match dict_get p "type" with
  | Some (JStr t) =>
      if String.eqb t "text" then
        match dict_get p "text" with
        | Some v => v :: text_parts parts
        | None => JStr EmptyString :: text_parts parts
        end
      else text_parts parts
  | _ => text_parts parts
  end.
Proof.
  simpl. destruct (dict_get p "type") as [[]|]; try reflexivity.
  apply text_literal.
Qed.





Section DataFacts.

Context {builtins : Builtins}.











End DataFacts.

(** ** Structured arrays *)

Section JsonFacts.

Context {builtins : Builtins}.

Lemma parse_json_items_sound (data : list JSON) :
  forall i messages msgs,
    parse_json_items i data messages = inr msgs ->
    exists ms, msgs = (messages ++ ms)%list /\ Forall2 message_of data ms.
Proof.
  induction data as [|item data IH]; intros i messages msgs H.
  - injection H as <-. exists []. split; [now rewrite app_nil_r|constructor].
  - destruct item; try discriminate. simpl in H.
    destruct (get_role fields) as [e|r] eqn:Er; [discriminate|].
    destruct (get_content_json fields) as [e|c] eqn:Ec; [discriminate|].
    simpl in H. destruct (IH _ _ _ H) as [ms [-> Hms]].
    exists (mkMessage r c (get_metadata fields) :: ms). split.
    + now rewrite <- app_assoc.
    + constructor; [|exact Hms].
      exists fields. split; [reflexivity|].
      unfold json_message. now rewrite Er, Ec.
Qed.



End JsonFacts.

(** ** Role markers of the generic-narrative parser *)

Lemma role_labels_eq :
  role_labels = re.Group (re.alt (re.stri "User") (map re.stri label_spellings)).
Proof. reflexivity. Qed.

Lemma label_spelling (t w : string) :
  In w ("User" :: label_spellings) -> Py.lower t = Py.lower w -> is_label t.
Proof.
  intros Hin E. unfold is_label. rewrite E. simpl in Hin.
  repeat (destruct Hin as [<-|Hin]; [simpl; tauto|]). contradiction.
Qed.

Lemma is_label_spelling (t : string) :
  is_label t ->
  exists w, In w ("User" :: label_spellings) /\ Py.lower t = Py.lower w.
Proof.
  unfold is_label, label_names. intros Hin. simpl in Hin.
  destruct Hin as [E|[E|[E|[E|[E|[E|[E|[E|[E|[]]]]]]]]]];
    [exists "User"|exists "Human"|exists "Customer"|exists "Assistant"
     |exists "AI"|exists "Bot"|exists "Agent"|exists "System"|exists "Tool"];
    (split; [simpl; tauto|now rewrite <- E]).
Qed.

Lemma role_pattern_shape (prev : option ascii) (t after : string)
      (g : option string) :
  sem role_pattern prev t after None g ->
  re.at_bol prev = true /\
  exists label, g = Some label /\ role_marker t label.
Proof.
  unfold role_pattern. rewrite role_labels_eq. cbn [re.seq sem].
  intros [t0 [t1 [g0 [-> [[-> [-> Hbol]] H]]]]].
  destruct H as [d [t2 [g1 [-> [Hd H]]]]].
  destruct H as [l [t3 [g2 [-> [[[g2' Hl] ->] H]]]]].
  destruct H as [c [t4 [g3 [-> [Hc H]]]]].
  destruct H as [run [nl [g4 [-> [[Hrun ->] Hnl]]]]].
  split; [exact Hbol|]. cbn [sem re.lit] in Hd, Hc, Hnl.
  assert (Hg : g = Some l /\ (nl = EmptyString \/ nl = Py.newline)).
  { destruct Hnl as [[x [-> [Hx ->]]]|[-> ->]].
    - apply Ascii.eqb_eq in Hx. subst x. destruct Hc as [Hc|[_ ->]].
      + apply sem_str in Hc. destruct Hc as [_ ->]. split; [reflexivity|now right].
      + split; [reflexivity|now right].
    - destruct Hc as [Hc|[_ ->]].
      + apply sem_str in Hc. destruct Hc as [_ ->]. split; [reflexivity|now left].
      + split; [reflexivity|now left]. }
  destruct Hg as [-> Hnl']. exists l. split; [reflexivity|].
  exists d, c, (run ++ nl). repeat split.
  - destruct Hd as [[Hd|Hd]|[-> _]].
    + apply sem_str in Hd. destruct Hd as [-> _]. right. now left.
    + destruct Hd as [h [ws [g5 [-> [Hh [Hws _]]]]]].
      apply sem_str in Hh. destruct Hh as [-> _].
      right. right. now exists ws.
    + now left.
  - apply sem_alt_stri in Hl. destruct Hl as [[w' [Hin E]] _].
    exact (label_spelling _ Hin E).
  - destruct Hc as [Hc|[-> _]].
    + apply sem_str in Hc. destruct Hc as [-> _]. now right.
    + now left.
  - now exists run, nl.
Qed.

(** A label at a line start is accepted by the pattern on its own, whatever
    stands after it. *)
Lemma role_pattern_label (prev : option ascii) (label after : string) :
  re.at_bol prev = true -> is_label label ->
  sem role_pattern prev label after None (Some label).
Proof.
  intros Hbol Hl. destruct (is_label_spelling Hl) as [w [Hin E]].
  unfold role_pattern. rewrite role_labels_eq. cbn [re.seq sem].
  exists EmptyString, label, None. repeat split; [exact Hbol|].
  exists EmptyString, label, None. repeat split; [now right|].
  exists label, EmptyString, (Some label).
  repeat split; [now rewrite append_nil_r| |].
  { exists None. eapply sem_alt_stri_complete; eassumption. }
  exists EmptyString, EmptyString, (Some label). repeat split; [now right|].
  exists EmptyString, EmptyString, (Some label). repeat split. now right.
Qed.

Lemma parse_text_parts (input : string) (ms : list (string * re.Match))
      (tail : string) :
  re.matches role_pattern input = (ms, tail) ->
  parse_text input =
  match ms with
  | [] =>
      if Py.nonempty (Py.strip input)
      then [mkMessage "unknown" (Py.strip input) []] else []
  | (_, m) :: ms' =>
      text_messages
        (re.group1 m :: flat_map (fun sm => [fst sm; re.group1 (snd sm)]) ms'
           ++ [tail])%list []
  end.
Proof.
  intros H. unfold parse_text, re.split. rewrite H.
  destruct ms as [|[sk m] ms']; [reflexivity|].
  cbn [flat_map fst snd app tl List.length].
  rewrite length_app. cbn [List.length].
  destruct (Nat.ltb_spec (S (S (List.length (flat_map
              (fun sm => [fst sm; re.group1 (snd sm)]) ms') + 1))) 3);
    [lia|reflexivity].
Qed.

(** X24.  Where [parse_text] splits.  Every match of the role pattern in
    the content stands at the start of a line and is made of an optional
    decoration ([**], or [##] and any whitespace), a label in any case, an
    optional [**], and a possibly empty run of colons and whitespace with
    possibly one more line feed; the group it captures is the label. *)
Theorem split_points (input : string) (ms : list (string * re.Match))
        (tail : string) (i : nat) (skipped : string) (m : re.Match) :
  re.matches role_pattern input = (ms, tail) ->
  nth_error ms i = Some (skipped, m) ->
  exists before after,
    input = before ++ re.text m ++ after /\
    line_start before /\
    role_marker (re.text m) (re.group1 m).
Proof.
  intros H Hn.
  edestruct matches_sound as [before [after [E Hs]]]; [exact H|exact Hn|].
  apply role_pattern_shape in Hs. destruct Hs as [Hbol [label [Hg Hm]]].
  exists before, after. repeat split; [exact E| |].
  - apply last_of_bol in Hbol.
    destruct Hbol as [[-> _]|Hb]; [now left|now right].
  - unfold re.group1. now rewrite Hg.
Qed.

(** A content that begins with a label is split at its start, whatever
    follows the label. *)
Lemma label_at_start (label rest : string) :
  is_label label ->
  exists m ms tail,
    re.matches role_pattern (label ++ rest) = ((EmptyString, m) :: ms, tail).
Proof.
  intros Hl. eapply matches_at_start. now apply role_pattern_label.
Qed.

(** * Further properties

    Session views, whitespace, what the parsers return and how they fail,
    and the invariants of the narrative parsers. *)

(** ** Views of a session *)

Lemma filter_roles_length (l : list Message) :
  List.length (filter (fun m => String.eqb (role m) "user") l)
  + List.length (filter (fun m => String.eqb (role m) "assistant") l)
  <= List.length l /\
  (List.length (filter (fun m => String.eqb (role m) "user") l)
   + List.length (filter (fun m => String.eqb (role m) "assistant") l)
   = List.length l <->
   Forall (fun m => role m = "user" \/ role m = "assistant") l).
Proof.
  induction l as [|m l [IH1 IH2]];
    [split; [simpl; lia|split; [constructor|reflexivity]]|].
  simpl.
  destruct (String.eqb_spec (role m) "user") as [Eu|Eu];
    destruct (String.eqb_spec (role m) "assistant") as [Ea|Ea]; simpl.
  - rewrite Eu in Ea. discriminate.
  - split; [lia|]. split.
    + intros H. constructor; [now left|]. apply IH2. lia.
    + intros H. inversion H as [|? ? _ Hl]; subst. apply IH2 in Hl. lia.
  - split; [lia|]. split.
    + intros H. constructor; [now right|]. apply IH2. lia.
    + intros H. inversion H as [|? ? _ Hl]; subst. apply IH2 in Hl. lia.
  - split; [lia|]. split.
    + intros H. lia.
    + intros H. inversion H as [|? ? Hm _]; subst. tauto.
Qed.

(** X1.  The counts of [Session.stats].  The total is the number of messages;
    the user and the assistant counts together never exceed it, and they
    reach it exactly when every message has the role user or assistant;
    the token estimate is the character total divided by four, rounded
    down. *)
Theorem stats_counts (s : Session) :
  exists total users assistants chars tokens,
    dict_get (stats s) "total_messages" = Some total /\
    dict_get (stats s) "user_messages" = Some users /\
    dict_get (stats s) "assistant_messages" = Some assistants /\
    dict_get (stats s) "total_chars" = Some chars /\
    dict_get (stats s) "estimated_tokens" = Some tokens /\
    total = List.length (messages s) /\
    users + assistants <= total /\
    (users + assistants = total <->
     Forall (fun m => role m = "user" \/ role m = "assistant") (messages s)) /\
    4 * tokens <= chars < 4 * tokens + 4.
Proof.
  exists (message_count s), (List.length (user_messages s)),
    (List.length (assistant_messages s)), (total_chars s), (total_chars s / 4).
  repeat split; try reflexivity; try apply filter_roles_length.
  - apply Nat.Div0.mul_div_le.
  - pose proof (Nat.div_mod_eq (total_chars s) 4) as E.
    pose proof (Nat.mod_upper_bound (total_chars s) 4) as B. lia.
Qed.

Lemma content_chars (l : list Message) :
  Forall has_content l ->
  List.length l <= list_sum (map (fun m => String.length (content m)) l).
Proof.
  induction 1 as [|m l Hm _ IH]; [simpl; lia|].
  simpl. unfold has_content in Hm.
  destruct (content m); [discriminate|]. simpl. lia.
Qed.

Lemma parse_nanobot_content (input : string) :
  Forall has_content (parse_nanobot input).
Proof.
  unfold parse_nanobot.
  destruct (nanobot_messages
              (tl (re.split section_pattern (nanobot_body input))) []) eqn:E.
  - apply parse_text_content.
  - rewrite <- E. now apply nanobot_messages_content.
Qed.

Section SessionFacts.

Context {builtins : Builtins}.

Lemma parse_session_inv (input src : string) (s : Session) :
  parse_session input src = inr s ->
  Py.strip input <> EmptyString /\
  messages s <> [] /\
  parser_map (detect_format input) input = inr (messages s) /\
  source s = src /\ format_detected s = detect_format input.
Proof.
  intros H.
  destruct (Py.strip input) eqn:E.
  - rewrite (parse_session_blank input src E) in H. discriminate.
  - rewrite parse_session_dispatch in H by (rewrite E; discriminate).
    destruct (parser_map (detect_format input) input) as [e|[|m ms]];
      try discriminate.
    injection H as <-. simpl. repeat split; discriminate.
Qed.

(** X2.  For a session that [parse_session] returns, [stats] reports at least
    one message; and when the format is text or nanobot the character total
    is at least the message count, no narrative message being empty. *)
Theorem stats_parsed (input src : string) (s : Session) :
  parse_session input src = inr s ->
  exists total chars,
    dict_get (stats s) "total_messages" = Some total /\
    dict_get (stats s) "total_chars" = Some chars /\
    1 <= total /\
    (format_detected s = Ftext \/ format_detected s = Fnanobot -> total <= chars).
Proof.
  intros H. apply parse_session_inv in H.
  destruct H as [_ [Hne [Hp [_ Hf]]]].
  exists (message_count s), (total_chars s).
  repeat split.
  - unfold message_count. destruct (messages s); [contradiction|simpl; lia].
  - intros Hfmt. unfold message_count, total_chars. apply content_chars.
    rewrite Hf in Hfmt.
    destruct Hfmt as [Hfmt|Hfmt]; rewrite Hfmt in Hp; simpl in Hp;
      injection Hp as <-.
    + apply parse_text_content.
    + apply parse_nanobot_content.
Qed.

End SessionFacts.

(** ** The text of a session *)

Lemma contains_here (s p : string) : Py.startswith s p = true -> Py.contains s p = true.
Proof. intros H. destruct s; simpl; rewrite H; reflexivity. Qed.

Lemma contains_app (a t b : string) : Py.contains (a ++ t ++ b) t = true.
Proof.
  induction a as [|c a IH].
  - simpl. apply contains_here. apply startswith_app.
  - simpl. rewrite IH. apply orb_true_r.
Qed.

Lemma contains_infix (s t : string) :
  Py.contains s t = true -> exists a b, s = a ++ t ++ b.
Proof.
  induction s as [|c s IH]; simpl; intros H.
  - rewrite orb_false_r in H. apply startswith_split in H.
    exists EmptyString, (Py.drop (String.length t) EmptyString). exact H.
  - apply orb_true_iff in H. destruct H as [H|H].
    + apply startswith_split in H. exists EmptyString. eexists. exact H.
    + destruct (IH H) as [a [b ->]]. now exists (String c a), b.
Qed.

Section TextFacts.

Variable upper : string -> string.

Lemma join_contains (sep : string) (parts : list string) (p t : string) :
  In p parts -> Py.contains p t = true ->
  Py.contains (Py.join sep parts) t = true.
Proof.
  intros Hin Hc. apply contains_infix in Hc. destruct Hc as [a [b ->]].
  induction parts as [|q parts IH]; [contradiction|].
  destruct Hin as [->|Hin].
  - destruct parts as [|q' parts'].
    + simpl. apply contains_app.
    + change (Py.join sep ((a ++ t ++ b) :: q' :: parts'))
        with ((a ++ t ++ b) ++ sep ++ Py.join sep (q' :: parts')).
      rewrite !append_assoc. apply contains_app.
  - specialize (IH Hin). apply contains_infix in IH.
    destruct IH as [a' [b' E]].
    destruct parts as [|q' parts']; [contradiction|].
    change (Py.join sep (q :: q' :: parts'))
      with (q ++ sep ++ Py.join sep (q' :: parts')).
    rewrite E. rewrite <- !append_assoc. rewrite append_assoc.
    apply contains_app.
Qed.

(** X3.  [to_text] is empty only for a session without messages, and the text
    of a session holds, for each of its messages, the content as it is and
    the bracketed header line, whatever [str.upper] makes of the role. *)
Theorem to_text_contents (s : Session) :
  (to_text upper s = EmptyString <-> messages s = []) /\
  (forall m, In m (messages s) ->
     Py.contains (to_text upper s) (content m) = true /\
     Py.contains (to_text upper s) ("[" ++ upper (role m) ++ "]" ++ Py.newline) = true).
Proof.
  split.
  - unfold to_text. destruct (messages s) as [|m [|m' ms]]; simpl; split;
      try reflexivity; try discriminate.
  - intros m Hin. unfold to_text. split.
    + apply join_contains with (p := __str__ upper m); [now apply in_map|].
      unfold __str__.
      replace ("[" ++ upper (role m) ++ "]" ++ Py.newline ++ content m)
        with (("[" ++ upper (role m) ++ "]" ++ Py.newline) ++ content m ++ EmptyString).
      * apply contains_app.
      * now rewrite append_nil_r, !append_assoc.
    + apply join_contains with (p := __str__ upper m); [now apply in_map|].
      unfold __str__. apply contains_here.
      replace ("[" ++ upper (role m) ++ "]" ++ Py.newline ++ content m)
        with (("[" ++ upper (role m) ++ "]" ++ Py.newline) ++ content m).
      * apply startswith_app.
      * now rewrite !append_assoc.
Qed.

End TextFacts.

(** ** Whitespace around the content *)

Lemma rstrip_pad (s w : string) :
  all_chars Py.isspace w = true -> Py.rstrip (s ++ w) = Py.rstrip s.
Proof.
  intros Hw. induction s as [|c s IH].
  - simpl. now apply rstrip_spaces.
  - change (String c s ++ w) with (String c (s ++ w)).
    rewrite !rstrip_String, IH. reflexivity.
Qed.

Lemma strip_pad (w1 s w2 : string) :
  all_chars Py.isspace w1 = true -> all_chars Py.isspace w2 = true ->
  Py.strip (w1 ++ s ++ w2) = Py.strip s.
Proof.
  intros H1 H2. induction w1 as [|c w1 IH].
  - simpl. apply rstrip_strip. now apply rstrip_pad.
  - simpl in H1. apply andb_true_iff in H1. destruct H1 as [Hc H1].
    change (String c w1 ++ s ++ w2) with (String c (w1 ++ s ++ w2)).
    rewrite strip_cons_space by exact Hc. now apply IH.
Qed.

Lemma detect_format_strip (a b : string) :
  Py.strip a = Py.strip b -> detect_format a = detect_format b.
Proof. intros E. unfold detect_format. now rewrite E. Qed.

Section PaddingFacts.

Context {builtins : Builtins}.

Lemma parse_session_strip (a b src : string) :
  Py.strip a = Py.strip b ->
  parser_map (detect_format b) a = parser_map (detect_format b) b ->
  parse_session a src = parse_session b src.
Proof.
  intros E Hp. unfold parse_session. rewrite !blank_test, E.
  rewrite (detect_format_strip _ _ E), Hp. reflexivity.
Qed.

(** X4.  Whitespace around the content changes neither the format detected
    nor what the two structured parsers return, nor, when the format is
    json or jsonl, the outcome of [parse_session]. *)
Theorem surrounding_whitespace (w1 s w2 : string) :
  all_chars Py.isspace w1 = true -> all_chars Py.isspace w2 = true ->
  detect_format (w1 ++ s ++ w2) = detect_format s /\
  parse_json (w1 ++ s ++ w2) = parse_json s /\
  parse_jsonl (w1 ++ s ++ w2) = parse_jsonl s /\
  (detect_format s = Fjson \/ detect_format s = Fjsonl ->
   forall src, parse_session (w1 ++ s ++ w2) src = parse_session s src).
Proof.
  intros H1 H2. pose proof (@strip_pad w1 s w2 H1 H2) as E.
  assert (Hj : parse_json (w1 ++ s ++ w2) = parse_json s)
    by (unfold parse_json; now rewrite E).
  assert (Hl : parse_jsonl (w1 ++ s ++ w2) = parse_jsonl s)
    by (unfold parse_jsonl; now rewrite E).
  repeat split; [now apply detect_format_strip|exact Hj|exact Hl|].
  intros Hf src. apply parse_session_strip; [exact E|].
  destruct Hf as [-> | ->]; assumption.
Qed.

End PaddingFacts.

(** ** The structured-array test of the detector *)


(** ** What the structured-array parser returns *)

Section JsonResults.

Context {builtins : Builtins}.





End JsonResults.

(** ** What the line-delimited parser returns *)

Section JsonlResults.

Context {builtins : Builtins}.

Lemma parse_jsonl_lines_inv (lines : list string) :
  forall lineno messages msgs,
    parse_jsonl_lines lineno lines messages = inr msgs ->
    Forall line_passes lines /\
    exists ms, msgs = (messages ++ ms)%list /\ map inr ms = line_messages lines.
Proof.
  induction lines as [|l ls IH]; intros lineno messages msgs H.
  - injection H as <-. split; [constructor|]. exists []. now rewrite app_nil_r.
  - simpl in H. simpl line_messages.
    destruct (Py.nonempty (Py.strip l)) eqn:Eb; simpl in H.
    + destruct (json.loads (Py.strip l)) as [v|] eqn:El; [|discriminate].
      destruct v;
        try (destruct (IH _ _ _ H) as [Hp Hms]; split; [|exact Hms];
             constructor; [|exact Hp]; right; eexists; split; [exact El|];
             intros obj Ho; discriminate Ho).
      destruct (get_role fields) as [e|r] eqn:Er; [discriminate|]. simpl in H.
      destruct (IH _ _ _ H) as [Hp [ms [-> Hms]]]. split.
      * constructor; [|exact Hp]. right. eexists. split; [exact El|].
        intros obj Ho. injection Ho as <-. now exists r.
      * exists (mkMessage r (get_content_jsonl fields) (get_metadata fields) :: ms).
        split; [now rewrite <- app_assoc|]. simpl. now rewrite Hms.
    + apply nonempty_false in Eb. rewrite Eb.
      change (json.loads EmptyString) with (@None JSON).
      destruct (IH _ _ _ H) as [Hp Hms]. split; [|exact Hms].
      constructor; [now left|exact Hp].
Qed.

Lemma line_messages_length (lines : list string) :
  List.length (line_messages lines) = List.length (filter is_mapping lines).
Proof.
  induction lines as [|l ls IH]; [reflexivity|].
  simpl. unfold is_mapping at 1.
  destruct (json.loads (Py.strip l)) as [[]|]; simpl; now rewrite ?IH.
Qed.


Lemma parse_jsonl_count (input : string) (msgs : list Message) :
  parse_jsonl input = inr msgs ->
  List.length msgs =
  List.length (filter is_mapping (Py.split_lines (Py.strip input))).
Proof.
  intros H. apply parse_jsonl_lines_inv in H.
  destruct H as [_ [ms [-> Hms]]]. simpl.
  rewrite <- line_messages_length, <- Hms. now rewrite length_map.
Qed.



End JsonlResults.

(** ** The detector and the parser it selects *)

Lemma filter_read_lines (lines : list string) :
  List.length (filter is_mapping (read_lines lines))
  <= List.length (filter is_mapping lines).
Proof.
  induction lines as [|l ls IH]; [simpl; lia|].
  simpl. destruct (is_blank l || decodes l); simpl.
  - destruct (is_mapping l); simpl; lia.
  - destruct (is_mapping l); simpl; lia.
Qed.

Lemma filter_firstn_length (A : Type) (f : A -> bool) (n : nat) (l : list A) :
  List.length (filter f (firstn n l)) <= List.length (filter f l).
Proof.
  revert l. induction n as [|n IH]; intros [|x l]; simpl; try lia.
  specialize (IH l). destruct (f x); simpl; lia.
Qed.

Lemma detect_jsonl_count (input : string) :
  detect_format input = Fjsonl ->
  2 <= List.length (filter is_mapping (Py.split_lines (Py.strip input))).
Proof.
  unfold detect_format. destruct (is_json_array (Py.strip input)); [discriminate|].
  rewrite firstn_split_lines_max, count_jsonl_spec, Nat.add_0_l.
  destruct (Nat.leb_spec 2 (List.length (filter is_mapping
              (read_lines (firstn 5 (Py.split_lines (Py.strip input))))))) as [H|H].
  - intros _. eapply Nat.le_trans; [exact H|].
    eapply Nat.le_trans; [apply filter_read_lines|apply filter_firstn_length].
  - destruct (_is_nanobot_format _); discriminate.
Qed.

Section Agreement.

Context {builtins : Builtins}.

Lemma detect_json_messages (input : string) (msgs : list Message) :
  detect_format input = Fjson -> parse_json input = inr msgs -> msgs <> [].
Proof.
  intros Hf H. unfold detect_format in Hf.
  destruct (is_json_array (Py.strip input)) eqn:Ea.
  - unfold is_json_array in Ea. apply andb_true_iff in Ea. destruct Ea as [_ Ea].
    unfold parse_json in H.
    destruct (json.loads (Py.strip input)) as [[| | | | |[|first rest]|]|];
      try discriminate.
    apply parse_json_items_sound in H. destruct H as [ms [-> Hms]].
    inversion Hms. discriminate.
  - destruct (2 <=? _)%nat; [discriminate|].
    destruct (_is_nanobot_format _); discriminate.
Qed.

(** X8.  The detector and the parser it selects.  Content detected as json
    is never parsed into an empty list, and content detected as jsonl is
    parsed into two messages at least; so the selected parser returns no
    message only when the format is nanobot or text. *)
Theorem detected_parser_results (input : string) :
  (detect_format input = Fjson ->
   forall msgs, parse_json input = inr msgs -> 1 <= List.length msgs) /\
  (detect_format input = Fjsonl ->
   forall msgs, parse_jsonl input = inr msgs -> 2 <= List.length msgs) /\
  (parser_map (detect_format input) input = inr [] ->
   detect_format input = Fnanobot \/ detect_format input = Ftext).
Proof.
  assert (J : detect_format input = Fjson ->
              forall msgs, parse_json input = inr msgs -> 1 <= List.length msgs).
  { intros Hf msgs H. pose proof (detect_json_messages _ Hf H) as Hne.
    destruct msgs; [contradiction|simpl; lia]. }
  assert (L : detect_format input = Fjsonl ->
              forall msgs, parse_jsonl input = inr msgs -> 2 <= List.length msgs).
  { intros Hf msgs H. rewrite (parse_jsonl_count _ H).
    now apply detect_jsonl_count. }
  repeat split; [exact J|exact L|].
  intros H. destruct (detect_format input) eqn:Hf; simpl in H.
  - specialize (J eq_refl _ H). simpl in J. lia.
  - specialize (L eq_refl _ H). simpl in L. lia.
  - now left.
  - now right.
Qed.

End Agreement.

(** ** Failures of the structured parsers *)

Section FailureFacts.

Context {builtins : Builtins}.

Lemma message_of_inv (item : JSON) (m : Message) :
  message_of item m ->
  exists d, item = JObj d /\ get_role d = inr (role m) /\
            get_content_json d = inr (content m) /\ metadata m = get_metadata d.
Proof.
  intros [d [-> H]]. exists d. unfold json_message in H.
  destruct (get_role d) as [e|r]; [discriminate|].
  destruct (get_content_json d) as [e|c]; [discriminate|].
  injection H as <-. now repeat split.
Qed.




End FailureFacts.

Section JsonlFailures.

Context {builtins : Builtins}.



End JsonlFailures.

(** ** Metadata *)

Lemma get_metadata_lookup (d : dict JSON) (k : string) :
  dict_get (get_metadata d) k =
  if is_message_key k then None else dict_get d k.
Proof.
  unfold get_metadata. fold is_message_key.
  induction d as [|[k' v] d IH].
  - cbn [filter dict_get]. now destruct (is_message_key k).
  - cbn [filter dict_get fst].
    change (String.eqb k' "role" || String.eqb k' "content")
      with (is_message_key k').
    destruct (String.eqb_spec k' k) as [->|Hk].
    + destruct (is_message_key k) eqn:E; cbn [negb].
      * rewrite IH. now rewrite ?E.
      * cbn [dict_get]. now rewrite String.eqb_refl.
    + destruct (is_message_key k') eqn:E; cbn [negb].
      * exact IH.
      * cbn [dict_get]. destruct (String.eqb_spec k' k); [contradiction|]. exact IH.
Qed.

Section MetadataFacts.

Context {builtins : Builtins}.

(** X11.  The metadata of a message of [parse_json] holds every field of its
    element other than role and content, with the value the element gives
    it, and neither of these two. *)
Theorem metadata_fields (input : string) (msgs : list Message)
        (items : list JSON) (i : nat) (d : dict JSON) :
  parse_json input = inr msgs ->
  json.loads (Py.strip input) = Some (JArr items) ->
  nth_error items i = Some (JObj d) ->
  exists m,
    nth_error msgs i = Some m /\
    forall k,
      dict_get (metadata m) k =
      if is_message_key k then None else dict_get d k.
Proof.
  intros H Hl Hn. unfold parse_json in H. rewrite Hl in H.
  apply parse_json_items_sound in H. destruct H as [ms [-> Hms]]. simpl.
  clear Hl. revert i Hn. induction Hms as [|x m items ms Hm _ IH]; intros i Hn.
  - destruct i; discriminate.
  - destruct i as [|i]; simpl in Hn.
    + injection Hn as ->. exists m. split; [reflexivity|].
      apply message_of_inv in Hm. destruct Hm as [d' [Hd [_ [_ ->]]]].
      injection Hd as <-. apply get_metadata_lookup.
    + now apply IH.
Qed.

End MetadataFacts.

(** ** Multi-part content *)

Lemma text_parts_app (a b : list JSON) :
  text_parts (a ++ b) = (text_parts a ++ text_parts b)%list.
Proof.
  induction a as [|p a IH]; [reflexivity|].
  destruct p; try exact IH.
  - simpl. now rewrite IH.
  - change ((JObj fields :: a) ++ b)%list with (JObj fields :: (a ++ b))%list.
    rewrite !text_parts_obj, IH.
    destruct (dict_get fields "type") as [[]|]; try reflexivity.
    destruct (String.eqb s "text"); [|reflexivity].
    now destruct (dict_get fields "text").
Qed.

Lemma text_parts_strings (ts : list string) :
  text_parts (map JStr ts) = map JStr ts.
Proof. induction ts as [|t ts IH]; [reflexivity|]. simpl. now rewrite IH. Qed.

Lemma str_items_strings (ts : list string) : str_items (map JStr ts) = inr ts.
Proof. induction ts as [|t ts IH]; [reflexivity|]. simpl. now rewrite IH. Qed.

Lemma text_parts_other (part : JSON) :
  ~ is_text_part part -> text_parts [part] = [].
Proof.
  intros Hn. destruct part; try reflexivity.
  - exfalso. apply Hn. left. now exists s.
  - rewrite text_parts_obj.
    destruct (dict_get fields "type") as [[]|] eqn:Et; try reflexivity.
    destruct (String.eqb_spec s "text") as [->|]; [|reflexivity].
    exfalso. apply Hn. right. now exists fields.
Qed.

Section ContentFacts.

Context {builtins : Builtins}.

Lemma get_content_parts (d d' : dict JSON) (parts parts' : list JSON) :
  dict_get d "content" = Some (JArr parts) ->
  dict_get d' "content" = Some (JArr parts') ->
  text_parts parts = text_parts parts' ->
  get_content_json d = get_content_json d'.
Proof.
  intros H H' E. unfold get_content_json. now rewrite H, H', E.
Qed.

(** X12.  Multi-part content in [parse_json].  A content that is a list
    of strings gives these strings joined by line feeds, in order; a part
    that is neither a string nor a mapping of type text can be taken out of
    the list without changing the content; and a mapping of type text with
    the text [s] counts as the string [s]. *)
Theorem multipart_content (d d' : dict JSON) (a b : list JSON) :
  (forall ts,
      dict_get d "content" = Some (JArr (map JStr ts)) ->
      get_content_json d = inr (Py.join Py.newline ts)) /\
  (forall part,
      ~ is_text_part part ->
      dict_get d "content" = Some (JArr (a ++ part :: b)) ->
      dict_get d' "content" = Some (JArr (a ++ b)) ->
      get_content_json d = get_content_json d') /\
  (forall p s,
      dict_get p "type" = Some (JStr "text") ->
      dict_get p "text" = Some (JStr s) ->
      dict_get d "content" = Some (JArr (a ++ JObj p :: b)) ->
      dict_get d' "content" = Some (JArr (a ++ JStr s :: b)) ->
      get_content_json d = get_content_json d').
Proof.
  repeat split.
  - intros ts H. unfold get_content_json.
    now rewrite H, text_parts_strings, str_items_strings.
  - intros part Hn H H'. apply (get_content_parts _ _ H H').
    change (part :: b) with ([part] ++ b)%list.
    now rewrite !text_parts_app, (text_parts_other Hn).
  - intros p s Ht Hs H H'. apply (get_content_parts _ _ H H').
    change (JObj p :: b) with ([JObj p] ++ b)%list.
    change (JStr s :: b) with ([JStr s] ++ b)%list.
    rewrite !text_parts_app. do 2 f_equal.
    rewrite text_parts_obj, Ht, Hs. reflexivity.
Qed.

End ContentFacts.

(** ** The walk of the narrative parsers *)

Lemma text_messages_eq (n : nat) :
  forall parts messages,
    List.length parts <= n ->
    text_messages parts messages =
    (messages ++ flat_map text_message (role_bodies parts))%list.
Proof.
  induction n as [|n IH]; intros parts messages Hn.
  - destruct parts; [|simpl in Hn; lia]. simpl. now rewrite app_nil_r.
  - destruct parts as [|raw_role [|body parts]];
      try (simpl; now rewrite app_nil_r).
    cbn [text_messages role_bodies flat_map].
    rewrite IH by (simpl in Hn; lia).
    unfold text_message at 2. cbn [fst snd].
    destruct (Py.nonempty (Py.strip body)); [|reflexivity].
    now rewrite <- app_assoc.
Qed.

Lemma nanobot_messages_eq (n : nat) :
  forall parts messages,
    List.length parts <= n ->
    nanobot_messages parts messages =
    (messages ++ flat_map nanobot_message (role_bodies parts))%list.
Proof.
  induction n as [|n IH]; intros parts messages Hn.
  - destruct parts; [|simpl in Hn; lia]. simpl. now rewrite app_nil_r.
  - destruct parts as [|raw_role [|body parts]];
      try (simpl; now rewrite app_nil_r).
    cbn [nanobot_messages role_bodies flat_map].
    rewrite IH by (simpl in Hn; lia).
    unfold nanobot_message at 2. cbn [fst snd].
    destruct (Py.nonempty _); [|reflexivity].
    now rewrite <- app_assoc.
Qed.

Lemma role_bodies_markers (ms : list (string * re.Match)) (tail : string) :
  forall label,
    role_bodies (label :: flat_map (fun sm => [fst sm; re.group1 (snd sm)]) ms
                   ++ [tail])%list
    = marker_bodies label ms tail.
Proof.
  induction ms as [|[sk m] ms IH]; intros label; [reflexivity|].
  cbn [flat_map fst snd app marker_bodies]. rewrite <- IH. reflexivity.
Qed.

Lemma parse_text_markers (input : string) (ms : list (string * re.Match))
      (tail : string) :
  re.matches role_pattern input = (ms, tail) ->
  parse_text input =
  match ms with
  | [] =>
      if Py.nonempty (Py.strip input)
      then [mkMessage "unknown" (Py.strip input) []] else []
  | (_, m) :: ms' => flat_map text_message (marker_bodies (re.group1 m) ms' tail)
  end.
Proof.
  intros H. rewrite (parse_text_parts _ H).
  destruct ms as [|[sk m] ms']; [reflexivity|].
  rewrite (text_messages_eq (n := List.length
             (re.group1 m :: flat_map (fun sm => [fst sm; re.group1 (snd sm)]) ms'
                ++ [tail])%list)) by lia.
  now rewrite role_bodies_markers.
Qed.

Lemma nanobot_sections_markers (input : string) (ms : list (string * re.Match))
      (tail : string) :
  re.matches section_pattern (nanobot_body input) = (ms, tail) ->
  nanobot_sections input =
  match ms with
  | [] => []
  | (_, m) :: ms' =>
      flat_map nanobot_message (marker_bodies (re.group1 m) ms' tail)
  end.
Proof.
  intros H. unfold nanobot_sections, re.split. rewrite H.
  destruct ms as [|[sk m] ms']; [reflexivity|].
  cbn [flat_map fst snd app tl].
  rewrite (nanobot_messages_eq (n := List.length
             (re.group1 m :: flat_map (fun sm => [fst sm; re.group1 (snd sm)]) ms'
                ++ [tail])%list)) by lia.
  now rewrite role_bodies_markers.
Qed.

Lemma parse_nanobot_sections (input : string) :
  parse_nanobot input =
  match nanobot_sections input with
  | [] => parse_text input
  | ms => ms
  end.
Proof.
  unfold parse_nanobot, nanobot_sections.
  now destruct (nanobot_messages _ _).
Qed.

Lemma marker_bodies_spec (ms : list (string * re.Match)) (tail : string) :
  forall label,
    Forall (fun rb =>
              (fst rb = label \/ exists sm, In sm ms /\ fst rb = re.group1 (snd sm)) /\
              (snd rb = tail \/ exists sm, In sm ms /\ snd rb = fst sm))
           (marker_bodies label ms tail).
Proof.
  induction ms as [|[sk m] ms IH]; intros label; simpl.
  - constructor; [|constructor]. split; now left.
  - constructor.
    + split; [now left|]. right. exists (sk, m). split; [now left|reflexivity].
    + eapply Forall_impl; [|apply IH].
      intros rb [H1 H2]. split.
      * right. destruct H1 as [H1|[sm [Hin H1]]].
        -- exists (sk, m). split; [now left|exact H1].
        -- exists sm. split; [now right|exact H1].
      * destruct H2 as [H2|[sm [Hin H2]]]; [now left|].
        right. exists sm. split; [now right|exact H2].
Qed.

(** ** Roles of the narrative parsers *)

Lemma label_role (label : string) :
  is_label label -> In (_normalize_role (Py.strip label)) canonical_roles.
Proof.
  unfold is_label, _normalize_role. rewrite lower_strip, strip_idem.
  intros H. simpl in H.
  repeat (destruct H as [<-|H]; [vm_compute; tauto|]). contradiction.
Qed.

Lemma section_pattern_eq :
  section_pattern =
  re.seq [re.Bol; re.str "##"; re.Star re.space;
          re.Group (re.alt (re.stri "Human") (map re.stri section_spellings));
          re.Star re.space; re.Eol].
Proof. reflexivity. Qed.

Lemma section_pattern_shape (prev : option ascii) (t after : string)
      (g : option string) :
  sem section_pattern prev t after None g ->
  re.at_bol prev = true /\
  exists ws label ws',
    g = Some label /\ t = "##" ++ ws ++ label ++ ws' /\ is_label label /\
    all_chars Py.isspace ws = true /\ all_chars Py.isspace ws' = true /\
    re.at_eol after = true.
Proof.
  rewrite section_pattern_eq. cbn [re.seq sem].
  intros [t0 [t1 [g0 [-> [[-> [-> Hbol]] H]]]]].
  destruct H as [h [t2 [g1 [-> [Hh H]]]]].
  destruct H as [ws [t3 [g2 [-> [[Hws ->] H]]]]].
  destruct H as [l [t4 [g3 [-> [[[g3' Hl] ->] H]]]]].
  destruct H as [ws' [t5 [g4 [-> [[Hws' ->] [-> [-> Heol]]]]]]].
  apply sem_str in Hh. destruct Hh as [-> _].
  split; [exact Hbol|]. exists ws, l, ws'.
  repeat split; try assumption.
  - now rewrite append_nil_r.
  - apply sem_alt_stri in Hl. destruct Hl as [[w' [Hin E]] _].
    apply (@label_spelling l w'); [|exact E].
    simpl in Hin. simpl.
    repeat (destruct Hin as [<-|Hin]; [tauto|]). contradiction.
Qed.

Lemma matches_groups (r : re.regex) (P : option string -> Prop) (s : string)
      (ms : list (string * re.Match)) (tail : string) :
  (forall prev t after g, sem r prev t after None g -> P g) ->
  re.matches r s = (ms, tail) ->
  Forall (fun sm => P (re.group (snd sm))) ms.
Proof.
  intros HP H. apply Forall_forall. intros [sk m] Hin.
  apply In_nth_error in Hin. destruct Hin as [i Hi].
  destruct (matches_sound _ _ _ H Hi) as [before [after [_ Hs]]].
  exact (HP _ _ _ _ Hs).
Qed.

Lemma search_matches (r : re.regex) (s : string) :
  re.search r s = false <-> fst (re.matches r s) = [].
Proof.
  unfold re.search, re.matches.
  replace (2 * String.length s + 2) with (S (2 * String.length s + 1)) by lia.
  simpl re.scan. destruct (re.search_from r None s false) as [[sk m]|].
  - destruct (re.scan _ _ _ _ _). split; discriminate.
  - split; reflexivity.
Qed.

Lemma marker_roles (P : string -> Prop) (label : string)
      (ms : list (string * re.Match)) (tail : string) :
  P label -> Forall (fun sm => P (re.group1 (snd sm))) ms ->
  Forall (fun rb => P (fst rb)) (marker_bodies label ms tail).
Proof.
  intros Hl Hms. eapply Forall_impl; [|apply marker_bodies_spec].
  intros rb [[->|[sm [Hin ->]]] _]; [exact Hl|].
  rewrite Forall_forall in Hms. now apply Hms.
Qed.

Lemma Forall_flat_map_each (A B : Type) (f : A -> list B) (P : A -> Prop)
      (Q : B -> Prop) (l : list A) :
  (forall a, P a -> Forall Q (f a)) -> Forall P l -> Forall Q (flat_map f l).
Proof.
  intros H Hl. induction Hl as [|a l Ha _ IH]; simpl; [constructor|].
  apply Forall_app. split; [now apply H|exact IH].
Qed.

Lemma role_pattern_groups (input : string) (ms : list (string * re.Match))
      (tail : string) :
  re.matches role_pattern input = (ms, tail) ->
  Forall (fun sm => is_label (re.group1 (snd sm))) ms.
Proof.
  intros H.
  apply (@matches_groups role_pattern
           (fun g => is_label match g with Some l => l | None => EmptyString end)
           input ms tail); [|exact H].
  intros prev t after g Hs. apply role_pattern_shape in Hs.
  destruct Hs as [_ [label [-> [d [c [sep [_ [_ [Hl _]]]]]]]]]. exact Hl.
Qed.

Lemma section_pattern_groups (body : string) (ms : list (string * re.Match))
      (tail : string) :
  re.matches section_pattern body = (ms, tail) ->
  Forall (fun sm => is_label (re.group1 (snd sm))) ms.
Proof.
  intros H.
  apply (@matches_groups section_pattern
           (fun g => is_label match g with Some l => l | None => EmptyString end)
           body ms tail); [|exact H].
  intros prev t after g Hs. apply section_pattern_shape in Hs.
  destruct Hs as [_ [ws [label [ws' [-> [_ [Hl _]]]]]]]. exact Hl.
Qed.

Lemma text_message_role (rb : string * string) :
  is_label (fst rb) ->
  Forall (fun m => In (role m) canonical_roles) (text_message rb).
Proof.
  intros Hl. unfold text_message. destruct (Py.nonempty _); [|constructor].
  constructor; [|constructor]. simpl. now apply label_role.
Qed.

Lemma nanobot_message_role (rb : string * string) :
  is_label (fst rb) ->
  Forall (fun m => In (role m) canonical_roles) (nanobot_message rb).
Proof.
  intros Hl. unfold nanobot_message. destruct (Py.nonempty _); [|constructor].
  constructor; [|constructor]. simpl. now apply label_role.
Qed.

Lemma nanobot_sections_roles (input : string) :
  Forall (fun m => In (role m) canonical_roles) (nanobot_sections input).
Proof.
  destruct (re.matches section_pattern (nanobot_body input)) as [ms tail] eqn:E.
  rewrite (nanobot_sections_markers _ E).
  pose proof (section_pattern_groups _ E) as Hg.
  destruct ms as [|[sk m] ms']; [constructor|].
  inversion Hg as [|? ? Hm Hms]; subst.
  eapply Forall_flat_map_each; [exact nanobot_message_role|].
  now apply (@marker_roles is_label).
Qed.

Lemma parse_text_roles (input : string) :
  (re.search role_pattern input = false ->
   parse_text input =
   if Py.nonempty (Py.strip input)
   then [mkMessage "unknown" (Py.strip input) []] else []) /\
  (re.search role_pattern input = true ->
   Forall (fun m => In (role m) canonical_roles) (parse_text input)).
Proof.
  destruct (re.matches role_pattern input) as [ms tail] eqn:E.
  pose proof (search_matches role_pattern input) as Hs. rewrite E in Hs.
  rewrite (parse_text_markers _ E).
  pose proof (role_pattern_groups _ E) as Hg.
  destruct ms as [|[sk m] ms']; simpl in Hs.
  - split; [reflexivity|]. intros H. rewrite (proj2 Hs eq_refl) in H. discriminate.
  - split.
    + intros H. apply Hs in H. discriminate.
    + intros _. inversion Hg as [|? ? Hm Hms]; subst.
      eapply Forall_flat_map_each; [exact text_message_role|].
      now apply (@marker_roles is_label).
Qed.

Lemma parse_text_role_set (input : string) :
  Forall (fun m => In (role m) ("unknown" :: canonical_roles)) (parse_text input).
Proof.
  destruct (parse_text_roles input) as [Hu Hm].
  destruct (re.search role_pattern input).
  - eapply Forall_impl; [|exact (Hm eq_refl)]. intros m H. now right.
  - rewrite (Hu eq_refl). destruct (Py.nonempty _); [|constructor].
    constructor; [now left|constructor].
Qed.

Lemma parse_nanobot_role_set (input : string) :
  Forall (fun m => In (role m) ("unknown" :: canonical_roles)) (parse_nanobot input).
Proof.
  rewrite parse_nanobot_sections.
  pose proof (nanobot_sections_roles input) as Hn.
  destruct (nanobot_sections input) as [|m ms]; [apply parse_text_role_set|].
  eapply Forall_impl; [|exact Hn]. intros m' H. now right.
Qed.

(** X13.  The roles of the narrative parsers, on content of the character
    range of the embedding, U+0000 to U+00FF.  When the content has a role
    marker, every message of [parse_text] has one of the four canonical
    roles; when it has none, [parse_text] returns at most one message, of
    role unknown, holding the whole trimmed content.  So on such content
    both narrative parsers only emit the canonical roles and unknown.
    The range matters: under IGNORECASE the pattern also takes characters
    above it for its letters (U+017F for an s), which [str.lower] does not
    turn into the letters of the table. *)
Theorem narrative_roles (input : string) :
  (re.search role_pattern input = true ->
   Forall (fun m => In (role m) canonical_roles) (parse_text input)) /\
  (re.search role_pattern input = false ->
   forall m, In m (parse_text input) ->
     m = mkMessage "unknown" (Py.strip input) [] /\ parse_text input = [m]) /\
  Forall (fun m => In (role m) ("unknown" :: canonical_roles)) (parse_text input) /\
  Forall (fun m => In (role m) ("unknown" :: canonical_roles)) (parse_nanobot input).
Proof.
  destruct (parse_text_roles input) as [Hu Hm].
  split; [exact Hm|]. split; [|split].
  - intros Hs m Hin. rewrite (Hu Hs) in Hin |- *.
    destruct (Py.nonempty _); [|contradiction].
    destruct Hin as [<-|[]]. now split.
  - apply parse_text_role_set.
  - apply parse_nanobot_role_set.
Qed.

(** ** The content of the narrative messages *)

Lemma text_message_trimmed (rb : string * string) :
  Forall (fun m => Py.strip (content m) = content m /\ metadata m = [])
         (text_message rb).
Proof.
  unfold text_message. destruct (Py.nonempty _); [|constructor].
  constructor; [|constructor]. simpl. split; [apply strip_idem|reflexivity].
Qed.

Lemma nanobot_message_trimmed (rb : string * string) :
  Forall (fun m => Py.strip (content m) = content m /\ metadata m = [])
         (nanobot_message rb).
Proof.
  unfold nanobot_message. destruct (Py.nonempty _); [|constructor].
  constructor; [|constructor]. simpl. split; [apply strip_idem|reflexivity].
Qed.

Lemma parse_text_trimmed (input : string) :
  Forall (fun m => Py.strip (content m) = content m /\ metadata m = [])
         (parse_text input).
Proof.
  destruct (re.matches role_pattern input) as [ms tail] eqn:E.
  rewrite (parse_text_markers _ E). destruct ms as [|[sk m] ms'].
  - destruct (Py.nonempty _); [|constructor].
    constructor; [|constructor]. simpl. split; [apply strip_idem|reflexivity].
  - apply Forall_flat_map_each with (P := fun _ => True).
    + intros rb _. apply text_message_trimmed.
    + apply Forall_forall. intros; exact I.
Qed.

(** X14.  Every message of the narrative parsers has a trimmed content (no
    whitespace at either end) and no metadata. *)
Theorem narrative_messages_trimmed (input : string) :
  Forall (fun m => Py.strip (content m) = content m /\ metadata m = [])
         (parse_text input) /\
  Forall (fun m => Py.strip (content m) = content m /\ metadata m = [])
         (parse_nanobot input).
Proof.
  split; [apply parse_text_trimmed|].
  rewrite parse_nanobot_sections.
  destruct (nanobot_sections input) as [|m0 ms0] eqn:En;
    [apply parse_text_trimmed|].
  rewrite <- En.
  destruct (re.matches section_pattern (nanobot_body input)) as [ms tail] eqn:E.
  rewrite (nanobot_sections_markers _ E). destruct ms as [|[sk m] ms'];
    [constructor|].
  apply Forall_flat_map_each with (P := fun _ => True).
  - intros rb _. apply nanobot_message_trimmed.
  - apply Forall_forall. intros; exact I.
Qed.

Lemma part_of_refl (s : string) : part_of s s.
Proof. exists EmptyString, EmptyString. simpl. now rewrite append_nil_r. Qed.

Lemma part_of_trans (a b c : string) : part_of a b -> part_of b c -> part_of a c.
Proof.
  intros [x [y ->]] [u [v ->]]. exists (u ++ x), (y ++ v).
  now rewrite !append_assoc.
Qed.

Lemma part_of_prefix (t r : string) : part_of t (t ++ r).
Proof. now exists EmptyString, r. Qed.

Lemma part_of_suffix (a t : string) : part_of t (a ++ t).
Proof. exists a, EmptyString. now rewrite append_nil_r. Qed.

Lemma part_of_after (a t s : string) : part_of t s -> part_of t (a ++ s).
Proof. intros H. eapply part_of_trans; [exact H|apply part_of_suffix]. Qed.

Lemma lstrip_suffix (s : string) : exists w, s = w ++ Py.lstrip s.
Proof.
  induction s as [|c s [w IH]]; [now exists EmptyString|].
  simpl. destruct (Py.isspace c).
  - exists (String c w). simpl. now rewrite <- IH.
  - now exists EmptyString.
Qed.

Lemma rstrip_prefix (s : string) : exists w, s = Py.rstrip s ++ w.
Proof.
  induction s as [|c s [w IH]]; [now exists EmptyString|].
  rewrite rstrip_String. destruct (Py.rstrip s) as [|d r] eqn:E.
  - destruct (Py.isspace c).
    + exists (String c s). reflexivity.
    + exists s. reflexivity.
  - exists w. change (String c s = String c (String d r ++ w)). now rewrite <- IH.
Qed.

Lemma strip_part (s : string) : part_of (Py.strip s) s.
Proof.
  unfold Py.strip. destruct (rstrip_prefix s) as [w Hw].
  destruct (lstrip_suffix (Py.rstrip s)) as [v Hv].
  exists v, w. rewrite <- append_assoc, <- Hv. exact Hw.
Qed.

Lemma drop_suffix (n : nat) : forall s, exists a, s = a ++ Py.drop n s.
Proof.
  induction n as [|n IH]; intros s.
  - exists EmptyString. now destruct s.
  - destruct s as [|c s]; [now exists EmptyString|].
    destruct (IH s) as [a Ha]. exists (String c a). simpl. now rewrite <- Ha.
Qed.

Lemma separator_shape (prev : option ascii) (t after : string)
      (g g' : option string) :
  sem separator_tail prev t after g g' ->
  4 <= String.length t /\ re.at_eol_end after = true.
Proof.
  unfold separator_tail. cbn [re.seq sem re.lit].
  intros [t0 [t1 [g0 [-> [[c [-> _]] H]]]]].
  destruct H as [d [t2 [g1 [-> [Hd H]]]]].
  destruct H as [ws [t3 [g2 [-> [_ [-> [_ He]]]]]]].
  apply sem_str in Hd. destruct Hd as [-> _].
  split; [|exact He]. rewrite !length_append. simpl. lia.
Qed.

Lemma at_eol_end_cases (s : string) :
  re.at_eol_end s = true -> s = EmptyString \/ s = Py.newline.
Proof.
  destruct s as [|c [|d s]]; simpl; intros H; try discriminate.
  - now left.
  - right. apply Ascii.eqb_eq in H. now subst c.
Qed.

Lemma separator_once (x : string) (ms : list (string * re.Match)) (tail : string) :
  re.matches separator_tail x = (ms, tail) ->
  (ms = [] /\ tail = x) \/
  exists sk m,
    ms = [(sk, m)] /\ x = sk ++ re.text m ++ tail /\
    (tail = EmptyString \/ tail = Py.newline).
Proof.
  intros H. apply scan_sound in H. destruct H as [-> Hl].
  destruct ms as [|[sk m] ms']; [now left|]. right.
  destruct Hl as [Hs Hl]. apply separator_shape in Hs. destruct Hs as [_ He].
  apply at_eol_end_cases in He.
  destruct ms' as [|[sk' m'] ms''].
  - exists sk, m. now repeat split.
  - exfalso. destruct Hl as [Hs' _]. apply separator_shape in Hs'.
    destruct Hs' as [Hlen _].
    assert (L : String.length (rebuild ((sk', m') :: ms'') tail) <= 1)
      by (destruct He as [-> | ->]; simpl; lia).
    simpl in L. rewrite !length_append in L. lia.
Qed.

Lemma separator_part (x : string) :
  part_of (Py.strip (re.sub_empty separator_tail x)) x.
Proof.
  unfold re.sub_empty.
  destruct (re.matches separator_tail x) as [ms tail] eqn:E.
  apply separator_once in E.
  destruct E as [[-> ->]|[sk [m [-> [Hx Ht]]]]].
  - simpl. apply strip_part.
  - simpl.
    assert (Hs : Py.strip (sk ++ tail) = Py.strip sk).
    { apply rstrip_strip. apply rstrip_pad.
      destruct Ht as [-> | ->]; reflexivity. }
    rewrite Hs, Hx.
    eapply part_of_trans; [apply strip_part|apply part_of_prefix].
Qed.

Lemma nanobot_body_part (input : string) : part_of (nanobot_body input) input.
Proof.
  unfold nanobot_body.
  eapply part_of_trans; [apply strip_part|].
  destruct (drop_suffix (fold_left Nat.max (re.finditer_ends header_line input) 0)
                        input) as [a Ha].
  exists a, EmptyString. now rewrite append_nil_r.
Qed.

Lemma in_order_after (a : string) (parts : list string) (s : string) :
  in_order parts s -> in_order parts (a ++ s).
Proof.
  destruct parts as [|p ps]; [trivial|].
  intros [x [b [-> H]]]. exists (a ++ x), b. split; [|exact H].
  now rewrite !append_assoc.
Qed.

Lemma in_order_before (parts : list string) :
  forall s t, in_order parts s -> in_order parts (s ++ t).
Proof.
  induction parts as [|p ps IH]; intros s t; [trivial|].
  intros [x [b [-> H]]]. exists x, (b ++ t). split; [|now apply IH].
  now rewrite !append_assoc.
Qed.

Lemma in_order_part (parts : list string) (b s : string) :
  part_of b s -> in_order parts b -> in_order parts s.
Proof.
  intros [x [y ->]] H. apply in_order_after. now apply in_order_before.
Qed.

Lemma in_order_cons (p sk rest : string) (parts : list string) :
  part_of p sk -> in_order parts rest -> in_order (p :: parts) (sk ++ rest).
Proof.
  intros [x [y ->]] H. exists x, (y ++ rest). split.
  - now rewrite !append_assoc.
  - now apply in_order_after.
Qed.

Lemma in_order_parts (parts : list string) :
  forall s, in_order parts s -> Forall (fun p => part_of p s) parts.
Proof.
  induction parts as [|p ps IH]; intros s H; [constructor|].
  destruct H as [a [b [-> H]]]. constructor; [now exists a, b|].
  eapply Forall_impl; [|exact (IH _ H)].
  intros q Hq. apply part_of_after. now apply part_of_after.
Qed.

Lemma marker_bodies_order (f : string * string -> list Message)
      (ms : list (string * re.Match)) (tail : string) :
  (forall rb, f rb = [] \/
              exists m, f rb = [m] /\ part_of (content m) (snd rb)) ->
  forall label,
    in_order (map content (flat_map f (marker_bodies label ms tail)))
             (rebuild ms tail).
Proof.
  intros Hf. induction ms as [|[sk m] ms IH]; intros label.
  - cbn [marker_bodies flat_map rebuild]. rewrite app_nil_r.
    destruct (Hf (label, tail)) as [->|[m [-> Hm]]]; [exact I|].
    destruct Hm as [a [b Hm]]. simpl in Hm. now exists a, b.
  - cbn [marker_bodies flat_map rebuild]. rewrite map_app.
    specialize (IH (re.group1 m)).
    apply (in_order_after (re.text m)) in IH.
    destruct (Hf (label, sk)) as [->|[m0 [-> Hm]]].
    + simpl. now apply in_order_after.
    + simpl in Hm |- *. now apply in_order_cons.
Qed.

Lemma text_message_cut (rb : string * string) :
  text_message rb = [] \/
  exists m, text_message rb = [m] /\ part_of (content m) (snd rb).
Proof.
  unfold text_message. destruct (Py.nonempty _); [|now left].
  right. eexists. split; [reflexivity|]. apply strip_part.
Qed.

Lemma nanobot_message_cut (rb : string * string) :
  nanobot_message rb = [] \/
  exists m, nanobot_message rb = [m] /\ part_of (content m) (snd rb).
Proof.
  unfold nanobot_message. destruct (Py.nonempty _); [|now left].
  right. eexists. split; [reflexivity|]. simpl.
  eapply part_of_trans; [apply separator_part|apply strip_part].
Qed.

Lemma parse_text_order (input : string) :
  in_order (map content (parse_text input)) input.
Proof.
  destruct (re.matches role_pattern input) as [ms tail] eqn:E.
  rewrite (parse_text_markers _ E).
  apply scan_sound in E. destruct E as [E _].
  destruct ms as [|[sk m] ms'].
  - destruct (Py.nonempty _); [|exact I].
    destruct (strip_part input) as [a [b H]]. now exists a, b.
  - rewrite E. simpl rebuild. apply in_order_after. apply in_order_after.
    apply marker_bodies_order. exact text_message_cut.
Qed.

Lemma nanobot_sections_order (input : string) :
  in_order (map content (nanobot_sections input)) input.
Proof.
  destruct (re.matches section_pattern (nanobot_body input)) as [ms tail] eqn:E.
  rewrite (nanobot_sections_markers _ E).
  apply scan_sound in E. destruct E as [E _].
  destruct ms as [|[sk m] ms']; [exact I|].
  apply (in_order_part _ (nanobot_body_part input)).
  rewrite E. simpl rebuild. apply in_order_after. apply in_order_after.
  apply marker_bodies_order. exact nanobot_message_cut.
Qed.

(** X15.  The narrative parsers only cut, and they keep the order: the
    contents of the messages they emit stand in the input one after the
    other, in the order of the messages, each a contiguous part of the
    input, unchanged. *)
Theorem narrative_content_verbatim (input : string) :
  in_order (map content (parse_text input)) input /\
  in_order (map content (parse_nanobot input)) input /\
  Forall (fun m => part_of (content m) input) (parse_text input) /\
  Forall (fun m => part_of (content m) input) (parse_nanobot input).
Proof.
  assert (Hn : in_order (map content (parse_nanobot input)) input).
  { rewrite parse_nanobot_sections.
    pose proof (nanobot_sections_order input) as H.
    destruct (nanobot_sections input); [apply parse_text_order|exact H]. }
  split; [apply parse_text_order|]. split; [exact Hn|]. split.
  - pose proof (in_order_parts _ _ (parse_text_order input)) as H.
    now rewrite Forall_map in H.
  - pose proof (in_order_parts _ _ Hn) as H. now rewrite Forall_map in H.
Qed.


(** ** Searching a pattern *)

Lemma search_from_complete (r : re.regex) (t after : string) (g : option string)
      (before : string) :
  forall prev,
    sem r (last_of prev before) t after None g ->
    re.search_from r prev (before ++ t ++ after) false <> None.
Proof.
  induction before as [|c before IH]; intros prev Hs; rewrite search_from_eq.
  - simpl in Hs |- *. destruct (match_at_complete _ _ _ _ _ Hs) as [m ->].
    discriminate.
  - change (String c before ++ t ++ after) with (String c (before ++ t ++ after)).
    destruct (re.match_at r prev _ false); [discriminate|].
    specialize (IH (Some c) Hs).
    destruct (re.search_from r (Some c) (before ++ t ++ after) false) as [[sk m]|];
      [discriminate|contradiction].
Qed.

Lemma search_spec (r : re.regex) (s : string) :
  re.search r s = true <->
  exists before t after g,
    s = before ++ t ++ after /\ sem r (last_of None before) t after None g.
Proof.
  unfold re.search. split.
  - destruct (re.search_from r None s false) as [[sk m]|] eqn:E; [|discriminate].
    intros _. apply search_from_sound in E. destruct E as [Hs [Hsem _]].
    now exists sk, (re.text m), (re.rest_after m), (re.group m).
  - intros [before [t [after [g [-> Hs]]]]].
    pose proof (search_from_complete _ _ _ _ _ _ Hs) as H.
    now destruct (re.search_from r None _ false).
Qed.

Lemma line_start_bol (before : string) :
  line_start before <-> re.at_bol (last_of None before) = true.
Proof.
  split.
  - intros [->|[b ->]]; [reflexivity|]. now rewrite last_of_append.
  - intros H. apply last_of_bol in H. destruct H as [[-> _]|H]; [now left|now right].
Qed.

Lemma sem_alt_str (ws : list string) :
  forall w prev t after g g',
    sem (re.alt (re.str w) (map re.str ws)) prev t after g g' ->
    In t (w :: ws) /\ g' = g.
Proof.
  induction ws as [|w1 ws IH]; intros w prev t after g g' H; simpl in H.
  - apply sem_str in H. destruct H as [-> ->]. split; [now left|reflexivity].
  - destruct H as [H|H].
    + apply sem_str in H. destruct H as [-> ->]. split; [now left|reflexivity].
    + destruct (IH _ _ _ _ _ _ H) as [Hin ->]. split; [now right|reflexivity].
Qed.

Lemma sem_alt_str_complete (ws : list string) :
  forall w t prev after g,
    In t (w :: ws) -> sem (re.alt (re.str w) (map re.str ws)) prev t after g g.
Proof.
  induction ws as [|w1 ws IH]; intros w t prev after g Hin; simpl.
  - destruct Hin as [->|[]]. apply sem_str_complete.
  - destruct Hin as [->|Hin]; [left; apply sem_str_complete|].
    right. now apply IH.
Qed.

(** A decorated label at a line start is accepted by the pattern, whatever
    stands after it. *)
Lemma role_pattern_marker (prev : option ascii) (d label after : string) :
  re.at_bol prev = true -> is_decoration d -> is_label label ->
  sem role_pattern prev (d ++ label) after None (Some label).
Proof.
  intros Hbol Hd Hl. destruct (is_label_spelling Hl) as [w [Hin E]].
  unfold role_pattern. rewrite role_labels_eq. cbn [re.seq sem].
  exists EmptyString, (d ++ label), None. repeat split; [exact Hbol|].
  exists d, label, None. split; [reflexivity|]. split.
  { destruct Hd as [->|[->|[ws [-> Hws]]]].
    - now right.
    - left. left. apply sem_str_complete.
    - left. right. exists "##", ws, None.
      split; [reflexivity|]. split; [apply sem_str_complete|now split]. }
  exists label, EmptyString, (Some label).
  repeat split; [now rewrite append_nil_r| |].
  { exists None. eapply sem_alt_stri_complete; eassumption. }
  exists EmptyString, EmptyString, (Some label). repeat split; [now right|].
  exists EmptyString, EmptyString, (Some label). repeat split. now right.
Qed.

Lemma search_role_pattern (input : string) :
  re.search role_pattern input = true <-> has_marker input.
Proof.
  rewrite search_spec. split.
  - intros [before [t [after [g [-> Hs]]]]].
    apply role_pattern_shape in Hs. destruct Hs as [Hbol [label [_ Hm]]].
    destruct Hm as [d [c [sep [-> [Hd [Hl _]]]]]].
    exists before, d, label, (c ++ sep ++ after).
    split; [now rewrite !append_assoc|].
    split; [now apply line_start_bol|now split].
  - intros [before [d [label [after [-> [Hb [Hd Hl]]]]]]].
    exists before, (d ++ label), after, (Some label).
    split; [now rewrite !append_assoc|].
    apply role_pattern_marker; try assumption. now apply line_start_bol.
Qed.

Lemma metadata_line_eq :
  metadata_line =
  re.seq [re.Bol;
          re.Group (re.alt (re.str "session_id")
                           (map re.str ["agent"; "model"; "timestamp"]));
          re.Star re.space;
          re.Chr (fun c => Ascii.eqb c ":" || Ascii.eqb c "=")].
Proof. reflexivity. Qed.

Lemma search_metadata_line (content : string) :
  re.search metadata_line content = true <-> has_metadata_line content.
Proof.
  rewrite search_spec, metadata_line_eq. split.
  - intros [before [t [after [g [-> Hs]]]]]. cbn [re.seq sem] in Hs.
    destruct Hs as [t0 [t1 [g0 [-> [[-> [-> Hbol]] H]]]]].
    destruct H as [key [t2 [g1 [-> [[[g1' Hk] ->] H]]]]].
    destruct H as [ws [t3 [g2 [-> [[Hws ->] [sep [-> [Hsep ->]]]]]]]].
    apply sem_alt_str in Hk. destruct Hk as [Hk _].
    exists before, key, ws, sep, after.
    split; [simpl; now rewrite !append_assoc|].
    split; [now apply line_start_bol|]. split; [exact Hk|]. split; [exact Hws|].
    apply orb_true_iff in Hsep.
    destruct Hsep as [H|H]; apply Ascii.eqb_eq in H; [now left|now right].
  - intros [before [key [ws [sep [after [-> [Hb [Hk [Hws Hsep]]]]]]]]].
    exists before, (key ++ ws ++ String sep EmptyString), after, (Some key).
    split.
    { rewrite !append_assoc. reflexivity. }
    cbn [re.seq sem].
    exists EmptyString, (key ++ ws ++ String sep EmptyString), None.
    repeat split; [now apply line_start_bol|].
    exists key, (ws ++ String sep EmptyString), (Some key).
    split; [reflexivity|]. split.
    { split; [|reflexivity]. exists None. now apply sem_alt_str_complete. }
    exists ws, (String sep EmptyString), (Some key).
    split; [reflexivity|]. split; [now split|].
    exists sep. repeat split.
    destruct Hsep as [-> | ->]; reflexivity.
Qed.

(** ** The score of the marker-narrative test *)

(** X16.  The score of [_is_nanobot_format].  A metadata line is a line that
    begins with one of the four keys, whitespace or none, and a colon or an
    equals sign.  The content passes exactly when it holds all three of the
    markers [## Human], [## Assistant] and [---], or a metadata line and one
    of the three at least. *)
Theorem nanobot_score (content : string) :
  (re.search metadata_line content = true <-> has_metadata_line content) /\
  (_is_nanobot_format content = true <->
   (Py.contains content "## Human" = true /\
    Py.contains content "## Assistant" = true /\
    Py.contains content "---" = true) \/
   (has_metadata_line content /\
    (Py.contains content "## Human" = true \/
     Py.contains content "## Assistant" = true \/
     Py.contains content "---" = true))).
Proof.
  split; [apply search_metadata_line|].
  rewrite <- search_metadata_line. unfold _is_nanobot_format. cbn [filter].
  destruct (Py.contains content "## Human"),
           (Py.contains content "## Assistant"),
           (Py.contains content "---"),
           (re.search metadata_line content);
    cbn; split; intros H; try reflexivity; try discriminate; try tauto;
    try (right; split; [reflexivity|]; tauto);
    try (destruct H as [[? [? ?]]|[? [?|[?|?]]]]; discriminate).
Qed.

(** ** Content without a marker *)

Section UnmarkedFacts.

Context {builtins : Builtins}.

(** X17.  Content without a role marker.  The pattern of [parse_text] finds a
    marker exactly when some line begins with a label, decorated or not.
    When no line does and the content is not blank, [parse_text] returns the
    whole trimmed content as one message of role unknown, and
    [parse_session] succeeds whenever the format is text or nanobot. *)
Theorem unmarked_text (input src : string) :
  (re.search role_pattern input = true <-> has_marker input) /\
  (~ has_marker input ->
   Py.strip input <> EmptyString ->
   parse_text input = [mkMessage "unknown" (Py.strip input) []] /\
   (detect_format input = Ftext ->
    parse_session input src =
    inr (mkSession [mkMessage "unknown" (Py.strip input) []] src Ftext)) /\
   (detect_format input = Fnanobot ->
    exists m ms,
      parse_nanobot input = m :: ms /\
      parse_session input src = inr (mkSession (m :: ms) src Fnanobot))).
Proof.
  split; [apply search_role_pattern|]. intros Hm Hs.
  assert (E : re.search role_pattern input = false).
  { destruct (re.search role_pattern input) eqn:E; [|reflexivity].
    apply search_role_pattern in E. contradiction. }
  assert (Ht : parse_text input = [mkMessage "unknown" (Py.strip input) []]).
  { rewrite (proj1 (parse_text_roles input) E).
    apply nonempty_true in Hs. now rewrite Hs. }
  split; [exact Ht|]. split; intros Hf.
  - rewrite parse_session_dispatch by exact Hs.
    rewrite Hf. simpl. now rewrite Ht.
  - assert (Hn : exists m ms, parse_nanobot input = m :: ms).
    { rewrite parse_nanobot_sections.
      destruct (nanobot_sections input) as [|m ms]; [rewrite Ht|]; eauto. }
    destruct Hn as [m [ms Hn]]. exists m, ms. split; [exact Hn|].
    rewrite parse_session_dispatch by exact Hs.
    rewrite Hf. simpl. now rewrite Hn.
Qed.

End UnmarkedFacts.

(** ** The metadata header of the marker-narrative parser *)

Lemma rebuild_tail (ms : list (string * re.Match)) (tail : string) :
  rebuild ms tail = rebuild ms EmptyString ++ tail.
Proof.
  induction ms as [|[sk m] ms IH]; [reflexivity|].
  simpl. now rewrite IH, !append_assoc.
Qed.

Lemma ends_from_max (ms : list (string * re.Match)) :
  forall offset,
    fold_left Nat.max (re.ends_from offset ms) offset
    = offset + String.length (rebuild ms EmptyString).
Proof.
  induction ms as [|[sk m] ms IH]; intros offset; simpl; [lia|].
  replace (Nat.max offset
             (offset + String.length sk + String.length (re.text m)))
    with (offset + String.length sk + String.length (re.text m)) by lia.
  rewrite IH, !length_append. lia.
Qed.

Lemma header_extends (prev : option ascii) (t after : string) (g : option string) :
  sem metadata_line prev t after None g ->
  exists u after',
    after = u ++ after' /\ sem header_line prev (t ++ u) after' None g.
Proof.
  intros Hs.
  assert (Hu : exists u after',
             after = u ++ after' /\ all_chars re.dot u = true /\
             re.at_eol after' = true).
  { clear Hs. induction after as [|c after [u [after' [E [Hu He]]]]].
    - now exists EmptyString, EmptyString.
    - destruct (Ascii.eqb c Py.NL) eqn:Ec.
      + exists EmptyString, (String c after). now repeat split.
      + exists (String c u), after'. repeat split.
        * simpl. now rewrite <- E.
        * simpl. unfold re.dot at 1. now rewrite Ec.
        * exact He. }
  destruct Hu as [u [after' [-> [Hu He]]]]. exists u, after'.
  split; [reflexivity|].
  unfold header_line. cbn [re.seq sem].
  exists t, u, g. split; [reflexivity|]. split; [exact Hs|].
  exists u, EmptyString, g. split; [now rewrite append_nil_r|].
  split; [now split|]. now repeat split.
Qed.

Lemma search_header_line (input : string) :
  re.search header_line input = true <-> has_metadata_line input.
Proof.
  rewrite <- search_metadata_line, !search_spec. split.
  - intros [before [t [after [g [-> Hs]]]]].
    unfold header_line in Hs. cbn [re.seq sem] in Hs.
    destruct Hs as [t1 [t2 [g1 [-> [Hm _]]]]].
    exists before, t1, (t2 ++ after), g1.
    split; [now rewrite !append_assoc|exact Hm].
  - intros [before [t [after [g [-> Hs]]]]].
    apply header_extends in Hs. destruct Hs as [u [after' [-> Hs]]].
    exists before, (t ++ u), after', g.
    split; [now rewrite !append_assoc|exact Hs].
Qed.

(** X18.  The metadata header of [parse_nanobot].  The text that is split
    into sections is the trimmed text after the last header line: the
    largest end of a match is the end of the last one.  A header line is
    found exactly when the content has a metadata line, and without one the
    sections are read from the whole trimmed content. *)
Theorem nanobot_header (input : string) :
  (re.search header_line input = true <-> has_metadata_line input) /\
  nanobot_body input = Py.strip (snd (re.matches header_line input)) /\
  (~ has_metadata_line input -> nanobot_body input = Py.strip input).
Proof.
  assert (B : nanobot_body input = Py.strip (snd (re.matches header_line input))).
  { unfold nanobot_body, re.finditer_ends.
    destruct (re.matches header_line input) as [ms tail] eqn:E.
    apply scan_sound in E. destruct E as [E _]. simpl.
    rewrite ends_from_max. simpl. rewrite E.
    now rewrite (rebuild_tail ms tail), drop_app. }
  split; [apply search_header_line|]. split; [exact B|].
  intros Hn. rewrite B.
  assert (S : re.search header_line input = false).
  { destruct (re.search header_line input) eqn:S; [|reflexivity].
    apply search_header_line in S. contradiction. }
  apply search_matches in S.
  destruct (re.matches header_line input) as [ms tail] eqn:E.
  simpl in S. subst ms. apply scan_sound in E. destruct E as [E _].
  simpl in E. now rewrite E.
Qed.

(** ** Roles are normalized *)

Lemma get_role_normal (d : dict JSON) (r : string) :
  get_role d = inr r -> _normalize_role r = r.
Proof.
  unfold get_role. destruct (dict_get d "role") as [[]|]; try discriminate;
    intros H; injection H as <-; apply normalize_role_idem.
Qed.

Lemma normal_role_text (r : string) :
  _normalize_role r = r -> Py.lower r = r /\ Py.strip r = r.
Proof.
  unfold _normalize_role. intros H.
  destruct (dict_get _ROLE_MAP (Py.strip (Py.lower r))) as [c|] eqn:E.
  - subst c. apply role_map_values in E. simpl in E.
    repeat (destruct E as [<-|E]; [split; reflexivity|]). contradiction.
  - split.
    + rewrite <- H at 1. now rewrite lower_strip, lower_idem.
    + rewrite <- H at 1. now rewrite strip_idem.
Qed.

Section RoleFacts.

Context {builtins : Builtins}.

Lemma line_messages_roles (lines : list string) :
  Forall (fun x => forall m, x = inr m -> _normalize_role (role m) = role m)
         (line_messages lines).
Proof.
  induction lines as [|l ls IH]; [constructor|]. simpl.
  destruct (json.loads (Py.strip l)) as [[]|]; try exact IH.
  constructor; [|exact IH]. intros m H.
  destruct (get_role fields) as [e|r] eqn:Er; [discriminate|].
  injection H as <-. simpl. exact (get_role_normal _ Er).
Qed.

Lemma parser_roles (fmt : Format) (input : string) (msgs : list Message) :
  parser_map fmt input = inr msgs ->
  Forall (fun m => _normalize_role (role m) = role m) msgs.
Proof.
  destruct fmt; simpl; intros H.
  - unfold parse_json in H.
    destruct (json.loads (Py.strip input)) as [[]|]; try discriminate.
    apply parse_json_items_sound in H. destruct H as [ms [-> Hms]]. simpl.
    induction Hms as [|x m xs ms Hm _ IH]; constructor; [|exact IH].
    apply message_of_inv in Hm. destruct Hm as [d [_ [Hr _]]].
    exact (get_role_normal _ Hr).
  - apply parse_jsonl_lines_inv in H. destruct H as [_ [ms [-> Hms]]]. simpl.
    pose proof (line_messages_roles (Py.split_lines (Py.strip input))) as Hl.
    rewrite <- Hms in Hl. clear Hms.
    induction ms as [|m ms IH]; constructor.
    + inversion Hl as [|? ? Hm _]; subst. now apply Hm.
    + apply IH. now inversion Hl.
  - injection H as <-.
    eapply Forall_impl; [|exact (parse_nanobot_role_set input)].
    intros m Hin. simpl in Hin.
    repeat (destruct Hin as [<-|Hin]; [reflexivity|]). contradiction.
  - injection H as <-.
    eapply Forall_impl; [|exact (parse_text_role_set input)].
    intros m Hin. simpl in Hin.
    repeat (destruct Hin as [<-|Hin]; [reflexivity|]). contradiction.
Qed.

(** X19.  Every message of a session that [parse_session] returns has a
    normalized role: [_normalize_role] leaves it as it is, and it is
    lower-cased and trimmed. *)
Theorem session_roles_normalized (input src : string) (s : Session) :
  parse_session input src = inr s ->
  Forall (fun m => _normalize_role (role m) = role m /\
                   Py.lower (role m) = role m /\ Py.strip (role m) = role m)
         (messages s).
Proof.
  intros H. apply parse_session_inv in H. destruct H as [_ [_ [Hp _]]].
  eapply Forall_impl; [|exact (parser_roles _ _ Hp)].
  intros m Hm. split; [exact Hm|]. now apply normal_role_text.
Qed.

End RoleFacts.

(** ** Section headings *)

Lemma line_end_eol (after : string) :
  line_end after <-> re.at_eol after = true.
Proof.
  split.
  - intros [->|[r ->]]; reflexivity.
  - destruct after as [|c r]; [now left|]. simpl. intros H.
    apply Ascii.eqb_eq in H. subst c. right. now exists r.
Qed.

Lemma section_label_spelling (label : string) :
  is_section_label label <->
  exists w, In w ("Human" :: section_spellings) /\ Py.lower label = Py.lower w.
Proof.
  unfold is_section_label, section_names, section_spellings. split.
  - intros H. simpl in H.
    destruct H as [E|[E|[E|[E|[E|[E|[]]]]]]];
      [exists "Human"|exists "Assistant"|exists "User"|exists "AI"
       |exists "System"|exists "Tool"];
      (split; [simpl; tauto|now rewrite <- E]).
  - intros [w [Hin E]]. rewrite E. simpl in Hin.
    repeat (destruct Hin as [<-|Hin]; [simpl; tauto|]). contradiction.
Qed.

Lemma section_label_role (label : string) : is_section_label label -> is_label label.
Proof.
  unfold is_section_label, is_label. intros H. simpl in H.
  repeat (destruct H as [<-|H]; [simpl; tauto|]). contradiction.
Qed.

Lemma section_pattern_heading (prev : option ascii) (t after : string)
      (g : option string) :
  sem section_pattern prev t after None g <->
  re.at_bol prev = true /\
  exists ws label ws',
    g = Some label /\ t = "##" ++ ws ++ label ++ ws' /\
    all_chars Py.isspace ws = true /\ is_section_label label /\
    all_chars Py.isspace ws' = true /\ re.at_eol after = true.
Proof.
  rewrite section_pattern_eq. cbn [re.seq sem]. split.
  - intros [t0 [t1 [g0 [-> [[-> [-> Hbol]] H]]]]].
    destruct H as [h [t2 [g1 [-> [Hh H]]]]].
    destruct H as [ws [t3 [g2 [-> [[Hws ->] H]]]]].
    destruct H as [l [t4 [g3 [-> [[[g3' Hl] ->] H]]]]].
    destruct H as [ws' [t5 [g4 [-> [[Hws' ->] [-> [-> Heol]]]]]]].
    apply sem_str in Hh. destruct Hh as [-> _].
    split; [exact Hbol|]. exists ws, l, ws'.
    repeat split; try assumption.
    + now rewrite append_nil_r.
    + apply section_label_spelling.
      apply sem_alt_stri in Hl. now destruct Hl as [Hl _].
  - intros [Hbol [ws [label [ws' [-> [-> [Hws [Hl [Hws' Heol]]]]]]]]].
    apply section_label_spelling in Hl. destruct Hl as [w [Hin E]].
    exists EmptyString, ("##" ++ ws ++ label ++ ws'), None.
    repeat split; [exact Hbol|].
    exists "##", (ws ++ label ++ ws'), None.
    split; [reflexivity|]. split; [apply sem_str_complete|].
    exists ws, (label ++ ws'), None. split; [reflexivity|]. split; [now split|].
    exists label, ws', (Some label). split; [reflexivity|]. split.
    { split; [|reflexivity]. exists None.
      eapply sem_alt_stri_complete; eassumption. }
    exists ws', EmptyString, (Some label).
    split; [now rewrite append_nil_r|]. split; [now split|]. now repeat split.
Qed.

Lemma search_section_pattern (body : string) :
  re.search section_pattern body = true <-> has_section body.
Proof.
  rewrite search_spec. split.
  - intros [before [t [after [g [-> Hs]]]]].
    apply section_pattern_heading in Hs.
    destruct Hs as [Hbol [ws [label [ws' [_ [-> [Hws [Hl [Hws' He]]]]]]]]].
    exists before, ws, label, ws', after.
    split; [now rewrite !append_assoc|].
    split; [now apply line_start_bol|].
    repeat split; try assumption. now apply line_end_eol.
  - intros [before [ws [label [ws' [after [-> [Hb [Hws [Hl [Hws' He]]]]]]]]]].
    exists before, ("##" ++ ws ++ label ++ ws'), after, (Some label).
    split; [now rewrite !append_assoc|].
    apply section_pattern_heading.
    split; [now apply line_start_bol|].
    exists ws, label, ws'. repeat split; try assumption. now apply line_end_eol.
Qed.

(** X20.  Section headings of [parse_nanobot].  The pattern finds a heading
    exactly when some line begins with [##] and holds after it nothing but
    a section label between whitespace.  Every heading is also a role
    marker of [parse_text]; and when the text after the header has no
    heading, [parse_nanobot] returns what [parse_text] returns. *)
Theorem section_headings (input : string) :
  (re.search section_pattern input = true <-> has_section input) /\
  (has_section input -> has_marker input) /\
  (~ has_section (nanobot_body input) -> parse_nanobot input = parse_text input).
Proof.
  split; [apply search_section_pattern|]. split.
  - intros [before [ws [label [ws' [after [-> [Hb [Hws [Hl [Hws' He]]]]]]]]]].
    exists before, ("##" ++ ws), label, (ws' ++ after).
    split; [now rewrite !append_assoc|].
    split; [exact Hb|]. split; [|now apply section_label_role].
    right. right. now exists ws.
  - intros Hn. rewrite parse_nanobot_sections.
    assert (S : re.search section_pattern (nanobot_body input) = false).
    { destruct (re.search section_pattern (nanobot_body input)) eqn:S;
        [|reflexivity].
      apply search_section_pattern in S. contradiction. }
    unfold nanobot_sections. now rewrite (split_no_match _ _ S).
Qed.

(** ** The closing separator of a section *)

Lemma append_inv_tail (a b s : string) : a ++ s = b ++ s -> a = b.
Proof.
  revert b. induction a as [|c a IH]; intros [|d b] H.
  - reflexivity.
  - apply (f_equal String.length) in H. simpl in H.
    rewrite length_append in H. lia.
  - apply (f_equal String.length) in H. simpl in H.
    rewrite length_append in H. lia.
  - simpl in H. injection H as -> H. f_equal. now apply IH.
Qed.

Lemma last_of_spaces (w : string) :
  forall prev,
    all_chars Py.isspace w = true -> w <> EmptyString ->
    exists c, last_of prev w = Some c /\ Py.isspace c = true.
Proof.
  induction w as [|c w IH]; intros prev Hw Hn; [contradiction|].
  simpl in Hw. apply andb_true_iff in Hw. destruct Hw as [Hc Hw]. simpl.
  destruct w as [|d w]; [now exists c|].
  apply IH; [exact Hw|discriminate].
Qed.

Lemma solid_end_no_pad (a y w : string) (c : ascii) :
  Py.isspace c = false ->
  a ++ String c EmptyString = y ++ w -> all_chars Py.isspace w = true ->
  w = EmptyString.
Proof.
  intros Hc E Hw. destruct w as [|d w]; [reflexivity|]. exfalso.
  apply (f_equal (last_of None)) in E. rewrite !last_of_append in E. simpl in E.
  destruct (@last_of_spaces (String d w) (last_of None y) Hw ltac:(discriminate))
    as [x [Hx Hs]].
  simpl in Hx. rewrite Hx in E. injection E as ->. congruence.
Qed.

Lemma separator_text (prev : option ascii) (t after : string)
      (g g' : option string) :
  sem separator_tail prev t after g g' <->
  (exists ws, t = separator ++ ws /\ all_chars Py.isspace ws = true) /\
  re.at_eol_end after = true /\ g' = g.
Proof.
  unfold separator_tail, separator. cbn [re.seq sem re.lit]. split.
  - intros [t0 [t1 [g0 [-> [[c [-> [Hc ->]]] H]]]]].
    destruct H as [d [t2 [g1 [-> [Hd H]]]]].
    destruct H as [ws [t3 [g2 [-> [[Hws ->] [-> [-> He]]]]]]].
    apply sem_str in Hd. destruct Hd as [-> ->].
    apply Ascii.eqb_eq in Hc. subst c.
    split; [|now split]. exists ws. rewrite append_nil_r. now split.
  - intros [[ws [-> Hws]] [He ->]].
    exists Py.newline, ("---" ++ ws), g. split; [reflexivity|]. split.
    { exists Py.NL. repeat split; try apply Ascii.eqb_refl. }
    exists "---", ws, g. split; [reflexivity|]. split; [apply sem_str_complete|].
    exists ws, EmptyString, g. split; [now rewrite append_nil_r|].
    split; [now split|]. now repeat split.
Qed.

Lemma strip_fixed_rstrip (x : string) : Py.strip x = x -> Py.rstrip x = x.
Proof.
  intros Hs. destruct (rstrip_prefix x) as [w Hw].
  destruct (lstrip_suffix (Py.rstrip x)) as [v Hv].
  fold (Py.strip x) in Hv. rewrite Hs in Hv.
  assert (L : String.length w = 0).
  { apply (f_equal String.length) in Hw, Hv.
    rewrite length_append in Hw, Hv. lia. }
  destruct w; [|discriminate]. now rewrite append_nil_r in Hw.
Qed.

Lemma no_trailing_space (y w : string) :
  Py.rstrip (y ++ w) = y ++ w -> all_chars Py.isspace w = true ->
  w = EmptyString.
Proof.
  intros Hr Hw. rewrite (@rstrip_pad y w Hw) in Hr.
  destruct (rstrip_prefix y) as [v Hv].
  assert (L : String.length w = 0).
  { apply (f_equal String.length) in Hr, Hv.
    rewrite length_append in Hr, Hv. lia. }
  now destruct w.
Qed.

Lemma spaces_app (a b : string) :
  all_chars Py.isspace a = true -> all_chars Py.isspace b = true ->
  all_chars Py.isspace (a ++ b) = true.
Proof.
  intros Ha Hb. induction a as [|c a IH]; [exact Hb|].
  simpl in Ha |- *. apply andb_true_iff in Ha. destruct Ha as [-> Ha].
  now apply IH.
Qed.

Lemma separator_sub (x : string) :
  (re.search separator_tail x = false /\ re.sub_empty separator_tail x = x) \/
  exists sk ws tail,
    x = sk ++ separator ++ ws ++ tail /\ all_chars Py.isspace ws = true /\
    (tail = EmptyString \/ tail = Py.newline) /\
    re.sub_empty separator_tail x = sk ++ tail.
Proof.
  unfold re.sub_empty.
  destruct (re.matches separator_tail x) as [ms tail] eqn:E.
  pose proof (search_matches separator_tail x) as Hs. rewrite E in Hs.
  pose proof E as E'. apply separator_once in E'.
  destruct E' as [[-> ->]|[sk [m [-> [Hx Ht]]]]].
  - left. split; [now apply Hs|reflexivity].
  - right. apply scan_sound in E. destruct E as [_ [Hsem _]].
    apply separator_text in Hsem. destruct Hsem as [[ws [Hm Hws]] _].
    exists sk, ws, tail. rewrite Hm in Hx.
    repeat split; assumption.
Qed.

(** X21.  The closing separator of a section.  The substitution that
    [parse_nanobot] applies to a section removes a line feed and three
    hyphens at the very end of the text and nothing else: one separator is
    cut off, and a trimmed text that does not end in it is left as it is. *)
Theorem separator_removed (x : string) :
  (forall t, x = t ++ separator -> re.sub_empty separator_tail x = t) /\
  (Py.strip x = x -> (forall t, x <> t ++ separator) ->
   re.sub_empty separator_tail x = x).
Proof.
  assert (Tail : forall tail, tail = EmptyString \/ tail = Py.newline ->
                              all_chars Py.isspace tail = true)
    by (intros tail [-> | ->]; reflexivity).
  split.
  - intros t ->.
    destruct (separator_sub (t ++ separator))
      as [[S _]|[sk [ws [tail [Hx [Hws [Ht ->]]]]]]].
    + exfalso.
      assert (T : re.search separator_tail (t ++ separator) = true).
      { apply search_spec. exists t, separator, EmptyString, None.
        split; [reflexivity|]. apply separator_text.
        split; [|now split]. exists EmptyString. now split. }
      congruence.
    + assert (W : ws ++ tail = EmptyString).
      { apply (@solid_end_no_pad (t ++ Py.newline ++ "--") (sk ++ separator)
                                 (ws ++ tail) "-"%char).
        - reflexivity.
        - rewrite !append_assoc. rewrite <- Hx. reflexivity.
        - apply spaces_app; [exact Hws|now apply Tail]. }
      destruct ws; [|discriminate]. simpl in W. subst tail.
      rewrite append_nil_r. simpl in Hx. rewrite ?append_nil_r in Hx.
      symmetry. exact (append_inv_tail _ _ _ Hx).
  - intros Hs Hn.
    destruct (separator_sub x) as [[_ S]|[sk [ws [tail [Hx [Hws [Ht _]]]]]]];
      [exact S|]. exfalso.
    assert (W : ws ++ tail = EmptyString).
    { apply (@no_trailing_space (sk ++ separator) (ws ++ tail)).
      - rewrite !append_assoc. rewrite <- Hx. now apply strip_fixed_rstrip.
      - apply spaces_app; [exact Hws|now apply Tail]. }
    destruct ws; [|discriminate]. simpl in W. subst tail.
    simpl in Hx. rewrite ?append_nil_r in Hx. exact (Hn sk Hx).
Qed.

(** ** Plain prose *)








Section ProseFacts.

Context {builtins : Builtins}.


End ProseFacts.

(** ** A transcript read back *)

Lemma lower_append (a b : string) : Py.lower (a ++ b) = Py.lower a ++ Py.lower b.
Proof. induction a as [|c a IH]; [reflexivity|]. simpl. now rewrite IH. Qed.

Lemma snoc_split (a x y : string) (c : ascii) :
  a ++ String c EmptyString = x ++ y -> y <> EmptyString ->
  exists y', y = y' ++ String c EmptyString /\ a = x ++ y'.
Proof.
  revert a. induction x as [|d x IH]; intros a E Hy.
  - exists a. simpl in E. now split.
  - destruct a as [|d' a].
    + simpl in E. injection E as _ E. destruct x; [|discriminate].
      simpl in E. now subst y.
    + simpl in E. injection E as -> E.
      destruct (IH _ E Hy) as [y' [-> ->]]. now exists y'.
Qed.

Section RunFacts.

Variable R : Type.

Lemma run_fails (r : re.regex) (prev : option ascii) (s : string)
      (g : option string) (k : re.cont R) :
  (forall t s' g', s = t ++ s' -> ~ sem r prev t s' g g') ->
  re.run r prev s g k = None.
Proof.
  intros H. destruct (re.run r prev s g k) as [x|] eqn:E; [|reflexivity].
  destruct (run_sound _ _ _ _ _ E) as [t [s' [g' [Hs [Hsem _]]]]].
  now destruct (H _ _ _ Hs Hsem).
Qed.

Lemma run_stri_exact (w : string) :
  forall l prev s' g (k : re.cont R),
    Py.lower l = Py.lower w ->
    re.run (re.stri w) prev (l ++ s') g k = k (last_of prev l) s' g.
Proof.
  induction w as [|c w IH]; intros l prev s' g k E; destruct l as [|x l];
    try discriminate; [reflexivity|].
  simpl in E. injection E as Ex E. cbn [re.stri re.run re.liti append last_of].
  rewrite Ex, Ascii.eqb_refl. now apply IH.
Qed.

Lemma run_alt_stri (ws : list string) :
  forall w0 prev s g (k : re.cont R) v,
    (forall w, In w (w0 :: ws) ->
               re.run (re.stri w) prev s g k = None \/
               re.run (re.stri w) prev s g k = v) ->
    (exists w, In w (w0 :: ws) /\ re.run (re.stri w) prev s g k = v) ->
    re.run (re.alt (re.stri w0) (map re.stri ws)) prev s g k = v.
Proof.
  induction ws as [|w1 ws IH]; intros w0 prev s g k v Hall [w [Hin Hw]].
  - destruct Hin as [->|[]]. exact Hw.
  - cbn [map re.alt re.run].
    destruct (Hall w0 (or_introl eq_refl)) as [E|E]; rewrite E.
    + apply IH.
      * intros w' Hin'. apply Hall. now right.
      * destruct Hin as [->|Hin]; [|now exists w].
        rewrite E in Hw. subst v. exists w1. split; [now left|].
        destruct (Hall w1 (or_intror (or_introl eq_refl))) as [E1|E1];
          exact E1.
    + destruct v as [x|]; [reflexivity|].
      apply IH.
      * intros w' Hin'. apply Hall. now right.
      * exists w1. split; [now left|].
        destruct (Hall w1 (or_intror (or_introl eq_refl))) as [E1|E1];
          exact E1.
Qed.

End RunFacts.

Lemma label_head (l : string) :
  is_label l ->
  exists c l', l = String c l' /\ Ascii.eqb "*" c = false /\ Ascii.eqb "#" c = false.
Proof.
  unfold is_label. destruct l as [|c l']; intros H; simpl in H.
  - repeat (destruct H as [H|H]; [discriminate|]). contradiction.
  - exists c, l'. split; [reflexivity|].
    split.
    + destruct (Ascii.eqb_spec "*"%char c) as [<-|]; [|reflexivity]. exfalso.
      repeat (destruct H as [H|H]; [discriminate|]). contradiction.
    + destruct (Ascii.eqb_spec "#"%char c) as [<-|]; [|reflexivity]. exfalso.
      repeat (destruct H as [H|H]; [discriminate|]). contradiction.
Qed.

(** Two labels that begin the same text, the first followed by a colon,
    are the same up to case. *)
Lemma label_before_colon (l t x y : string) :
  is_label l -> is_label t -> l ++ ":" ++ x = t ++ y ->
  Py.lower t = Py.lower l.
Proof.
  unfold is_label. intros Hl Ht E.
  apply (f_equal Py.lower) in E. rewrite !lower_append in E.
  apply (f_equal (fun s => Py.startswith s (Py.lower t))) in E.
  rewrite startswith_app in E. simpl in Hl, Ht.
  repeat (destruct Hl as [Hl|Hl];
          [rewrite <- Hl in E |- *;
           repeat (destruct Ht as [Ht|Ht];
                   [rewrite <- Ht in E |- *;
                    first [reflexivity|discriminate E]|]);
           contradiction|]).
  contradiction.
Qed.

Lemma decoration_head (prev : option ascii) (t s' : string) (g g' : option string) :
  sem (re.Alt (re.str "**") (re.Seq (re.str "##") (re.Star re.space)))
      prev t s' g g' ->
  exists r, t = "*" ++ r \/ t = "#" ++ r.
Proof.
  cbn [sem]. intros [H|[h [ws [g1 [-> [H _]]]]]]; apply sem_str in H;
    destruct H as [-> _].
  - exists "*". now left.
  - exists ("#" ++ ws). now right.
Qed.

Section PieceFacts.

Variable R : Type.

Lemma run_seq_cons (a b : re.regex) (l : list re.regex) (prev : option ascii)
      (s : string) (g : option string) (k : re.cont R) :
  re.run (re.seq (a :: b :: l)) prev s g k
  = re.run a prev s g (fun p s' g' => re.run (re.seq (b :: l)) p s' g' k).
Proof. reflexivity. Qed.

Lemma run_bol (prev : option ascii) (s : string) (g : option string)
      (k : re.cont R) :
  re.at_bol prev = true -> re.run re.Bol prev s g k = k prev s g.
Proof. intros H. simpl. now rewrite H. Qed.

Lemma run_opt_none (a : re.regex) (prev : option ascii) (s : string)
      (g : option string) (k : re.cont R) :
  (forall t s' g', s = t ++ s' -> ~ sem a prev t s' g g') ->
  re.run (re.Opt a) prev s g k = k prev s g.
Proof. intros H. cbn [re.run]. now rewrite (@run_fails R a prev s g k H). Qed.

Lemma star_two (p : ascii -> bool) (prev : option ascii) (a b c : ascii)
      (s : string) (k : option ascii -> string -> option R) (x : R) :
  p a = true -> p b = true -> p c = false ->
  k (Some b) (String c s) = Some x ->
  re.star p prev (String a (String b (String c s))) k = Some x.
Proof. intros Ha Hb Hc Hk. simpl. now rewrite Ha, Hb, Hc, Hk. Qed.

(** The label of a turn is read by its own alternative and by no other. *)
Lemma run_labels (prev : option ascii) (l x : string) (g : option string)
      (k : re.cont R) :
  is_label l ->
  re.run role_labels prev (l ++ ":" ++ x) g k
  = k (last_of prev l) (":" ++ x) (Some l).
Proof.
  intros Hl. rewrite role_labels_eq. cbn [re.run].
  destruct (is_label_spelling Hl) as [w [Hin E]].
  apply run_alt_stri.
  - intros w' Hin'.
    destruct (string_dec (Py.lower w') (Py.lower l)) as [E'|N].
    + right. rewrite run_stri_exact by (symmetry; exact E').
      now rewrite consumed_append.
    + left. apply run_fails. intros t s' g' Hs Hsem.
      apply sem_stri in Hsem. destruct Hsem as [Ht _].
      apply N. rewrite <- Ht.
      apply (@label_before_colon l t x s'); [exact Hl| |exact Hs].
      exact (label_spelling _ Hin' Ht).
  - exists w. split; [exact Hin|].
    rewrite run_stri_exact by exact E. now rewrite consumed_append.
Qed.

End PieceFacts.

Lemma turn_match (prev : option ascii) (l b r : string) (adv : bool) :
  re.at_bol prev = true -> is_label l ->
  b <> EmptyString -> Py.strip b = b -> Py.startswith b ":" = false ->
  re.match_at role_pattern prev (l ++ ": " ++ b ++ r) adv
  = Some (re.mkMatch (l ++ ": ") (Some l) (Some " "%char) (b ++ r)).
Proof.
  intros Hbol Hl Hb Hs Hc.
  destruct b as [|c b']; [contradiction|]. clear Hb.
  assert (Hsp : Py.isspace c = false).
  { unfold Py.strip in Hs. exact (lstrip_head _ Hs). }
  rewrite startswith_char in Hc.
  destruct (label_head Hl) as [c0 [l' [El [Hstar Hhash]]]].
  unfold re.match_at, role_pattern.
  rewrite run_seq_cons, run_bol by exact Hbol.
  rewrite run_seq_cons, run_opt_none.
  2:{ intros t s' g' E Hsem. apply decoration_head in Hsem.
      destruct Hsem as [x [-> | ->]]; rewrite El in E; simpl in E;
        injection E as -> _; simpl in Hstar, Hhash; discriminate. }
  rewrite run_seq_cons.
  change (l ++ ": " ++ String c b' ++ r) with (l ++ ":" ++ " " ++ String c b' ++ r).
  rewrite run_labels by exact Hl.
  rewrite run_seq_cons, run_opt_none.
  2:{ intros t s' g' E Hsem. apply sem_str in Hsem. destruct Hsem as [-> _].
      discriminate E. }
  rewrite run_seq_cons.
  change (re.run (re.Star ?p) ?pv ?x ?g ?k)
    with (re.star p pv x (fun p' s' => k p' s' g)).
  change (":" ++ " " ++ String c b' ++ r)
    with (String ":" (String " " (String c (b' ++ r)))).
  change (String c b' ++ r) with (String c (b' ++ r)).
  set (whole := l ++ _).
  apply star_two; try reflexivity.
  { rewrite Ascii.eqb_sym, Hc. exact Hsp. }
  change (re.seq [re.Opt (re.lit Py.NL)]) with (re.Opt (re.lit Py.NL)).
  rewrite run_opt_none.
  2:{ intros t s' g' E [x [-> [Hx _]]]. simpl in E. injection E as <- _.
      apply Ascii.eqb_eq in Hx. subst c. discriminate Hsp. }
  replace (String.length (String c (b' ++ r)) =? String.length whole)%nat
    with false.
  2:{ symmetry. apply Nat.eqb_neq. unfold whole. rewrite (length_append l).
      simpl. lia. }
  rewrite andb_false_r. f_equal. f_equal.
  change whole with (l ++ ": " ++ String c (b' ++ r)).
  rewrite <- append_assoc. apply consumed_append.
Qed.

Lemma search_skip (r : re.regex) (x : string) :
  forall prev y,
    (forall x1 x2, x = x1 ++ x2 -> x2 <> EmptyString ->
                   re.match_at r (last_of prev x1) (x2 ++ y) false = None) ->
    re.search_from r prev (x ++ y) false =
    match re.search_from r (last_of prev x) y false with
    | Some (sk, m) => Some (x ++ sk, m)
    | None => None
    end.
Proof.
  induction x as [|c x IH]; intros prev y H.
  - simpl. now destruct (re.search_from r prev y false) as [[sk m]|].
  - rewrite search_from_eq.
    assert (H0 : re.match_at r prev (String c x ++ y) false = None)
      by (apply (H EmptyString (String c x) eq_refl); discriminate).
    rewrite H0. cbn [append].
    rewrite (IH (Some c) y).
    + simpl. now destruct (re.search_from r (last_of (Some c) x) y false)
        as [[sk m]|].
    + intros x1 x2 E Hx. apply (H (String c x1) x2); [|exact Hx].
      simpl. now rewrite E.
Qed.

(** Inside the body of a turn, and at its closing line feed, no marker
    begins. *)
Lemma body_no_match (b y x1 x2 : string) :
  quiet b -> b ++ Py.newline = x1 ++ x2 -> x2 <> EmptyString ->
  re.match_at role_pattern (last_of (Some " "%char) x1) (x2 ++ y) false = None.
Proof.
  intros Hq E Hx.
  destruct (re.match_at role_pattern _ (x2 ++ y) false) as [m|] eqn:Em;
    [exfalso|reflexivity].
  apply match_at_sound in Em. destruct Em as [Es [Hsem _]].
  apply role_pattern_shape in Hsem.
  destruct Hsem as [Hbol [label [_ [d [c [sep [Et [Hd [Hl _]]]]]]]]].
  apply last_of_bol in Hbol. destruct Hbol as [[_ Hbol]|[b1 ->]];
    [discriminate Hbol|].
  destruct (snoc_split _ _ _ E Hx) as [y' [-> ->]].
  apply (Hq b1 y' y); [now rewrite append_assoc|].
  exists d, label, (c ++ sep ++ re.rest_after m).
  split; [|now split].
  rewrite append_assoc in Es. unfold Py.newline. rewrite Es, Et.
  now rewrite !append_assoc.
Qed.

Lemma length_transcript (ts : list (string * string)) :
  List.length ts <= String.length (transcript ts).
Proof.
  induction ts as [|t ts IH]; [apply Nat.le_refl|].
  simpl. unfold turn_text. rewrite !length_append. simpl. lia.
Qed.

Lemma normalize_role_strip (raw : string) :
  _normalize_role (Py.strip raw) = _normalize_role raw.
Proof. unfold _normalize_role. now rewrite lower_strip, strip_idem. Qed.

Lemma turn_text_message (t : string * string) :
  plain_turn t ->
  text_message (fst t, snd t ++ Py.newline) = [turn_message t].
Proof.
  intros [_ [Hb [Hs _]]]. unfold text_message, turn_message. cbn [fst snd].
  replace (Py.strip (snd t ++ Py.newline)) with (snd t).
  - rewrite normalize_role_strip. now destruct (snd t).
  - rewrite <- Hs at 1. symmetry.
    apply (@strip_pad EmptyString (snd t) Py.newline); reflexivity.
Qed.

(** After the marker of a turn, the scan runs to the marker of the next
    turn and so on to the end. *)
Lemma scan_turns (ts : list (string * string)) :
  forall l b fuel,
    Forall plain_turn ts -> plain_body b -> List.length ts < fuel ->
    exists ms tail,
      re.scan fuel role_pattern (Some " "%char)
              (b ++ Py.newline ++ transcript ts) false = (ms, tail) /\
      marker_bodies l ms tail
      = map (fun t => (fst t, snd t ++ Py.newline)) ((l, b) :: ts).
Proof.
  induction ts as [|[l' b'] ts IH]; intros l b fuel Hts Hb Hf;
    (destruct fuel as [|f]; [inversion Hf|]); cbn [re.scan].
  - cbn [transcript]. rewrite <- append_assoc.
    rewrite search_skip
      by (intros x1 x2 E Hx; destruct Hb as [_ [_ [_ Hq]]];
          now apply body_no_match with (b := b)).
    rewrite last_of_append. cbn [last_of Py.newline].
    change (re.search_from role_pattern (Some Py.NL) EmptyString false)
      with (@None (string * re.Match)).
    exists [], ((b ++ Py.newline) ++ EmptyString). split; [reflexivity|].
    simpl. now rewrite append_nil_r.
  - inversion Hts as [|t0 ts0 [Hl' Hb'] Hts']; subst. cbn [fst snd] in Hl', Hb'.
    cbn [transcript]. unfold turn_text. cbn [fst snd].
    replace (b ++ Py.newline ++ (l' ++ ": " ++ b' ++ Py.newline) ++ transcript ts)
      with ((b ++ Py.newline) ++ l' ++ ": " ++ b' ++ Py.newline ++ transcript ts)
      by now rewrite !append_assoc.
    rewrite search_skip
      by (intros x1 x2 E Hx; destruct Hb as [_ [_ [_ Hq]]];
          now apply body_no_match with (b := b)).
    rewrite last_of_append. cbn [last_of Py.newline].
    rewrite search_from_eq.
    destruct Hb' as [Hb1 [Hb2 [Hb3 Hb4]]].
    rewrite turn_match by (try assumption; reflexivity).
    cbn [re.prev_after re.rest_after re.text].
    replace (negb (Py.nonempty (l' ++ ": "))) with false
      by (destruct (label_head Hl') as [c0 [r0 [-> _]]]; reflexivity).
    destruct (IH l' b' f Hts') as [ms [tail [E Hm]]];
      [now repeat split|simpl in Hf; lia|].
    rewrite E. eexists _, tail. split; [reflexivity|].
    cbn [marker_bodies re.group1 re.group map fst snd].
    rewrite append_nil_r. f_equal. exact Hm.
Qed.

(** X23.  A transcript is read back turn by turn.  When every turn is
    written as its label, a colon, a space, its body and a line feed, the
    label being one of the pattern's and the body not empty, trimmed, not
    starting with a colon and with no later line that begins a marker,
    [parse_text] returns one message for each turn, in order: the
    normalized label as role, the body as content, no metadata. *)
Theorem transcript_messages (turns : list (string * string)) :
  Forall plain_turn turns ->
  parse_text (transcript turns) = map turn_message turns.
Proof.
  intros Hts. destruct turns as [|[l b] ts]; [reflexivity|].
  inversion Hts as [|t0 ts0 Ht Hts']; subst.
  pose proof Ht as [Hl [Hb1 [Hb2 [Hb3 Hb4]]]]. cbn [fst snd] in *.
  set (input := transcript ((l, b) :: ts)).
  destruct (@scan_turns ts l b (2 * String.length input + 1) Hts')
    as [ms [tail [E Hm]]].
  { now repeat split. }
  { pose proof (length_transcript ((l, b) :: ts)) as H. fold input in H.
    simpl in H. lia. }
  assert (Hscan : re.matches role_pattern input
                  = (("", re.mkMatch (l ++ ": ") (Some l) (Some " "%char)
                            (b ++ Py.newline ++ transcript ts)) :: ms, tail)).
  { unfold re.matches.
    replace (2 * String.length input + 2) with (S (2 * String.length input + 1))
      by lia.
    cbn [re.scan]. rewrite search_from_eq.
    unfold input. cbn [transcript]. unfold turn_text. cbn [fst snd].
    replace ((l ++ ": " ++ b ++ Py.newline) ++ transcript ts)
      with (l ++ ": " ++ b ++ Py.newline ++ transcript ts)
      by now rewrite !append_assoc.
    rewrite turn_match by (try assumption; reflexivity).
    cbn [re.prev_after re.rest_after re.text].
    replace (negb (Py.nonempty (l ++ ": "))) with false
      by (destruct (label_head Hl) as [c0 [r0 [-> _]]]; reflexivity).
    fold (transcript ts).
    replace (String.length (l ++ ": " ++ b ++ Py.newline ++ transcript ts))
      with (String.length input)
      by (unfold input; cbn [transcript]; unfold turn_text; cbn [fst snd];
          now rewrite !append_assoc).
    now rewrite E. }
  rewrite (parse_text_markers _ Hscan). cbn [re.group1 re.group].
  rewrite Hm. clear - Hts.
  induction Hts as [|t ts' Ht' Hts' IH]; [reflexivity|].
  cbn [map flat_map]. rewrite turn_text_message by exact Ht'.
  cbn [app]. f_equal. exact IH.
Qed.

Lemma quiet_line (b : string) : Py.contains b Py.newline = false -> quiet b.
Proof.
  intros H before after rest E. exfalso.
  rewrite E, contains_app in H. discriminate H.
Qed.

(** ** The role unknown *)

Lemma unknown_not_canonical : ~ In "unknown" canonical_roles.
Proof.
  intros H. simpl in H.
  repeat (destruct H as [H|H]; [discriminate H|]). contradiction.
Qed.

Lemma parse_text_unknown (input : string) (m : Message) :
  role m = "unknown" -> In m (parse_text input) ->
  ~ has_marker input /\
  parse_text input = [mkMessage "unknown" (Py.strip input) []].
Proof.
  intros Hr Hin. destruct (parse_text_roles input) as [Hu Hm].
  destruct (re.search role_pattern input) eqn:E.
  - exfalso. specialize (Hm eq_refl). rewrite Forall_forall in Hm.
    specialize (Hm _ Hin). rewrite Hr in Hm. exact (unknown_not_canonical Hm).
  - split.
    + intros H. apply search_role_pattern in H. congruence.
    + rewrite (Hu eq_refl) in Hin |- *.
      destruct (Py.nonempty (Py.strip input)); [reflexivity|contradiction].
Qed.

(** X25.  The role unknown marks the fallback.  The narrative parsers emit
    a message of role unknown only where the content has no role marker,
    and they then return that one message, which holds the whole trimmed
    content. *)
Theorem unknown_marks_fallback (input : string) (m : Message) :
  role m = "unknown" ->
  (In m (parse_text input) ->
   ~ has_marker input /\
   parse_text input = [mkMessage "unknown" (Py.strip input) []]) /\
  (In m (parse_nanobot input) ->
   ~ has_marker input /\
   parse_nanobot input = [mkMessage "unknown" (Py.strip input) []]).
Proof.
  intros Hr. split; [now apply parse_text_unknown|].
  rewrite parse_nanobot_sections.
  pose proof (nanobot_sections_roles input) as Hs.
  destruct (nanobot_sections input) as [|m' ms]; [now apply parse_text_unknown|].
  intros Hin. exfalso. rewrite Forall_forall in Hs.
  specialize (Hs _ Hin). rewrite Hr in Hs. exact (unknown_not_canonical Hs).
Qed.

(** * Sample runs

    The claims that fail as worded, refuted at a sample, and the theorems
    above run at samples that meet their hypotheses.  The built-in texts are
    those of [sample_builtins]. *)

(** ** C1: the parser's own error *)

Lemma malformed_third_line_run :
  detect_format malformed_third_line = Fjsonl /\
  @parse_jsonl sample_builtins malformed_third_line =
    inl (ParseError "Invalid JSON on line 3: Expecting value") /\
  @parse_session sample_builtins malformed_third_line EmptyString =
    inl (ParseError "Invalid JSON on line 3: Expecting value").
Proof. repeat apply conj; vm_compute; reflexivity. Qed.

(** The parser's own [ParseError] is neither of the two cases of C1. *)
Lemma C1_counterexample :
  ~ C1_as_stated sample_builtins malformed_third_line EmptyString.
Proof.
  intros [H _].
  destruct malformed_third_line_run as [Hf [Hp Hs]].
  destruct H as [H|H].
  - eexists. exact Hs.
  - vm_compute in H. discriminate.
  - rewrite Hf in H. simpl in H. rewrite Hp in H. discriminate.
Qed.

Lemma C1_witness :
  Py.strip malformed_third_line <> EmptyString /\
  @parser_map sample_builtins (detect_format malformed_third_line)
              malformed_third_line
  = inl (ParseError "Invalid JSON on line 3: Expecting value") /\
  @parse_session sample_builtins malformed_third_line EmptyString
  = inl (ParseError "Invalid JSON on line 3: Expecting value").
Proof.
  assert (N : Py.strip malformed_third_line <> EmptyString)
    by (vm_compute; discriminate).
  assert (P : @parser_map sample_builtins (detect_format malformed_third_line)
                          malformed_third_line
              = inl (ParseError "Invalid JSON on line 3: Expecting value"))
    by (vm_compute; reflexivity).
  repeat apply conj; [exact N|exact P|].
  apply (proj2 (@C1_parse_session_outcomes sample_builtins
                  malformed_third_line EmptyString)).
  right. left. split; [exact N|exact P].
Defined.

(** ** C2: the empty array *)




(** ** C3: an empty content in a structured array *)

Lemma C3_counterexample :
  ~ C3_as_stated sample_builtins (doc "[{'role':'user','content':''}]").
Proof.
  intros [H _].
  specialize (H [mkMessage "user" EmptyString []]
                ltac:(vm_compute; reflexivity)).
  inversion H as [|? ? Hc _]. discriminate Hc.
Qed.

(** ** C4: a line that does not decode, first and last *)



(** ** C8: a label without separator *)

Lemma username_run :
  re.matches role_pattern "Username: bob" =
    ([(EmptyString, re.mkMatch "User" (Some "User") (Some "r"%char) "name: bob")],
     "name: bob") /\
  parse_text "Username: bob" = [mkMessage "user" "name: bob" []].
Proof. split; vm_compute; reflexivity. Qed.

(** [Username] at a line start is read as the label [User]. *)
Lemma username_not_separated : ~ C8_as_stated "Username: bob".
Proof.
  intros H. destruct username_run as [Hm _].
  destruct (H _ _ 0 _ _ Hm eq_refl) as [d [c [sep [rest [E _]]]]].
  apply (f_equal String.length) in E.
  rewrite !length_append in E. simpl in E. lia.
Qed.

(** C8.  A label that no separator follows.  The content [Username: bob]
    has no role marker as the claim describes one: at the start of its line
    the label [User] is followed by a letter, not by a colon or a
    whitespace character.  [parse_text] splits after the label all the same
    and returns one message of role user with the content [name: bob], and
    so does [parse_session], which detects generic narrative.  Likewise
    [Users often ask about pricing.] becomes a message of role user with
    the content [s often ask about pricing.]: a content that begins with a
    label is split after the label, whatever follows it. *)
Theorem C8_label_without_separator :
  ~ C8_as_stated "Username: bob" /\
  parse_text "Username: bob" = [mkMessage "user" "name: bob" []] /\
  @parse_session sample_builtins "Username: bob" EmptyString
  = inr (mkSession [mkMessage "user" "name: bob" []] EmptyString Ftext) /\
  parse_text "Users often ask about pricing."
  = [mkMessage "user" "s often ask about pricing." []] /\
  (forall label rest,
      is_label label ->
      exists m ms tail,
        re.matches role_pattern (label ++ rest) = ((EmptyString, m) :: ms, tail)).
Proof.
  split; [exact username_not_separated|].
  split; [exact (proj2 username_run)|].
  split; [vm_compute; reflexivity|].
  split; [vm_compute; reflexivity|].
  intros label rest. apply label_at_start.
Qed.

(** ** C7, C9 and C10 *)

(** A header line alone: no section, and the fallback reads the header as
    the one message. *)
Lemma C7_witness :
  re.search section_pattern (nanobot_body "session_id: 42") = false /\
  parse_nanobot "session_id: 42" = parse_text "session_id: 42" /\
  parse_text "session_id: 42" = [mkMessage "unknown" "session_id: 42" []] /\
  parse_text (nanobot_body "session_id: 42") = [].
Proof.
  assert (S : re.search section_pattern (nanobot_body "session_id: 42") = false)
    by (vm_compute; reflexivity).
  repeat apply conj; [exact S| |vm_compute; reflexivity..].
  exact (proj1 (proj2 (@C7_nanobot_fallback sample_builtins "session_id: 42")) S).
Defined.

Lemma C9_witness :
  In (role_key "  Human ") ["user"; "human"; "customer"] /\
  _normalize_role "  Human " = "user".
Proof.
  assert (K : In (role_key "  Human ") ["user"; "human"; "customer"])
    by (right; left; vm_compute; reflexivity).
  split; [exact K|].
  exact (proj1 (proj1 C9_normalize_role "  Human ") K).
Defined.

Lemma C10_witness :
  @parse_jsonl sample_builtins late_malformed_line =
    inl (ParseError "Invalid JSON on line 2: Expecting value") /\
  leading_newlines late_malformed_line = 1 /\
  exists i line,
    nth_error (Py.split_lines (Py.strip late_malformed_line)) i = Some line /\
    Py.strip line <> EmptyString /\
    json.loads (Py.strip line) = None /\
    "Invalid JSON on line 2: Expecting value" =
      "Invalid JSON on line " ++ Py.str_nat (1 + i) ++ ": "
      ++ @exc_str sample_builtins (Py.strip line) /\
    exists line',
      nth_error (Py.split_lines late_malformed_line)
                (leading_newlines late_malformed_line + i) = Some line' /\
      Py.strip line' = Py.strip line.
Proof.
  assert (E : @parse_jsonl sample_builtins late_malformed_line =
              inl (ParseError "Invalid JSON on line 2: Expecting value"))
    by (vm_compute; reflexivity).
  repeat apply conj; [exact E|reflexivity|].
  exact (@C10_line_number_base sample_builtins late_malformed_line _ E).
Defined.

(** ** The further properties at samples *)

(** X2 at the session of [nanobot_log]. *)
Lemma stats_parsed_witness :
  @parse_session sample_builtins nanobot_log "log" = inr nanobot_session /\
  exists total chars,
    dict_get (stats nanobot_session) "total_messages" = Some total /\
    dict_get (stats nanobot_session) "total_chars" = Some chars /\
    1 <= total /\
    (format_detected nanobot_session = Ftext \/
     format_detected nanobot_session = Fnanobot -> total <= chars).
Proof.
  assert (P : @parse_session sample_builtins nanobot_log "log" = inr nanobot_session)
    by (vm_compute; reflexivity).
  split; [exact P|].
  exact (@stats_parsed sample_builtins nanobot_log "log" nanobot_session P).
Defined.

(** X19 at the same session. *)
Lemma session_roles_normalized_witness :
  @parse_session sample_builtins nanobot_log "log" = inr nanobot_session /\
  Forall (fun m => _normalize_role (role m) = role m /\
                   Py.lower (role m) = role m /\ Py.strip (role m) = role m)
         (messages nanobot_session).
Proof.
  assert (P : @parse_session sample_builtins nanobot_log "log" = inr nanobot_session)
    by (vm_compute; reflexivity).
  split; [exact P|].
  exact (@session_roles_normalized sample_builtins nanobot_log "log"
           nanobot_session P).
Defined.

(** X4: a structured array between a line feed and two spaces. *)
Lemma surrounding_whitespace_witness :
  all_chars Py.isspace Py.newline = true /\
  all_chars Py.isspace "  " = true /\
  detect_format (Py.newline ++ tagged_log ++ "  ") = detect_format tagged_log /\
  detect_format tagged_log = Fjson /\
  @parse_session sample_builtins (Py.newline ++ tagged_log ++ "  ") "log"
  = @parse_session sample_builtins tagged_log "log".
Proof.
  assert (W1 : all_chars Py.isspace Py.newline = true) by reflexivity.
  assert (W2 : all_chars Py.isspace "  " = true) by reflexivity.
  assert (F : detect_format tagged_log = Fjson) by (vm_compute; reflexivity).
  destruct (@surrounding_whitespace sample_builtins Py.newline tagged_log "  "
              W1 W2) as [Hd [_ [_ Hs]]].
  split; [exact W1|]. split; [exact W2|]. split; [exact Hd|].
  split; [exact F|]. apply Hs. now left.
Defined.

(** X11: the field [id] of the element reaches the metadata. *)
Lemma metadata_fields_witness :
  @parse_json sample_builtins tagged_log
  = inr [mkMessage "user" "hi" [("id", JInt 7)]] /\
  exists m,
    nth_error [mkMessage "user" "hi" [("id", JInt 7)]] 0 = Some m /\
    forall k,
      dict_get (metadata m) k =
      if is_message_key k then None else dict_get tagged_item k.
Proof.
  assert (P : @parse_json sample_builtins tagged_log
              = inr [mkMessage "user" "hi" [("id", JInt 7)]])
    by (vm_compute; reflexivity).
  split; [exact P|].
  apply (@metadata_fields sample_builtins tagged_log _ [JObj tagged_item] 0 _ P);
    vm_compute; reflexivity.
Defined.

(** X8: the array is detected as json and parsed into one message. *)
Lemma detected_parser_results_witness :
  detect_format tagged_log = Fjson /\
  forall msgs,
    @parse_json sample_builtins tagged_log = inr msgs -> 1 <= List.length msgs.
Proof.
  assert (F : detect_format tagged_log = Fjson) by (vm_compute; reflexivity).
  split; [exact F|].
  exact (proj1 (@detected_parser_results sample_builtins tagged_log) F).
Defined.

(** X17: a note without a marker is one message of role unknown. *)
Lemma unmarked_text_witness :
  ~ has_marker plain_note /\
  parse_text plain_note = [mkMessage "unknown" plain_note []] /\
  @parse_session sample_builtins plain_note "note"
  = inr (mkSession [mkMessage "unknown" plain_note []] "note" Ftext).
Proof.
  destruct (@unmarked_text sample_builtins plain_note "note") as [Hm Hu].
  assert (N : ~ has_marker plain_note).
  { intros H. apply Hm in H. vm_compute in H. discriminate H. }
  assert (S : Py.strip plain_note <> EmptyString) by (vm_compute; discriminate).
  destruct (Hu N S) as [Ht [Hs _]].
  split; [exact N|]. split; [exact Ht|].
  apply Hs. vm_compute. reflexivity.
Defined.

(** X20: a heading is a role marker too. *)
Lemma section_headings_witness :
  has_section (doc "## Human\nhi") /\ has_marker (doc "## Human\nhi").
Proof.
  destruct (section_headings (doc "## Human\nhi")) as [Hs [Hm _]].
  assert (S : has_section (doc "## Human\nhi"))
    by (apply Hs; vm_compute; reflexivity).
  split; [exact S|exact (Hm S)].
Defined.

(** X21: the separator that closes a section is cut off. *)
Lemma separator_removed_witness :
  closed_section = "Done" ++ separator /\
  re.sub_empty separator_tail closed_section = "Done".
Proof.
  assert (E : closed_section = "Done" ++ separator) by reflexivity.
  split; [exact E|].
  exact (proj1 (separator_removed closed_section) "Done" E).
Defined.

(** X12: a part that is no text is passed over. *)
Lemma multipart_content_witness :
  ~ is_text_part (JObj [("type", JStr "image")]) /\
  @get_content_json sample_builtins mixed_content = inr (doc "a\nb").
Proof.
  assert (N : ~ is_text_part (JObj [("type", JStr "image")])).
  { intros [[s H]|[p [H Ht]]]; [discriminate H|].
    injection H as <-. vm_compute in Ht. discriminate Ht. }
  split; [exact N|].
  destruct (@multipart_content sample_builtins mixed_content text_content
              [JStr "a"] [JStr "b"]) as [_ [Hskip _]].
  rewrite (Hskip _ N eq_refl eq_refl).
  exact (proj1 (@multipart_content sample_builtins text_content text_content
                  [] []) ["a"; "b"] eq_refl).
Defined.


(** X23: two turns, read back. *)
Lemma transcript_messages_witness :
  parse_text (transcript [("User", "hello"); ("Assistant", "hi there")])
  = [mkMessage "user" "hello" []; mkMessage "assistant" "hi there" []].
Proof.
  apply (@transcript_messages [("User", "hello"); ("Assistant", "hi there")]).
  repeat constructor; simpl; try tauto; try discriminate;
    now apply quiet_line.
Defined.






(** X24: the one match of [Username: bob] is the label at its start. *)
Lemma split_points_witness :
  exists before after,
    "Username: bob" = before ++ "User" ++ after /\
    line_start before /\ role_marker "User" "User".
Proof.
  exact (@split_points "Username: bob" _ _ 0 _ _ (proj1 username_run) eq_refl).
Defined.

(** X25: the note has no marker and is one message of role unknown. *)
Lemma unknown_marks_fallback_witness :
  In (mkMessage "unknown" plain_note []) (parse_text plain_note) /\
  ~ has_marker plain_note /\
  parse_text plain_note = [mkMessage "unknown" plain_note []].
Proof.
  assert (I : In (mkMessage "unknown" plain_note []) (parse_text plain_note))
    by (vm_compute; now left).
  split; [exact I|].
  exact (proj1 (@unknown_marks_fallback plain_note
                  (mkMessage "unknown" plain_note []) eq_refl) I).
Defined.
